(** * gocxx networking core: a shallow embedding and its verified properties

    The development follows the C++ sources of the [gocxx::net] and
    [gocxx::net::http] namespaces: [os.cpp] (TCP transport), [net.cpp] (UDP
    transport), [tls.cpp] (TLS transport) and the HTTP layer (router,
    response writer, client URL handling).

    Conventions of the embedding:
    - [std::string] is [string]; [int], [ssize_t] and [size_t] values are [Z];
    - a C++ object with mutable fields is a record, and each method takes the
      object and returns the updated object (explicit state passing);
    - every call that leaves the program (a socket system call, an OpenSSL
      entry point) is recorded in a trace and answered by an environment
      [OS], so that a property quantified over [OS] holds whatever the
      operating system and the peer do. *)

From Stdlib Require Import ZArith List String Ascii Bool Lia DecimalString
  Sorted.
Import ListNotations.

Local Open Scope string_scope.
Local Open Scope Z_scope.

Set Implicit Arguments.

(* ------------------------------------------------------------------ *)
(** ** The fragment of [std::string] used by the sources *)

Module Str.

(** [s.empty()] *)
Definition empty (s : string) : bool :=
  match s with
  | EmptyString => true
  | String _ _ => false
  end.

(** [s.find(pat)]: index of the first occurrence, [None] for [npos]. *)
Definition find (s pat : string) : option nat := index 0 pat s.

(** [s.find(c)] for a single character. *)
Definition find_char (s : string) (c : ascii) : option nat :=
  index 0 (String c EmptyString) s.

(** [s.rfind(c)]: index of the last occurrence of [c]. *)
Fixpoint rfind_char (s : string) (c : ascii) : option nat :=
  match s with
  | EmptyString => None
  | String a s' =>
      match rfind_char s' c with
      | Some i => Some (S i)
      | None => if Ascii.eqb a c then Some 0%nat else None
      end
  end.

(** [s.substr(pos, n)] and [s.substr(pos)], for [pos <= s.size()]. *)
Definition substr (s : string) (pos n : nat) : string := substring pos n s.

Definition substr_from (s : string) (pos : nat) : string :=
  substring pos (String.length s - pos) s.

(** [std::to_string(int)] and [operator<<(int)]: decimal, with a leading
    minus sign for negative values. *)
Definition to_string (z : Z) : string := NilZero.string_of_int (Z.to_int z).

(** [std::isspace] in the "C" locale. *)
Definition isspace (c : ascii) : bool :=
  let n := nat_of_ascii c in
  (Nat.eqb n 32 || (Nat.leb 9 n && Nat.leb n 13))%bool.

Definition isdigit (c : ascii) : bool :=
  let n := nat_of_ascii c in (Nat.leb 48 n && Nat.leb n 57)%bool.

Fixpoint skip_spaces (s : string) : string :=
  match s with
  | String c s' => if isspace c then skip_spaces s' else s
  | EmptyString => s
  end.

(** The digits at the front of [s], most significant first. *)
Fixpoint leading_digits (s : string) : list Z :=
  match s with
  | String c s' =>
      if isdigit c
      then (Z.of_nat (nat_of_ascii c) - 48) :: leading_digits s'
      else []
  | EmptyString => []
  end.

Definition digits_value (ds : list Z) : Z :=
  fold_left (fun acc d => 10 * acc + d) ds 0.

Definition INT_MIN : Z := - 2147483648.
Definition INT_MAX : Z := 2147483647.

(** [std::stoi(s)]: leading white space is skipped, an optional sign is
    read, then the longest run of decimal digits; what follows the digits is
    ignored. [None] stands for both exceptions of [stoi]:
    [std::invalid_argument] (no digit) and [std::out_of_range] (the value
    does not fit an [int]). *)
Definition stoi (s : string) : option Z :=
  let s1 := skip_spaces s in
  let '(neg, s2) :=
    match s1 with
    | String "-"%char r => (true, r)
    | String "+"%char r => (false, r)
    | _ => (false, s1)
    end in
  match leading_digits s2 with
  | [] => None
  | ds =>
      let v := if neg then - digits_value ds else digits_value ds in
      if ((INT_MIN <=? v) && (v <=? INT_MAX))%bool then Some v else None
  end.

End Str.

(* ------------------------------------------------------------------ *)
(** ** Errors and results *)

(** The three shared error objects of [net.cpp] and the errors made on the
    spot by [gocxx::errors::New]. Errors are compared by identity in the
    sources: a fresh [New] error is never one of the three shared ones. *)
Inductive Error : Type :=
| ErrClosed
| ErrTimeout
| ErrInvalidAddr
| New (msg : string).

(** Modelled from the spec: [gocxx::base::Result<T>], the uniform return type
    of fallible operations, "a result type carrying either a value or an
    error"; the sources build it as [{value, err}] and read it through
    [value], [err], [Ok()] and [Failed()]. A null [err] is [None]. *)
Record Result (A : Type) : Type := mkResult { value : A; err : option Error }.

Definition Ok {A} (r : Result A) : bool :=
  match err r with None => true | Some _ => false end.

Definition Failed {A} (r : Result A) : bool := negb (Ok r).

(** [Result<void>]: [{}] is success and [{e}] carries the error [e]. *)
Definition ResultVoid : Type := Result unit.
Definition ok_void : ResultVoid := mkResult tt None.
Definition err_void (e : Error) : ResultVoid := mkResult tt (Some e).

(* ------------------------------------------------------------------ *)
(** ** The environment: system calls, their answers, and the trace *)

(** Calls that leave the program. The payload of a send is kept, the buffer
    filled by a receive is not (no property below reads it). *)
Inductive Call : Type :=
| sys_recv (fd size : Z)
| sys_send (fd : Z) (data : string) (flags : Z)
| sys_close (fd : Z)
| sys_shutdown (fd how : Z)
| sys_recvfrom (fd size : Z)
| sys_sendto (fd : Z) (data : string) (ip : string) (port : Z)
| sys_accept (fd : Z)
| sys_getaddrinfo (host : string) (socktype : Z)
| sys_socket (socktype : Z)
| sys_connect (fd : Z) (ip : string) (port : Z)
| sys_getsockname (fd : Z)
| SSL_read (ssl size : Z)
| SSL_write (ssl : Z) (data : string) (num : Z)
| SSL_get_error (ssl n : Z)
| SSL_shutdown (ssl : Z)
| SSL_free (ssl : Z)
| SSL_CTX_new
| SSL_CTX_free (ctx : Z)
| SSL_CTX_set_verify (ctx mode : Z)
| SSL_CTX_load_verify_locations (ctx : Z) (ca_file : string)
| SSL_CTX_set_default_verify_paths (ctx : Z)
| SSL_CTX_use_certificate_file (ctx : Z) (file : string)
| SSL_CTX_use_PrivateKey_file (ctx : Z) (file : string)
| SSL_new (ctx : Z)
| SSL_set_tlsext_host_name (ssl : Z) (name : string)
| SSL_set1_host (ssl : Z) (name : string)
| SSL_set_fd (ssl fd : Z)
| SSL_connect (ssl : Z).

(** What a call answers: its return value, the [errno] it leaves behind
    (read by [SOCKET_ERROR_CODE] right after a failure), and the endpoint it
    writes to its out-parameters ([accept], [getsockname], [recvfrom],
    [getaddrinfo] followed by [inet_ntop]). *)
Record Reply : Type := mkReply {
  ret : Z;
  errno : Z;
  reply_ip : string;
  reply_port : Z
}.

Definition Trace : Type := list Call.

(** The environment answers a call knowing everything that happened before,
    so two occurrences of the same call may be answered differently. *)
Record OS : Type := mkOS {
  reply : Trace -> Call -> Reply;
  strerror : Z -> string;
  GetSSLError : Trace -> string
}.

(** Computations that make calls: a state monad over the trace. *)
Definition M (A : Type) : Type := Trace -> A * Trace.

Definition mret {A} (a : A) : M A := fun tr => (a, tr).

Definition mbind {A B} (m : M A) (k : A -> M B) : M B :=
  fun tr => let (a, tr') := m tr in k a tr'.

Declare Scope m_scope.
Delimit Scope m_scope with M.
Notation "x <- c ;; k" := (mbind c (fun x => k))
  (at level 61, c at next level, right associativity) : m_scope.
Notation "c ;;; k" := (mbind c (fun _ => k))
  (at level 61, right associativity) : m_scope.
Local Open Scope m_scope.

Definition call (os : OS) (c : Call) : M Reply :=
  fun tr => (reply os tr c, (tr ++ [c])%list).

(** The current text of the OpenSSL error queue. *)
Definition ssl_error_text (os : OS) : M string :=
  fun tr => (GetSSLError os tr, tr).

(** Values of the platform constants on Linux. *)
Module Sys.
Definition ETIMEDOUT : Z := 110.
Definition ECONNRESET : Z := 104.
Definition ENOTCONN : Z := 107.
Definition EPIPE : Z := 32.
Definition EADDRINUSE : Z := 98.
Definition EADDRNOTAVAIL : Z := 99.
Definition MSG_NOSIGNAL : Z := 16384.
Definition SHUT_RD : Z := 0.
Definition SHUT_WR : Z := 1.
Definition SOCK_STREAM : Z := 1.
Definition SOCK_DGRAM : Z := 2.
Definition INVALID_SOCKET : Z := -1.
Definition SSL_ERROR_WANT_READ : Z := 2.
Definition SSL_ERROR_WANT_WRITE : Z := 3.
Definition SSL_VERIFY_NONE : Z := 0.
Definition SSL_VERIFY_PEER : Z := 1.
(** [std::chrono::system_clock::time_point::max()], in clock ticks. *)
Definition time_point_max : Z := 9223372036854775807.
End Sys.

(* ------------------------------------------------------------------ *)
(** ** TCP transport ([os.cpp]) *)

Module TCP.

Section WithOS.
Variable os : OS.

(** [socketErrorToError] of [os.cpp] (the non-Windows branch). *)
Definition socketErrorToError (err_code : Z) : Error :=
  if err_code =? Sys.ETIMEDOUT then ErrTimeout
  else if (err_code =? Sys.ECONNRESET) || (err_code =? Sys.ENOTCONN)
          || (err_code =? Sys.EPIPE) then ErrClosed
  else if err_code =? Sys.EADDRINUSE then New "address already in use"
  else if err_code =? Sys.EADDRNOTAVAIL
       then New "cannot assign requested address"
  else New ("socket error: " ++ strerror os err_code).

(** [parseAddress]: [None] is the [false] return; on [true] the two
    out-parameters [host] and [port] are returned. *)
Definition parseAddress (address : string) : option (string * Z) :=
  match Str.rfind_char address ":"%char with
  | None => None
  | Some colon_pos =>
      let host := Str.substr address 0 colon_pos in
      let port_str := Str.substr_from address (colon_pos + 1) in
      let host := if Str.empty host then "0.0.0.0" else host in
      match Str.stoi port_str with
      | Some port =>
          if (port <? 0) || (port >? 65535) then None
          else Some (host, port)
      | None => None
      end
  end.

(** [class TCPAddr] *)
Record TCPAddr : Type := mkTCPAddr { ip : string; port : Z }.

Definition Network (a : TCPAddr) : string := "tcp".

Definition String (a : TCPAddr) : string :=
  ip a ++ ":" ++ Str.to_string (port a).

(** [class TCPConn]; a null [shared_ptr] is [None]. *)
Record TCPConn : Type := mkTCPConn {
  socket_fd_ : Z;
  local_addr_ : option TCPAddr;
  remote_addr_ : option TCPAddr;
  closed_ : bool;
  read_deadline_ : Z;
  write_deadline_ : Z
}.

(** The public constructor. *)
Definition new_TCPConn (socket_fd : Z) (local remote : option TCPAddr)
  : TCPConn :=
  mkTCPConn socket_fd local remote false
            Sys.time_point_max Sys.time_point_max.

Definition Read (c : TCPConn) (size : Z) : M (Result Z * TCPConn) :=
  if closed_ c then mret (mkResult 0 (Some ErrClosed), c)
  else
    r <- call os (sys_recv (socket_fd_ c) size) ;;
    let result := ret r in
    if result <? 0
    then mret (mkResult 0 (Some (socketErrorToError (errno r))), c)
    else if result =? 0
    then mret (mkResult 0 (Some ErrClosed), c)
    else mret (mkResult result None, c).

Definition Write (c : TCPConn) (buffer : string) : M (Result Z * TCPConn) :=
  if closed_ c then mret (mkResult 0 (Some ErrClosed), c)
  else
    r <- call os (sys_send (socket_fd_ c) buffer Sys.MSG_NOSIGNAL) ;;
    let result := ret r in
    if result <? 0
    then mret (mkResult 0 (Some (socketErrorToError (errno r))), c)
    else mret (mkResult result None, c).

Definition set_closed (c : TCPConn) (b : bool) : TCPConn :=
  mkTCPConn (socket_fd_ c) (local_addr_ c) (remote_addr_ c) b
            (read_deadline_ c) (write_deadline_ c).

Definition close (c : TCPConn) : M TCPConn :=
  if negb (closed_ c)
  then call os (sys_close (socket_fd_ c)) ;;; mret (set_closed c true)
  else mret c.

(** [~TCPConn]: run when the last owner of the object lets go of it. *)
Definition destroy (c : TCPConn) : M unit :=
  if negb (closed_ c) then close c ;;; mret tt else mret tt.

Definition LocalAddr (c : TCPConn) : option TCPAddr := local_addr_ c.

Definition SetReadDeadline (c : TCPConn) (deadline : Z)
  : M (ResultVoid * TCPConn) :=
  mret (ok_void,
        mkTCPConn (socket_fd_ c) (local_addr_ c) (remote_addr_ c)
                  (closed_ c) deadline (write_deadline_ c)).

Definition SetWriteDeadline (c : TCPConn) (deadline : Z)
  : M (ResultVoid * TCPConn) :=
  mret (ok_void,
        mkTCPConn (socket_fd_ c) (local_addr_ c) (remote_addr_ c)
                  (closed_ c) (read_deadline_ c) deadline).

Definition SetDeadline (c : TCPConn) (deadline : Z)
  : M (ResultVoid * TCPConn) :=
  mret (ok_void,
        mkTCPConn (socket_fd_ c) (local_addr_ c) (remote_addr_ c)
                  (closed_ c) deadline deadline).

Definition CloseRead (c : TCPConn) : M (ResultVoid * TCPConn) :=
  if closed_ c then mret (err_void ErrClosed, c)
  else
    r <- call os (sys_shutdown (socket_fd_ c) Sys.SHUT_RD) ;;
    if negb (ret r =? 0)
    then mret (err_void (socketErrorToError (errno r)), c)
    else mret (ok_void, c).

Definition CloseWrite (c : TCPConn) : M (ResultVoid * TCPConn) :=
  if closed_ c then mret (err_void ErrClosed, c)
  else
    r <- call os (sys_shutdown (socket_fd_ c) Sys.SHUT_WR) ;;
    if negb (ret r =? 0)
    then mret (err_void (socketErrorToError (errno r)), c)
    else mret (ok_void, c).

(** [class TCPListener] *)
Record TCPListener : Type := mkTCPListener {
  l_socket_fd_ : Z;
  l_local_addr_ : option TCPAddr;
  l_closed_ : bool
}.

Definition new_TCPListener (socket_fd : Z) (local_addr : option TCPAddr)
  : TCPListener :=
  mkTCPListener socket_fd local_addr false.

Definition Accept (l : TCPListener)
  : M (Result (option TCPConn) * TCPListener) :=
  if l_closed_ l then mret (mkResult None (Some ErrClosed), l)
  else
    r <- call os (sys_accept (l_socket_fd_ l)) ;;
    let client_socket := ret r in
    if client_socket =? Sys.INVALID_SOCKET
    then mret (mkResult None (Some (socketErrorToError (errno r))), l)
    else
      let remote_addr := mkTCPAddr (reply_ip r) (reply_port r) in
      let conn :=
        new_TCPConn client_socket (l_local_addr_ l) (Some remote_addr) in
      mret (mkResult (Some conn) None, l).

Definition Close (l : TCPListener) : M (ResultVoid * TCPListener) :=
  if l_closed_ l then mret (err_void ErrClosed, l)
  else
    call os (sys_close (l_socket_fd_ l)) ;;;
    mret (ok_void,
          mkTCPListener (l_socket_fd_ l) (l_local_addr_ l) true).


Definition allowed_network (network : string) : bool :=
  (String.eqb network "tcp" || String.eqb network "tcp4"
   || String.eqb network "tcp6")%bool.

Definition ResolveTCPAddr (network address : string)
  : M (Result (option TCPAddr)) :=
  if negb (allowed_network network)
  then mret (mkResult None
               (Some (New ("unsupported network type: " ++ network))))
  else
    match parseAddress address with
    | None => mret (mkResult None (Some ErrInvalidAddr))
    | Some (host, port) =>
        r <- call os (sys_getaddrinfo host Sys.SOCK_STREAM) ;;
        if negb (ret r =? 0)
        then mret (mkResult None
                     (Some (New ("cannot resolve address: " ++ host))))
        else
          let ip_str := reply_ip r in
          mret (mkResult (Some (mkTCPAddr ip_str port)) None)
    end.

(** [DialTCP]; [htons] and [inet_pton] only prepare the argument of
    [connect], which is recorded with the address it connects to. On the
    two paths that close the socket before reporting, [SOCKET_ERROR_CODE]
    is read after [close], hence from the answer of [close]. A successful
    [ResolveTCPAddr] never carries a null address; that case only makes
    the match total. *)
Definition DialTCP (network address : string)
  : M (Result (option TCPConn)) :=
  addr_result <- ResolveTCPAddr network address ;;
  match err addr_result, value addr_result with
  | Some e, _ => mret (mkResult None (Some e))
  | None, None => mret (mkResult None None)
  | None, Some remote_addr =>
      s <- call os (sys_socket Sys.SOCK_STREAM) ;;
      let sock := ret s in
      if sock =? Sys.INVALID_SOCKET
      then mret (mkResult None (Some (socketErrorToError (errno s))))
      else
        cn <- call os (sys_connect sock (ip remote_addr) (port remote_addr)) ;;
        if negb (ret cn =? 0)
        then
          cl <- call os (sys_close sock) ;;
          mret (mkResult None (Some (socketErrorToError (errno cl))))
        else
          g <- call os (sys_getsockname sock) ;;
          if negb (ret g =? 0)
          then
            cl <- call os (sys_close sock) ;;
            mret (mkResult None (Some (socketErrorToError (errno cl))))
          else
            let local_tcp_addr := mkTCPAddr (reply_ip g) (reply_port g) in
            mret (mkResult
                    (Some (new_TCPConn sock (Some local_tcp_addr)
                                       (Some remote_addr)))
                    None)
  end.

End WithOS.

End TCP.

(* ------------------------------------------------------------------ *)
(** ** UDP transport ([net.cpp]) *)

Module UDP.

Section WithOS.
Variable os : OS.

(** [socketErrorToError] of [net.cpp] (the non-Windows branch). *)
Definition socketErrorToError (err_code : Z) : Error :=
  if err_code =? Sys.ETIMEDOUT then ErrTimeout
  else if (err_code =? Sys.ECONNRESET) || (err_code =? Sys.ENOTCONN)
       then ErrClosed
  else New ("socket error: " ++ strerror os err_code).

Definition parseAddress (address : string) : option (string * Z) :=
  match Str.rfind_char address ":"%char with
  | None => None
  | Some colon_pos =>
      let host := Str.substr address 0 colon_pos in
      let port_str := Str.substr_from address (colon_pos + 1) in
      let host := if Str.empty host then "0.0.0.0" else host in
      match Str.stoi port_str with
      | Some port =>
          if (port <? 0) || (port >? 65535) then None
          else Some (host, port)
      | None => None
      end
  end.

(** [class UDPAddr] *)
Record UDPAddr : Type := mkUDPAddr { ip : string; port : Z }.

Definition Network (a : UDPAddr) : string := "udp".

Definition String (a : UDPAddr) : string :=
  ip a ++ ":" ++ Str.to_string (port a).

(** A [shared_ptr<Addr>] points to an address of one of the two concrete
    classes. *)
Inductive Addr : Type :=
| AddrTCP (a : TCP.TCPAddr)
| AddrUDP (a : UDPAddr).

(** [std::dynamic_pointer_cast<UDPAddr>]; a null pointer is [None]. *)
Definition cast_UDPAddr (addr : option Addr) : option UDPAddr :=
  match addr with
  | Some (AddrUDP a) => Some a
  | _ => None
  end.

(** [class UDPConn] *)
Record UDPConn : Type := mkUDPConn {
  socket_fd_ : Z;
  local_addr_ : option UDPAddr;
  closed_ : bool;
  read_deadline_ : Z;
  write_deadline_ : Z
}.

Definition new_UDPConn (socket_fd : Z) (local_addr : option UDPAddr)
  : UDPConn :=
  mkUDPConn socket_fd local_addr false
            Sys.time_point_max Sys.time_point_max.

(** [ReadFrom]: the second component is the value of the reference
    parameter [addr] after the call, given its value before. *)
Definition ReadFrom (c : UDPConn) (size : Z) (addr : option Addr)
  : M (Result Z * option Addr * UDPConn) :=
  if closed_ c then mret (mkResult 0 (Some ErrClosed), addr, c)
  else
    r <- call os (sys_recvfrom (socket_fd_ c) size) ;;
    let result := ret r in
    if result <? 0
    then mret (mkResult 0 (Some (socketErrorToError (errno r))), addr, c)
    else
      mret (mkResult result None,
            Some (AddrUDP (mkUDPAddr (reply_ip r) (reply_port r))), c).

Definition WriteToUDP (c : UDPConn) (buffer : string) (addr : UDPAddr)
  : M (Result Z * UDPConn) :=
  if closed_ c then mret (mkResult 0 (Some ErrClosed), c)
  else
    r <- call os (sys_sendto (socket_fd_ c) buffer (ip addr) (port addr)) ;;
    let result := ret r in
    if result <? 0
    then mret (mkResult 0 (Some (socketErrorToError (errno r))), c)
    else mret (mkResult result None, c).

Definition WriteTo (c : UDPConn) (buffer : string) (addr : option Addr)
  : M (Result Z * UDPConn) :=
  if closed_ c then mret (mkResult 0 (Some ErrClosed), c)
  else
    match cast_UDPAddr addr with
    | None => mret (mkResult 0 (Some (New "address must be UDPAddr")), c)
    | Some udp_addr => WriteToUDP c buffer udp_addr
    end.

Definition LocalAddr (c : UDPConn) : option UDPAddr := local_addr_ c.

Definition SetReadDeadline (c : UDPConn) (deadline : Z)
  : M (ResultVoid * UDPConn) :=
  mret (ok_void,
        mkUDPConn (socket_fd_ c) (local_addr_ c) (closed_ c)
                  deadline (write_deadline_ c)).

Definition SetWriteDeadline (c : UDPConn) (deadline : Z)
  : M (ResultVoid * UDPConn) :=
  mret (ok_void,
        mkUDPConn (socket_fd_ c) (local_addr_ c) (closed_ c)
                  (read_deadline_ c) deadline).

Definition SetDeadline (c : UDPConn) (deadline : Z)
  : M (ResultVoid * UDPConn) :=
  mret (ok_void,
        mkUDPConn (socket_fd_ c) (local_addr_ c) (closed_ c)
                  deadline deadline).

Definition close (c : UDPConn) : M UDPConn :=
  if negb (closed_ c)
  then
    call os (sys_close (socket_fd_ c)) ;;;
    mret (mkUDPConn (socket_fd_ c) (local_addr_ c) true
                    (read_deadline_ c) (write_deadline_ c))
  else mret c.

Definition Read (c : UDPConn) (size : Z) : M (Result Z * UDPConn) :=
  if closed_ c then mret (mkResult 0 (Some ErrClosed), c)
  else
    r <- call os (sys_recv (socket_fd_ c) size) ;;
    let result := ret r in
    if result <? 0
    then mret (mkResult 0 (Some (socketErrorToError (errno r))), c)
    else mret (mkResult result None, c).

Definition Write (c : UDPConn) (buffer : string) : M (Result Z * UDPConn) :=
  if closed_ c then mret (mkResult 0 (Some ErrClosed), c)
  else
    r <- call os (sys_send (socket_fd_ c) buffer 0) ;;
    let result := ret r in
    if result <? 0
    then mret (mkResult 0 (Some (socketErrorToError (errno r))), c)
    else mret (mkResult result None, c).

(** [ReadFromUDP]: the typed out-parameter is assigned only on success. *)
Definition ReadFromUDP (c : UDPConn) (size : Z) (addr : option UDPAddr)
  : M (Result Z * option UDPAddr * UDPConn) :=
  x <- ReadFrom c size None ;;
  let '(result, base_addr, c') := x in
  if Ok result
  then mret (result, cast_UDPAddr base_addr, c')
  else mret (result, addr, c').

Definition allowed_network (network : string) : bool :=
  (String.eqb network "udp" || String.eqb network "udp4"
   || String.eqb network "udp6")%bool.

Definition ResolveUDPAddr (network address : string)
  : M (Result (option UDPAddr)) :=
  if negb (allowed_network network)
  then mret (mkResult None
               (Some (New ("unsupported network type: " ++ network))))
  else
    match parseAddress address with
    | None => mret (mkResult None (Some ErrInvalidAddr))
    | Some (host, port) =>
        r <- call os (sys_getaddrinfo host Sys.SOCK_DGRAM) ;;
        if negb (ret r =? 0)
        then mret (mkResult None
                     (Some (New ("cannot resolve address: " ++ host))))
        else
          let ip_str := reply_ip r in
          mret (mkResult (Some (mkUDPAddr ip_str port)) None)
    end.

End WithOS.

End UDP.

(* ------------------------------------------------------------------ *)
(** ** TLS transport ([tls.cpp]) *)

Module TLS.

Import TCP.

(** [static_cast<int>] of a [size_t]. *)
Definition to_int (z : Z) : Z := (z + 2147483648) mod 4294967296 - 2147483648.

(** [struct TLSConfig] *)
Record TLSConfig : Type := mkTLSConfig {
  cert_file : string;
  key_file : string;
  ca_file : string;
  insecure_skip_verify : bool
}.

(** [class TLSConn : public TCPConn]: the fields of the base class and the
    two OpenSSL handles; a null handle is [None]. *)
Record TLSConn : Type := mkTLSConn {
  base : TCPConn;
  ssl_ : option Z;
  ctx_ : option Z
}.

(** [class TLSListener : public TCPListener] *)
Record TLSListener : Type := mkTLSListener {
  l_base : TCPListener;
  l_ctx_ : option Z
}.

Section WithOS.
Variable os : OS.

Definition want_read_or_write (e : Z) : bool :=
  (e =? Sys.SSL_ERROR_WANT_READ) || (e =? Sys.SSL_ERROR_WANT_WRITE).

Definition Read (c : TLSConn) (count : Z) : M (Result Z * TLSConn) :=
  match ssl_ c with
  | None => mret (mkResult 0 (Some (New "TLS connection closed")), c)
  | Some ssl =>
      r <- call os (SSL_read ssl (to_int count)) ;;
      let n := ret r in
      if n >? 0 then mret (mkResult n None, c)
      else if n =? 0 then mret (mkResult 0 None, c)
      else
        e <- call os (SSL_get_error ssl n) ;;
        if want_read_or_write (ret e)
        then mret (mkResult 0 None, c)
        else
          txt <- ssl_error_text os ;;
          mret (mkResult 0 (Some (New ("SSL_read failed: " ++ txt))), c)
  end.

Definition Write (c : TLSConn) (buffer : string) : M (Result Z * TLSConn) :=
  match ssl_ c with
  | None => mret (mkResult 0 (Some (New "TLS connection closed")), c)
  | Some ssl =>
      r <- call os
             (SSL_write ssl buffer
                        (to_int (Z.of_nat (String.length buffer)))) ;;
      let n := ret r in
      if n >? 0 then mret (mkResult n None, c)
      else
        e <- call os (SSL_get_error ssl n) ;;
        if want_read_or_write (ret e)
        then mret (mkResult 0 (Some (New "SSL_write would block")), c)
        else
          txt <- ssl_error_text os ;;
          mret (mkResult 0 (Some (New ("SSL_write failed: " ++ txt))), c)
  end.

Definition close (c : TLSConn) : M TLSConn :=
  match ssl_ c with
  | Some ssl =>
      call os (SSL_shutdown ssl) ;;;
      call os (SSL_free ssl) ;;;
      b <- TCP.close os (base c) ;;
      mret (mkTLSConn b None (ctx_ c))
  | None =>
      b <- TCP.close os (base c) ;;
      mret (mkTLSConn b (ssl_ c) (ctx_ c))
  end.

(** Modelled from the spec: the protected constructor [TCPConn(int fd)]
    and [TCPConn::ReleaseFD()] are declared or used by the sources but
    defined in no file at hand. The constructor stores the handle of an
    open connection without addresses; [ReleaseFD] is the "explicit,
    single-use release operation" after which "the original owner's
    destructor does not also close the handle" (the handle is replaced by
    a sentinel and the object counts as closed). *)
Definition TCPConn_of_fd (fd : Z) : TCPConn := new_TCPConn fd None None.

Definition ReleaseFD (c : TCPConn) : TCPConn :=
  mkTCPConn Sys.INVALID_SOCKET (local_addr_ c) (remote_addr_ c) true
            (read_deadline_ c) (write_deadline_ c).

Definition new_TLSConn (fd ssl ctx : Z) : TLSConn :=
  mkTLSConn (TCPConn_of_fd fd)
            (if ssl =? 0 then None else Some ssl)
            (if ctx =? 0 then None else Some ctx).

(** [LoadSystemCACerts] (the non-Windows branch). *)
Definition LoadSystemCACerts (ctx : Z) : M bool :=
  r <- call os (SSL_CTX_set_default_verify_paths ctx) ;;
  mret (ret r =? 1).

(** An error return of [DialTLS] after the TCP connection exists: the
    connection is closed, the message is built (reading the OpenSSL error
    queue when the message needs it), and the connection object dies. *)
Definition fail_with (tcp_conn : TCPConn) (prefix : string)
  : M (Result (option TLSConn)) :=
  c' <- TCP.close os tcp_conn ;;
  txt <- ssl_error_text os ;;
  TCP.destroy os c' ;;;
  mret (mkResult None (Some (New (prefix ++ txt)))).

(** The part of [DialTLS] that configures the context from a non-null
    [config]; [Some e] is an early error return (before the connection is
    closed), [None] lets [DialTLS] go on. *)
Definition configure (ctx : Z) (config : option TLSConfig)
  : M (option string) :=
  match config with
  | Some cfg =>
      ca <-
        (if insecure_skip_verify cfg
         then
           call os (SSL_CTX_set_verify ctx Sys.SSL_VERIFY_NONE) ;;;
           mret None
         else
           call os (SSL_CTX_set_verify ctx Sys.SSL_VERIFY_PEER) ;;;
           if negb (Str.empty (ca_file cfg))
           then
             r <- call os (SSL_CTX_load_verify_locations ctx (ca_file cfg)) ;;
             if ret r =? 0
             then mret (Some "Failed to load CA file: ")
             else mret None
           else
             LoadSystemCACerts ctx ;;; mret None) ;;
      match ca with
      | Some e => mret (Some e)
      | None =>
          if negb (Str.empty (cert_file cfg))
             && negb (Str.empty (key_file cfg))
          then
            r <- call os (SSL_CTX_use_certificate_file ctx (cert_file cfg)) ;;
            if ret r <=? 0
            then mret (Some "Failed to load certificate: ")
            else
              k <- call os (SSL_CTX_use_PrivateKey_file ctx (key_file cfg)) ;;
              if ret k <=? 0
              then mret (Some "Failed to load private key: ")
              else mret None
          else mret None
      end
  | None =>
      call os (SSL_CTX_set_verify ctx Sys.SSL_VERIFY_PEER) ;;;
      LoadSystemCACerts ctx ;;;
      mret None
  end.

(** [DialTLS]. The one-time [InitializeSSL] of the process is not part of
    the trace. *)
Definition DialTLS (network address : string) (config : option TLSConfig)
  : M (Result (option TLSConn)) :=
  tcp_result <- DialTCP os network address ;;
  match err tcp_result, value tcp_result with
  | Some e, _ => mret (mkResult None (Some e))
  | None, None => mret (mkResult None None)
  | None, Some tcp_conn =>
      cx <- call os SSL_CTX_new ;;
      let ctx := ret cx in
      if ctx =? 0 then fail_with tcp_conn "SSL_CTX_new failed: "
      else
        cfg_err <- configure ctx config ;;
        match cfg_err with
        | Some prefix =>
            call os (SSL_CTX_free ctx) ;;;
            fail_with tcp_conn prefix
        | None =>
            sn <- call os (SSL_new ctx) ;;
            let ssl := ret sn in
            if ssl =? 0
            then
              call os (SSL_CTX_free ctx) ;;;
              fail_with tcp_conn "SSL_new failed: "
            else
              let hostname :=
                match Str.find_char address ":"%char with
                | Some colon_pos => Str.substr address 0 colon_pos
                | None => address
                end in
              call os (SSL_set_tlsext_host_name ssl hostname) ;;;
              (match config with
               | Some cfg =>
                   if negb (insecure_skip_verify cfg)
                   then call os (SSL_set1_host ssl hostname) ;;; mret tt
                   else mret tt
               | None => call os (SSL_set1_host ssl hostname) ;;; mret tt
               end) ;;;
              let fd := socket_fd_ tcp_conn in
              call os (SSL_set_fd ssl fd) ;;;
              cn <- call os (SSL_connect ssl) ;;
              if ret cn <=? 0
              then
                call os (SSL_free ssl) ;;;
                call os (SSL_CTX_free ctx) ;;;
                fail_with tcp_conn "SSL_connect failed: "
              else
                TCP.destroy os (ReleaseFD tcp_conn) ;;;
                mret (mkResult (Some (new_TLSConn fd ssl ctx)) None)
        end
  end.

(** [TLSListener::Close] hands over to [TCPListener::Close]. *)
Definition Close (l : TLSListener)
  : M (ResultVoid * TLSListener) :=
  x <- TCP.Close os (l_base l) ;;
  mret (fst x, mkTLSListener (snd x) (l_ctx_ l)).

End WithOS.

End TLS.

(* ------------------------------------------------------------------ *)
(** ** [std::map<std::string, V>]: bindings kept in key order *)

Module StdMap.

Definition t (V : Type) : Type := list (string * V).

(** [m.find(k)], with [end()] as [None]. *)
Fixpoint find {V} (k : string) (m : t V) : option V :=
  match m with
  | [] => None
  | (k', v) :: m' => if String.eqb k k' then Some v else find k m'
  end.

(** [m[k] = v]: insert in key order, or overwrite. *)
Fixpoint assign {V} (k : string) (v : V) (m : t V) : t V :=
  match m with
  | [] => [(k, v)]
  | (k', v') :: m' =>
      match String.compare k k' with
      | Lt => (k, v) :: m
      | Eq => (k, v) :: m'
      | Gt => (k', v') :: assign k v m'
      end
  end.

Definition keys {V} (m : t V) : list string := map fst m.

End StdMap.

(* ------------------------------------------------------------------ *)
(** ** HTTP layer *)

Module HTTP.

Definition CR : ascii := ascii_of_nat 13.
Definition LF : ascii := ascii_of_nat 10.
Definition CRLF : string := String CR (String LF EmptyString).

Definition StatusOK : Z := 200.
Definition StatusCreated : Z := 201.
Definition StatusBadRequest : Z := 400.
Definition StatusNotFound : Z := 404.
Definition StatusInternalServerError : Z := 500.

(** [class Request] and [class Response] *)
Record Request : Type := mkRequest {
  method : string;
  url : string;
  proto : string;
  header : StdMap.t string;
  body : string;
  remote_addr : string
}.

Record Response : Type := mkResponse {
  resp_proto : string;
  status_code : Z;
  status : string;
  resp_header : StdMap.t string;
  resp_body : string
}.

(** [Response()] *)
Definition new_Response : Response := mkResponse "" 0 "" [] "".

(** A [std::shared_ptr<TCPConn>] points to a plain connection or to a
    [TLSConn]; [Write] and [close] are virtual. *)
Inductive Conn : Type :=
| PlainConn (c : TCP.TCPConn)
| SecureConn (c : TLS.TLSConn).

(** [class ResponseWriterImpl] *)
Record ResponseWriterImpl : Type := mkResponseWriterImpl {
  conn_ : Conn;
  status_code_ : Z;
  headers_written_ : bool;
  headers_ : StdMap.t string
}.

Definition new_ResponseWriterImpl (conn : Conn) : ResponseWriterImpl :=
  mkResponseWriterImpl conn 200 false [].

(** What [ServeHTTP] does to its caller: it returns, or the call of an
    empty [std::function] throws. *)
Inductive Outcome : Type :=
| Returned (w : ResponseWriterImpl)
| bad_function_call.

(** [HandlerFunc]: a [std::function], empty ([None]) or holding a
    callable that works on the writer it is given. *)
Definition HandlerFunc : Type :=
  option (ResponseWriterImpl -> Request -> M ResponseWriterImpl).

Definition invoke (h : HandlerFunc) (w : ResponseWriterImpl) (req : Request)
  : M Outcome :=
  match h with
  | Some f => fun tr => let (w', tr') := f w req tr in (Returned w', tr')
  | None => fun tr => (bad_function_call, tr)
  end.

(** [class ServeMux] *)
Record ServeMux : Type := mkServeMux { handlers_ : StdMap.t HandlerFunc }.

Definition new_ServeMux : ServeMux := mkServeMux [].

Definition HandleFunc (mux : ServeMux) (pattern : string)
           (handler : HandlerFunc) : ServeMux :=
  mkServeMux (StdMap.assign pattern handler (handlers_ mux)).

(** The text after the status code in the status line. *)
Definition status_text (statusCode : Z) : string :=
  if statusCode =? 200 then "OK"
  else if statusCode =? 201 then "Created"
  else if statusCode =? 400 then "Bad Request"
  else if statusCode =? 404 then "Not Found"
  else if statusCode =? 500 then "Internal Server Error"
  else "Unknown".

Definition header_lines (headers : StdMap.t string) : string :=
  fold_left (fun acc kv => acc ++ fst kv ++ ": " ++ snd kv ++ CRLF)
            headers "".

(** The bytes [WriteHeader] builds in its [ostringstream]. *)
Definition response_head (statusCode : Z) (headers : StdMap.t string)
  : string :=
  "HTTP/1.1 " ++ Str.to_string statusCode ++ " " ++ status_text statusCode
  ++ CRLF ++ header_lines headers ++ CRLF.

Section WithOS.
Variable os : OS.

Definition conn_Write (c : Conn) (data : string) : M (Result Z * Conn) :=
  match c with
  | PlainConn t =>
      x <- TCP.Write os t data ;; mret (fst x, PlainConn (snd x))
  | SecureConn t =>
      x <- TLS.Write os t data ;; mret (fst x, SecureConn (snd x))
  end.

(** [Header()] hands out the header map itself; [with_Header] is the
    writer after the caller changed the map through that reference. *)
Definition Header (w : ResponseWriterImpl) : StdMap.t string := headers_ w.

Definition with_Header (w : ResponseWriterImpl) (headers : StdMap.t string)
  : ResponseWriterImpl :=
  mkResponseWriterImpl (conn_ w) (status_code_ w) (headers_written_ w)
                       headers.

Definition WriteHeader (w : ResponseWriterImpl) (statusCode : Z)
  : M ResponseWriterImpl :=
  if headers_written_ w then mret w
  else
    let response_str := response_head statusCode (headers_ w) in
    x <- conn_Write (conn_ w) response_str ;;
    mret (mkResponseWriterImpl (snd x) statusCode true (headers_ w)).

Definition Write (w : ResponseWriterImpl) (data : string)
  : M (Result Z * ResponseWriterImpl) :=
  w1 <- (if negb (headers_written_ w)
         then WriteHeader w (status_code_ w)
         else mret w) ;;
  x <- conn_Write (conn_ w1) data ;;
  mret (fst x,
        mkResponseWriterImpl (snd x) (status_code_ w1)
                             (headers_written_ w1) (headers_ w1)).

Definition body_404 : string :=
  "404 page not found" ++ String LF EmptyString.

(** One turn of the loop of [ServeHTTP] over the registered patterns; the
    state is the pair of [longest_match] and [matched_handler]. *)
Definition prefix_step (req_url : string) (acc : string * HandlerFunc)
           (entry : string * HandlerFunc) : string * HandlerFunc :=
  let (longest_match, matched_handler) := acc in
  let (pattern, handler) := entry in
  if match Str.find req_url pattern with
     | Some O => true
     | _ => false
     end
     && (String.length longest_match <? String.length pattern)%nat
  then (pattern, handler)
  else (longest_match, matched_handler).

Definition ServeHTTP (mux : ServeMux) (w : ResponseWriterImpl)
           (req : Request) : M Outcome :=
  match StdMap.find (url req) (handlers_ mux) with
  | Some h => invoke h w req
  | None =>
      let (longest_match, matched_handler) :=
        fold_left (prefix_step (url req)) (handlers_ mux) ("", None) in
      if negb (Str.empty longest_match)
      then invoke matched_handler w req
      else
        w1 <- WriteHeader w StatusNotFound ;;
        x <- Write w1 body_404 ;;
        mret (Returned (snd x))
  end.

(** *** The client: [Get] and [Post]

    Both functions start with the same statements, which take the URL
    apart; they are transcribed once. *)

(** [address] and [path] from what follows the scheme. *)
Definition split_rest (rest : string) : string * string :=
  match Str.find_char rest "/"%char with
  | Some slash_pos =>
      (Str.substr rest 0 slash_pos, Str.substr_from rest slash_pos)
  | None => (rest, "/")
  end.

Definition starts_with (s pat : string) : bool :=
  match Str.find s pat with
  | Some O => true
  | _ => false
  end.

(** "Add default port if not specified". *)
Definition add_default_port (address : string) (default_port : Z) : string :=
  match Str.find_char address ":"%char with
  | None => address ++ ":" ++ Str.to_string default_port
  | Some _ => address
  end.

Record Target : Type := mkTarget {
  is_https : bool;
  address : string;
  path : string
}.

(** The URL handling of [Get] and [Post], up to and including the default
    port; [None] is the early error return. *)
Definition url_target (url : string) : option Target :=
  if starts_with url "https://"
  then
    let rest := Str.substr_from url 8 in
    let (address, path) := split_rest rest in
    Some (mkTarget true (add_default_port address 443) path)
  else if starts_with url "http://"
  then
    let rest := Str.substr_from url 7 in
    let (address, path) := split_rest rest in
    Some (mkTarget false (add_default_port address 80) path)
  else None.

Definition invalid_url : Error :=
  New "invalid URL: must start with http:// or https://".

(** "Connect (either TCP or TLS)". *)
Definition connect (t : Target) : M (Result (option Conn)) :=
  if is_https t
  then
    r <- TLS.DialTLS os "tcp" (address t)
           (Some (TLS.mkTLSConfig "" "" "" false)) ;;
    mret (mkResult (option_map SecureConn (value r)) (err r))
  else
    r <- TCP.DialTCP os "tcp" (address t) ;;
    mret (mkResult (option_map PlainConn (value r)) (err r)).

(** What [Get] and [Post] do once connected (send the request, read the
    stream to its end, parse the response) is left as a parameter: the
    properties below concern what happens before. *)
Variable Get_exchange : Conn -> Target -> M (Result Response).
Variable Post_exchange :
  Conn -> Target -> string -> string -> M (Result Response).

Definition Get (url : string) : M (Result Response) :=
  match url_target url with
  | None => mret (mkResult new_Response (Some invalid_url))
  | Some t =>
      c <- connect t ;;
      match err c, value c with
      | Some e, _ => mret (mkResult new_Response (Some e))
      | None, Some conn => Get_exchange conn t
      | None, None => mret (mkResult new_Response None)
      end
  end.

Definition Post (url content_type body : string) : M (Result Response) :=
  match url_target url with
  | None => mret (mkResult new_Response (Some invalid_url))
  | Some t =>
      c <- connect t ;;
      match err c, value c with
      | Some e, _ => mret (mkResult new_Response (Some e))
      | None, Some conn => Post_exchange conn t content_type body
      | None, None => mret (mkResult new_Response None)
      end
  end.

End WithOS.

End HTTP.

(* ------------------------------------------------------------------ *)
(** ** Vocabulary of the properties *)

Unset Implicit Arguments.

(** The handles released by the calls of a trace, in order. *)
Fixpoint released (tr : Trace) : list Z :=
  match tr with
  | [] => []
  | sys_close fd :: tr' => fd :: released tr'
  | _ :: tr' => released tr'
  end.

(** Concrete environments and objects used to instantiate the theorems. *)
Module Sample.

Definition plain_reply (r : Z) : Reply := mkReply r 0 "" 0.

(** Every call answers [r]; sends accept the whole payload. *)
Definition os_const (r : Z) : OS :=
  mkOS (fun _ c =>
          match c with
          | sys_send _ d _ => plain_reply (Z.of_nat (String.length d))
          | _ => plain_reply r
          end)
       (fun _ => "error")
       (fun _ => "ssl error").

(** The peer has closed the stream: every receive answers 0. *)
Definition os_eof : OS := os_const 0.

(** Five bytes are waiting on every socket. *)
Definition os_data : OS := os_const 5.

(** Nothing can proceed without blocking: [SSL_read] and [SSL_write]
    answer -1 and [SSL_get_error] answers [SSL_ERROR_WANT_READ]. *)
Definition os_would_block : OS :=
  mkOS (fun _ c =>
          match c with
          | SSL_get_error _ _ => plain_reply Sys.SSL_ERROR_WANT_READ
          | _ => plain_reply (-1)
          end)
       (fun _ => "error")
       (fun _ => "ssl error").

(** A resolver that knows every host as 127.0.0.1; all other calls
    succeed with 0. *)
Definition os_localhost : OS :=
  mkOS (fun _ c =>
          match c with
          | sys_getaddrinfo _ _ => mkReply 0 0 "127.0.0.1" 0
          | _ => plain_reply 0
          end)
       (fun _ => "error")
       (fun _ => "ssl error").

(** A network and a TLS library where everything succeeds: the resolver
    knows every host, [socket] hands out descriptor 7, the OpenSSL
    constructors hand out non-null handles, and every other call
    answers 1, except [connect] and [getsockname], which answer 0. *)
Definition os_tls_ok : OS :=
  mkOS (fun _ c =>
          match c with
          | sys_getaddrinfo _ _ => mkReply 0 0 "93.184.216.34" 0
          | sys_socket _ => plain_reply 7
          | sys_connect _ _ _ => plain_reply 0
          | sys_getsockname _ => mkReply 0 0 "10.0.0.1" 40000
          | SSL_CTX_new => plain_reply 200
          | SSL_new _ => plain_reply 100
          | _ => plain_reply 1
          end)
       (fun _ => "error")
       (fun _ => "ssl error").

(** A client configuration with a certificate and no key. *)
Definition cert_only : TLS.TLSConfig :=
  TLS.mkTLSConfig "client.crt" "" "" false.

(** A client configuration with both. *)
Definition cert_and_key : TLS.TLSConfig :=
  TLS.mkTLSConfig "client.crt" "client.key" "" false.

Definition tcp_conn : TCP.TCPConn :=
  TCP.new_TCPConn 7
    (Some (TCP.mkTCPAddr "10.0.0.1" 40000))
    (Some (TCP.mkTCPAddr "10.0.0.2" 80)).

Definition tcp_conn_closed : TCP.TCPConn := TCP.set_closed tcp_conn true.

Definition tcp_listener : TCP.TCPListener :=
  TCP.new_TCPListener 3 (Some (TCP.mkTCPAddr "0.0.0.0" 8080)).

Definition udp_conn : UDP.UDPConn :=
  UDP.new_UDPConn 9 (Some (UDP.mkUDPAddr "0.0.0.0" 9090)).

Definition udp_conn_closed : UDP.UDPConn :=
  UDP.mkUDPConn 9 (Some (UDP.mkUDPAddr "0.0.0.0" 9090)) true
                Sys.time_point_max Sys.time_point_max.

Definition tls_conn : TLS.TLSConn := TLS.new_TLSConn 7 100 200.

End Sample.

(** The decimal rendering of a port is read back by [stoi] and holds no
    colon; checked on each port by computation. *)
Definition port_text_ok (p : Z) : bool :=
  match Str.stoi (Str.to_string p) with
  | Some q => q =? p
  | None => false
  end
  && match Str.rfind_char (Str.to_string p) ":"%char with
     | None => true
     | Some _ => false
     end.

(** [all_below bits base P] runs [P] on the [2 ^ bits] numbers from
    [base * 2 ^ bits] on. *)
Fixpoint all_below (bits : nat) (base : Z) (P : Z -> bool) : bool :=
  match bits with
  | O => P base
  | S b => all_below b (2 * base) P && all_below b (2 * base + 1) P
  end.

(** The family of a network name: ["tcp"] for ["tcp"], ["tcp4"], ["tcp6"],
    and likewise for UDP. *)
Definition network_family (network : string) : string :=
  Str.substr network 0 3.

(** [c] occurs in [s]. *)
Fixpoint contains_char (c : ascii) (s : string) : bool :=
  match s with
  | EmptyString => false
  | String b s' => Ascii.eqb b c || contains_char c s'
  end.

(** The payloads handed to the socket or to the TLS session, in order:
    what a writer has put on the wire. *)
Fixpoint emitted (tr : Trace) : list string :=
  match tr with
  | [] => []
  | sys_send _ d _ :: tr' => d :: emitted tr'
  | SSL_write _ d _ :: tr' => d :: emitted tr'
  | _ :: tr' => emitted tr'
  end.

(** A connection a [Write] reaches: an open socket, or a TLS connection
    that still has its session. *)
Definition live (c : HTTP.Conn) : bool :=
  match c with
  | HTTP.PlainConn t => negb (TCP.closed_ t)
  | HTTP.SecureConn t =>
      match TLS.ssl_ t with Some _ => true | None => false end
  end.

(** What a handler can do with a [ResponseWriter]: change the header map
    through [Header()], call [WriteHeader], call [Write]. *)
Inductive WriterOp : Type :=
| op_Header (headers : StdMap.t string)
| op_WriteHeader (statusCode : Z)
| op_Write (data : string).

Definition run_op (os : OS) (w : HTTP.ResponseWriterImpl) (op : WriterOp)
  : M HTTP.ResponseWriterImpl :=
  match op with
  | op_Header headers => mret (HTTP.with_Header w headers)
  | op_WriteHeader statusCode => HTTP.WriteHeader os w statusCode
  | op_Write data => mbind (HTTP.Write os w data) (fun x => mret (snd x))
  end.

Fixpoint run_ops (os : OS) (w : HTTP.ResponseWriterImpl) (ops : list WriterOp)
  : M HTTP.ResponseWriterImpl :=
  match ops with
  | [] => mret w
  | op :: ops' => mbind (run_op os w op) (fun w' => run_ops os w' ops')
  end.

(** The response as the specification words it: the first [WriteHeader]
    puts one status line with the headers set at that moment, later ones put
    nothing; a [Write] that comes before any [WriteHeader] first puts the
    status line of code 200, and every [Write] puts its data. [flushed]
    tells whether the status line is out already. *)
Fixpoint spec_output (flushed : bool) (headers : StdMap.t string)
         (ops : list WriterOp) : list string :=
  match ops with
  | [] => []
  | op_Header headers' :: ops' => spec_output flushed headers' ops'
  | op_WriteHeader statusCode :: ops' =>
      if flushed then spec_output true headers ops'
      else HTTP.response_head statusCode headers
           :: spec_output true headers ops'
  | op_Write data :: ops' =>
      if flushed then data :: spec_output true headers ops'
      else HTTP.response_head 200 headers
           :: data :: spec_output true headers ops'
  end.

(** The data of the [Write] operations. *)
Fixpoint bodies (ops : list WriterOp) : list string :=
  match ops with
  | [] => []
  | op_Write data :: ops' => data :: bodies ops'
  | _ :: ops' => bodies ops'
  end.

(** The writer's invariant: as long as the status line is not out, the
    stored status code is the 200 of the constructor. *)
Definition writer_inv (w : HTTP.ResponseWriterImpl) : Prop :=
  HTTP.headers_written_ w = false -> HTTP.status_code_ w = 200.

Module SampleHTTP.

Definition plain : HTTP.Conn := HTTP.PlainConn Sample.tcp_conn.

Definition no_exchange_get
  : HTTP.Conn -> HTTP.Target -> M (Result HTTP.Response) :=
  fun _ _ => mret (mkResult HTTP.new_Response None).

Definition no_exchange_post
  : HTTP.Conn -> HTTP.Target -> string -> string
    -> M (Result HTTP.Response) :=
  fun _ _ _ _ => mret (mkResult HTTP.new_Response None).

End SampleHTTP.

(** The order of [std::map<std::string, V>]: [operator<] on strings. *)
Definition key_lt (k1 k2 : string) : Prop := String.compare k1 k2 = Lt.

(** A map as [std::map] keeps it: keys strictly increasing. *)
Definition map_wf {V : Type} (m : StdMap.t V) : Prop :=
  Sorted key_lt (StdMap.keys m).

Definition mux_wf (mux : HTTP.ServeMux) : Prop :=
  map_wf (HTTP.handlers_ mux).

(** The muxes a program can build: a fresh one, then registrations. *)
Inductive built : HTTP.ServeMux -> Prop :=
| built_new : built HTTP.new_ServeMux
| built_HandleFunc mux pattern handler :
    built mux -> built (HTTP.HandleFunc mux pattern handler).

(** What [ServeHTTP] does when nothing matches. *)
Definition not_found (os : OS) (w : HTTP.ResponseWriterImpl)
  : M HTTP.Outcome :=
  mbind (HTTP.WriteHeader os w HTTP.StatusNotFound) (fun w1 =>
  mbind (HTTP.Write os w1 HTTP.body_404) (fun x =>
  mret (HTTP.Returned (snd x)))).

Module SampleMux.

(** A handler that writes [text]. *)
Definition say (text : string) : HTTP.HandlerFunc :=
  Some (fun w _ =>
          mbind (HTTP.Write Sample.os_eof w text) (fun x => mret (snd x))).

Definition request (url : string) : HTTP.Request :=
  HTTP.mkRequest "GET" url "HTTP/1.1" [] "" "10.0.0.2:40000".

(** "/a" and "/a/b" registered. *)
Definition mux_a_ab : HTTP.ServeMux :=
  HTTP.HandleFunc (HTTP.HandleFunc HTTP.new_ServeMux "/a" (say "A"))
                  "/a/b" (say "AB").

(** Only the empty pattern registered. *)
Definition mux_empty_pattern : HTTP.ServeMux :=
  HTTP.HandleFunc HTTP.new_ServeMux "" (say "ROOT").

Definition writer : HTTP.ResponseWriterImpl :=
  HTTP.new_ResponseWriterImpl SampleHTTP.plain.

End SampleMux.

(** A configuration without client identity: the two file names erased. *)
Definition without_identity (cfg : TLS.TLSConfig) : TLS.TLSConfig :=
  TLS.mkTLSConfig "" "" (TLS.ca_file cfg) (TLS.insecure_skip_verify cfg).

(** The two calls that load a client identity into a context. *)
Definition identity_call (c : Call) : bool :=
  match c with
  | SSL_CTX_use_certificate_file _ _ | SSL_CTX_use_PrivateKey_file _ _ => true
  | _ => false
  end.

Definition no_identity (d : Trace) : bool :=
  forallb (fun c => negb (identity_call c)) d.

(* ------------------------------------------------------------------ *)
(** ** Accounting of handles over a trace

    The trace holds the calls, the environment holds their answers: the
    handles a stretch of calls [d] has obtained are read off the answers the
    environment gave along the way, [hist] being what happened before. *)

(** The sockets handed out by [socket] and [accept] during [d]. *)
Fixpoint opened (os : OS) (hist d : Trace) : list Z :=
  match d with
  | [] => []
  | c :: d' =>
      let rest := opened os (hist ++ [c])%list d' in
      match c with
      | sys_socket _ | sys_accept _ =>
          let fd := ret (reply os hist c) in
          if fd =? Sys.INVALID_SOCKET then rest else fd :: rest
      | _ => rest
      end
  end.

(** The TLS contexts handed out by [SSL_CTX_new] during [d], and the ones
    given back. *)
Fixpoint ctx_created (os : OS) (hist d : Trace) : list Z :=
  match d with
  | [] => []
  | c :: d' =>
      let rest := ctx_created os (hist ++ [c])%list d' in
      match c with
      | SSL_CTX_new =>
          let ctx := ret (reply os hist c) in
          if ctx =? 0 then rest else ctx :: rest
      | _ => rest
      end
  end.

Fixpoint ctx_freed (d : Trace) : list Z :=
  match d with
  | [] => []
  | SSL_CTX_free ctx :: d' => ctx :: ctx_freed d'
  | _ :: d' => ctx_freed d'
  end.

(** The TLS sessions handed out by [SSL_new] during [d], and the ones given
    back. *)
Fixpoint ssl_created (os : OS) (hist d : Trace) : list Z :=
  match d with
  | [] => []
  | c :: d' =>
      let rest := ssl_created os (hist ++ [c])%list d' in
      match c with
      | SSL_new _ =>
          let ssl := ret (reply os hist c) in
          if ssl =? 0 then rest else ssl :: rest
      | _ => rest
      end
  end.

Fixpoint ssl_freed (d : Trace) : list Z :=
  match d with
  | [] => []
  | SSL_free ssl :: d' => ssl :: ssl_freed d'
  | _ :: d' => ssl_freed d'
  end.

(** Calls that neither hand out nor give back a handle. *)
Definition keeps_handles (c : Call) : bool :=
  match c with
  | sys_socket _ | sys_accept _ | sys_close _
  | SSL_CTX_new | SSL_CTX_free _ | SSL_new _ | SSL_free _ => false
  | _ => true
  end.

(** Calls of the socket layer. *)
Definition socket_call (c : Call) : bool :=
  match c with
  | sys_recv _ _ | sys_send _ _ _ | sys_close _ | sys_shutdown _ _
  | sys_recvfrom _ _ | sys_sendto _ _ _ _ | sys_accept _
  | sys_getaddrinfo _ _ | sys_socket _ | sys_connect _ _ _
  | sys_getsockname _ => true
  | _ => false
  end.

(** The host name [DialTLS] announces and verifies: the address up to its
    first colon. *)
Definition tls_hostname (address : string) : string :=
  match Str.find_char address ":"%char with
  | Some colon_pos => Str.substr address 0 colon_pos
  | None => address
  end.

(** The calls before and after the first client handshake of a stretch. *)
Fixpoint before_handshake (d : Trace) : Trace :=
  match d with
  | [] => []
  | SSL_connect _ :: _ => []
  | c :: d' => c :: before_handshake d'
  end.

Fixpoint after_handshake (d : Trace) : Trace :=
  match d with
  | [] => []
  | SSL_connect _ :: d' => d'
  | _ :: d' => after_handshake d'
  end.

(** The calls made before a handshake, by the configuration: [d1] is the
    stretch of calls before the handshake on session [ssl], [d] the whole
    stretch, [ctx] the context. Only the calls are described, not what
    they answered. *)
Definition trust_policy (config : option TLS.TLSConfig) (address : string)
           (ctx ssl : Z) (d1 d : Trace) : Prop :=
  let hostname := tls_hostname address in
  let verified :=
    In (SSL_CTX_set_verify ctx Sys.SSL_VERIFY_PEER) d1
    /\ In (SSL_set1_host ssl hostname) d1
    /\ forall x, ~ In (SSL_CTX_set_verify x Sys.SSL_VERIFY_NONE) d in
  let system_store :=
    In (SSL_CTX_set_default_verify_paths ctx) d1
    /\ forall x f, ~ In (SSL_CTX_load_verify_locations x f) d in
  In (SSL_new ctx) d1
  /\ In (SSL_set_tlsext_host_name ssl hostname) d1
  /\ match config with
     | None => verified /\ system_store
     | Some cfg =>
         if TLS.insecure_skip_verify cfg
         then
           In (SSL_CTX_set_verify ctx Sys.SSL_VERIFY_NONE) d1
           /\ (forall x h, ~ In (SSL_set1_host x h) d)
           /\ (forall x f, ~ In (SSL_CTX_load_verify_locations x f) d)
           /\ (forall x, ~ In (SSL_CTX_set_default_verify_paths x) d)
         else
           verified
           /\ if Str.empty (TLS.ca_file cfg)
              then system_store
              else
                In (SSL_CTX_load_verify_locations ctx (TLS.ca_file cfg)) d1
                /\ forall x, ~ In (SSL_CTX_set_default_verify_paths x) d
     end.
(** The calls of [DialTLS] whose result the code does not look at: naming
    the host (SNI), asking for the certificate to be checked against the
    host name, attaching the socket, and loading the system trust store. *)
Definition unchecked_call (c : Call) : bool :=
  match c with
  | SSL_set_tlsext_host_name _ _ | SSL_set1_host _ _ | SSL_set_fd _ _
  | SSL_CTX_set_default_verify_paths _ => true
  | _ => false
  end.

(** The environment [os] with the answers to these calls replaced by
    [ans]. *)
Definition answering (os : OS) (ans : Trace -> Call -> Reply) : OS :=
  mkOS (fun tr c => if unchecked_call c then ans tr c else reply os tr c)
       (strerror os) (GetSSLError os).
From Stdlib Require DecimalPos.

(* ------------------------------------------------------------------ *)
(** ** HTTP messages as text

    The helpers [trim] and [toLower], the header lookup, the request parser
    of the server, the response parser of the client and the request text
    the client sends. *)

Module HTTPText.

Import HTTP.

(** [str[i]]; the character past the end is the terminating zero. *)
Definition at_ (str : string) (i : nat) : ascii :=
  match String.get i str with
  | Some c => c
  | None => Ascii.zero
  end.

(** The first loop of [trim], [while (start < end && isspace(str[start]))
    ++start], by recursion on [end - start]. *)
Fixpoint trim_start (str : string) (gap start : nat) : nat :=
  match gap with
  | O => start
  | S gap' =>
      if Str.isspace (at_ str start)
      then trim_start str gap' (S start)
      else start
  end.

(** The second loop, [while (end > start && isspace(str[end - 1])) --end],
    by recursion on [end]. *)
Fixpoint trim_end (str : string) (start end_ : nat) : nat :=
  match end_ with
  | O => O
  | S e =>
      if (start <? end_)%nat && Str.isspace (at_ str e)
      then trim_end str start e
      else end_
  end.

Definition trim (str : string) : string :=
  let end_ := String.length str in
  let start := trim_start str end_ 0 in
  let end' := trim_end str start end_ in
  Str.substr str start (end' - start).

(** [::tolower] in the "C" locale. *)
Definition tolower (c : ascii) : ascii :=
  let n := nat_of_ascii c in
  if (Nat.leb 65 n && Nat.leb n 90)%bool then ascii_of_nat (n + 32) else c.

Fixpoint toLower (str : string) : string :=
  match str with
  | EmptyString => EmptyString
  | String c str' => String (tolower c) (toLower str')
  end.

(** [Request::Header] and [Response::Header] *)
Definition Request_Header (req : Request) (key : string) : string :=
  match StdMap.find (toLower key) (header req) with
  | Some v => v
  | None => ""
  end.

Definition Response_Header (resp : Response) (key : string) : string :=
  match StdMap.find (toLower key) (resp_header resp) with
  | Some v => v
  | None => ""
  end.

(** *** [std::istringstream]

    What is left to read, and whether the stream is still [good()]: neither
    [eofbit] nor [failbit] is set. Every extraction starts with a sentry
    that fails on a stream that is not good. *)
Record istringstream : Type := mkStream { buf : string; good : bool }.

Definition istringstream_of (s : string) : istringstream := mkStream s true.

Definition failed (st : istringstream) : istringstream :=
  mkStream (buf st) false.

(** The characters up to the first line feed, what follows it, and whether
    there was one. *)
Fixpoint read_line (s : string) : string * string * bool :=
  match s with
  | EmptyString => ("", "", false)
  | String c s' =>
      if Ascii.eqb c LF then ("", s', true)
      else
        let '(line, rest, found) := read_line s' in
        (String c line, rest, found)
  end.

(** [std::getline(stream, line)]: [None] when the call fails, which it does
    on a stream that is not good and on one with nothing left; the line
    feed is consumed and dropped; reaching the end sets [eofbit]. *)
Definition getline (st : istringstream) : option string * istringstream :=
  if negb (good st) then (None, failed st)
  else
    match buf st with
    | EmptyString => (None, failed st)
    | s =>
        let '(line, rest, found) := read_line s in
        (Some line, mkStream rest found)
    end.

(** [if (!line.empty() && line.back() == '\r') line.pop_back();] *)
Fixpoint pop_back_CR (line : string) : string :=
  match line with
  | EmptyString => EmptyString
  | String c EmptyString =>
      if Ascii.eqb c CR then EmptyString else line
  | String c line' => String c (pop_back_CR line')
  end.

(** The characters up to the first white space, and what follows them. *)
Fixpoint read_word (s : string) : string * string :=
  match s with
  | EmptyString => ("", "")
  | String c s' =>
      if Str.isspace c then ("", s)
      else let (w, r) := read_word s' in (String c w, r)
  end.

(** [stream >> word] for a [std::string]: white space is skipped, then the
    characters up to the next white space are taken. [None] when nothing is
    taken, in which case the target keeps its value. *)
Definition extract_string (st : istringstream)
  : option string * istringstream :=
  if negb (good st) then (None, failed st)
  else
    match Str.skip_spaces (buf st) with
    | EmptyString => (None, mkStream "" false)
    | s =>
        let (w, r) := read_word s in
        (Some w, mkStream r (negb (Str.empty r)))
    end.

(** What follows the digits at the front of [s]. *)
Fixpoint skip_digits (s : string) : string :=
  match s with
  | String c s' => if Str.isdigit c then skip_digits s' else s
  | EmptyString => s
  end.

(** [stream >> n] for an [int], decimal: white space is skipped, an
    optional sign and the digits that follow are taken. The result is the
    value stored in [n]: the old one when the sentry fails, 0 when no digit
    was found, the nearest bound when the digits do not fit an [int]; in
    these cases [failbit] is set. *)
Definition extract_int (st : istringstream) (old : Z) : Z * istringstream :=
  if negb (good st) then (old, failed st)
  else
    match Str.skip_spaces (buf st) with
    | EmptyString => (old, mkStream "" false)
    | s1 =>
        let '(neg, s2) :=
          match s1 with
          | String "-"%char r => (true, r)
          | String "+"%char r => (false, r)
          | _ => (false, s1)
          end in
        match Str.leading_digits s2 with
        | [] => (0, mkStream s2 false)
        | ds =>
            let v :=
              if neg then - Str.digits_value ds else Str.digits_value ds in
            let r := skip_digits s2 in
            if Str.INT_MAX <? v then (Str.INT_MAX, mkStream r false)
            else if v <? Str.INT_MIN then (Str.INT_MIN, mkStream r false)
            else (v, mkStream r (negb (Str.empty r)))
        end
    end.

(** The body of the header loop for one non-empty line. *)
Definition header_line (header : StdMap.t string) (line : string)
  : StdMap.t string :=
  match Str.find_char line ":"%char with
  | Some colon_pos =>
      let key := toLower (trim (Str.substr line 0 colon_pos)) in
      let value := trim (Str.substr_from line (colon_pos + 1)) in
      StdMap.assign key value header
  | None => header
  end.

(** "Parse headers": the loop [while (std::getline(stream, line))], which
    every parser of the file repeats. [fuel] bounds the number of turns;
    [None] means it ran out. *)
Fixpoint parse_headers (fuel : nat) (stream : istringstream)
         (header : StdMap.t string)
  : option (StdMap.t string * istringstream) :=
  match fuel with
  | O => None
  | S fuel' =>
      match getline stream with
      | (None, stream') => Some (header, stream')
      | (Some line, stream') =>
          let line := pop_back_CR line in
          if Str.empty line then Some (header, stream')
          else parse_headers fuel' stream' (header_line header line)
      end
  end.

(** [request_line >> req.method >> req.url >> req.proto] *)
Definition request_line_fields (line : string) : string * string * string :=
  let request_line := istringstream_of line in
  let (m, s1) := extract_string request_line in
  let (u, s2) := extract_string s1 in
  let (p, _) := extract_string s2 in
  (match m with Some w => w | None => "" end,
   match u with Some w => w | None => "" end,
   match p with Some w => w | None => "" end).

Definition no_request_line : Error :=
  New "invalid request: no request line".

Definition invalid_request_line : Error := New "invalid request line".

(** [Server::parseRequest]; a line holds fewer characters than the
    request, so the header loop gets one turn per character and one more. *)
Definition parseRequest (raw_request : string)
  : option (Result Request) :=
  let req := mkRequest "" "" "" [] "" "" in
  let stream := istringstream_of raw_request in
  match getline stream with
  | (None, _) => Some (mkResult req (Some no_request_line))
  | (Some line, stream) =>
      let line := pop_back_CR line in
      let '(m, u, p) := request_line_fields line in
      let req := mkRequest m u p [] "" "" in
      if Str.empty m || Str.empty u
      then Some (mkResult req (Some invalid_request_line))
      else
        match parse_headers (S (String.length raw_request)) stream [] with
        | None => None
        | Some (header, stream) =>
            Some (mkResult (mkRequest m u p header (buf stream) "") None)
        end
  end.

(** The parser written out again inside [ListenAndServeTLS]: it has no
    error return. *)
Definition parseRequest_inline (raw_request : string) : option Request :=
  let stream := istringstream_of raw_request in
  let '(m, u, p, stream) :=
    match getline stream with
    | (Some line, stream) =>
        (request_line_fields (pop_back_CR line), stream)
    | (None, stream) => ("", "", "", stream)
    end in
  match parse_headers (S (String.length raw_request)) stream [] with
  | None => None
  | Some (header, stream) =>
      Some (mkRequest m u p header (buf stream) "")
  end.

Definition no_status_line : Error :=
  New "invalid response: no status line".

(** "Parse response" in [Get] and [Post]. *)
Definition parseResponse (raw_response : string)
  : option (Result Response) :=
  let resp := new_Response in
  let stream := istringstream_of raw_response in
  match getline stream with
  | (None, _) => Some (mkResult resp (Some no_status_line))
  | (Some line, stream) =>
      let line := pop_back_CR line in
      let status_line := istringstream_of line in
      let (proto, status_line) := extract_string status_line in
      let proto := match proto with Some w => w | None => "" end in
      let (code, status_line) := extract_int status_line 0 in
      let status :=
        match getline status_line with
        | (Some s, _) => s
        | (None, _) => ""
        end in
      let status := trim status in
      match parse_headers (S (String.length raw_response)) stream [] with
      | None => None
      | Some (header, stream) =>
          Some (mkResult (mkResponse proto code status header (buf stream))
                         None)
      end
  end.

(** "Send request" in [Get] and in [Post]. *)
Definition Get_request (t : Target) : string :=
  "GET " ++ path t ++ " HTTP/1.1" ++ CRLF
  ++ "Host: " ++ address t ++ CRLF
  ++ "Connection: close" ++ CRLF
  ++ CRLF.

Definition Post_request (t : Target) (content_type body : string) : string :=
  "POST " ++ path t ++ " HTTP/1.1" ++ CRLF
  ++ "Host: " ++ address t ++ CRLF
  ++ "Content-Type: " ++ content_type ++ CRLF
  ++ "Content-Length: " ++ Str.to_string (Z.of_nat (String.length body))
  ++ CRLF
  ++ "Connection: close" ++ CRLF
  ++ CRLF
  ++ body.

End HTTPText.

(** Trailing white space removed; the structural counterpart of the second
    loop of [trim]. *)
Fixpoint rstrip (s : string) : string :=
  match s with
  | EmptyString => EmptyString
  | String c s' =>
      match rstrip s' with
      | EmptyString => if Str.isspace c then EmptyString else String c ""
      | r => String c r
      end
  end.

(** Every character of [s] is white space. *)
Fixpoint all_space (s : string) : bool :=
  match s with
  | EmptyString => true
  | String c s' => Str.isspace c && all_space s'
  end.

(** No character of [s] is white space. *)
Fixpoint no_space (s : string) : bool :=
  match s with
  | EmptyString => true
  | String c s' => negb (Str.isspace c) && no_space s'
  end.

(** The decimal digits of a number, most significant first. *)
Fixpoint uint_digits (u : Decimal.uint) : list Z :=
  match u with
  | Decimal.Nil => []
  | Decimal.D0 u' => 0 :: uint_digits u'
  | Decimal.D1 u' => 1 :: uint_digits u'
  | Decimal.D2 u' => 2 :: uint_digits u'
  | Decimal.D3 u' => 3 :: uint_digits u'
  | Decimal.D4 u' => 4 :: uint_digits u'
  | Decimal.D5 u' => 5 :: uint_digits u'
  | Decimal.D6 u' => 6 :: uint_digits u'
  | Decimal.D7 u' => 7 :: uint_digits u'
  | Decimal.D8 u' => 8 :: uint_digits u'
  | Decimal.D9 u' => 9 :: uint_digits u'
  end.

(** [lines], each ended by a line feed, followed by [rest]. *)
Fixpoint lines_text (lines : list string) (rest : string) : string :=
  match lines with
  | [] => rest
  | l :: ls => l ++ String HTTP.LF (lines_text ls rest)
  end.

(** A header entry as the header loop stores it. *)
Definition normal_entry (kv : string * string) : Prop :=
  HTTPText.toLower (fst kv) = fst kv
  /\ HTTPText.trim (fst kv) = fst kv
  /\ HTTPText.trim (snd kv) = snd kv.

(** A header map as the header loop builds it. *)
Definition headers_normal (h : StdMap.t string) : Prop :=
  map_wf h /\ forall k v, In (k, v) h -> normal_entry (k, v).

(** The header map the client builds from the header block of a response
    written with the map [headers]. *)
Definition received_headers (headers : StdMap.t string) : StdMap.t string :=
  fold_left
    (fun h kv =>
       StdMap.assign (HTTPText.toLower (HTTPText.trim (fst kv)))
                     (HTTPText.trim (snd kv)) h)
    headers [].

(** A header that fits on one line and whose name holds no colon. *)
Definition one_line_header (kv : string * string) : Prop :=
  contains_char ":" (fst kv) = false
  /\ contains_char HTTP.LF (fst kv) = false
  /\ contains_char HTTP.LF (snd kv) = false.

(* ------------------------------------------------------------------ *)
(** ** [gocxx::os]: expansion of environment variables *)

Module Env.

Section WithEnvironment.

(** [std::getenv]: the value of a name in the environment of the process,
    [None] for the null pointer. *)
Variable getenv : string -> option string.

(** [key.c_str()] as a C function reads it: the characters before the
    first zero. *)
Fixpoint c_str (s : string) : string :=
  match s with
  | EmptyString => EmptyString
  | String c s' =>
      if Ascii.eqb c Ascii.zero then EmptyString else String c (c_str s')
  end.

Definition Getenv (key : string) : string :=
  match getenv (c_str key) with
  | Some value => value
  | None => ""
  end.

(** [s[i]]; the character past the end is the terminating zero. *)
Definition at_ (s : string) (i : nat) : ascii :=
  match String.get i s with
  | Some c => c
  | None => Ascii.zero
  end.

(** [std::isalnum] in the "C" locale. *)
Definition isalnum (c : ascii) : bool :=
  let n := nat_of_ascii c in
  ((Nat.leb 48 n && Nat.leb n 57)
   || (Nat.leb 65 n && Nat.leb n 90)
   || (Nat.leb 97 n && Nat.leb n 122))%bool.

Definition name_char (c : ascii) : bool :=
  isalnum c || Ascii.eqb c "_".

(** [while (end < s.length() && (isalnum(s[end]) || s[end] == '_')) ++end],
    by recursion on [s.length() - end]. *)
Fixpoint name_end (s : string) (gap end_ : nat) : nat :=
  match gap with
  | O => end_
  | S gap' =>
      if name_char (at_ s end_) then name_end s gap' (S end_) else end_
  end.

(** One turn of the [for] loop of [ExpandEnv] at index [i]: what is
    appended to [result], and the index the next turn starts at. *)
Definition ExpandEnv_step (s : string) (i : nat) : string * nat :=
  let literal := (String (at_ s i) "", S i) in
  if Ascii.eqb (at_ s i) "$"
  then
    if (i + 1 <? String.length s)%nat
    then
      if Ascii.eqb (at_ s (i + 1)) "{"
      then
        match index (i + 2) "}" s with
        | Some end_ =>
            let var := Str.substr s (i + 2) (end_ - i - 2) in
            (Getenv var, S end_)
        | None => literal
        end
      else
        let start := (i + 1)%nat in
        let end_ := name_end s (String.length s - start) start in
        if (start <? end_)%nat
        then
          let var := Str.substr s start (end_ - start) in
          (Getenv var, end_)
        else literal
    else literal
  else literal.

(** The loop from index [i] on; [fuel] bounds the number of turns, [None]
    means it ran out. *)
Fixpoint ExpandEnv_loop (fuel : nat) (s : string) (i : nat)
         (result : string) : option string :=
  match fuel with
  | O => None
  | S fuel' =>
      if (i <? String.length s)%nat
      then
        let (piece, i') := ExpandEnv_step s i in
        ExpandEnv_loop fuel' s i' (result ++ piece)
      else Some result
  end.

(** [ExpandEnv]; every turn moves the index forward, so the loop takes at
    most one turn per character. *)
Definition ExpandEnv (s : string) : option string :=
  ExpandEnv_loop (S (String.length s)) s 0 "".

End WithEnvironment.

End Env.

(** Every character of [s] may occur in a [$NAME]. *)
Fixpoint all_name_chars (s : string) : bool :=
  match s with
  | EmptyString => true
  | String c s' => Env.name_char c && all_name_chars s'
  end.

(** [s] begins with a character that satisfies [P]. *)
Definition first_is (P : ascii -> bool) (s : string) : bool :=
  match s with
  | EmptyString => false
  | String c _ => P c
  end.

(* ------------------------------------------------------------------ *)
(** ** The listening side

    [ListenTCP], [DialUDP], [TLSListener::Accept] and [ListenTLS] make calls
    that the functions above do not make. They are recorded in a trace of a
    second kind, in which the calls above appear unchanged ([plain]); the
    functions modelled above run inside it through [lift]. *)

Module Listen.

Inductive ServerCall : Type :=
| plain (c : Call)
| sys_setsockopt (fd optname value : Z)
| sys_bind (fd addr port : Z)
| sys_listen (fd backlog : Z)
| SSL_CTX_new_server
| SSL_CTX_check_private_key (ctx : Z)
| SSL_accept (ssl : Z).

Definition ServerTrace : Type := list ServerCall.

(** The environment of the listening side; [inet_pton] is the parser of
    dotted IPv4 addresses, [None] when it rejects the text. *)
Record ServerOS : Type := mkServerOS {
  server_reply : ServerTrace -> ServerCall -> Reply;
  server_strerror : Z -> string;
  server_GetSSLError : ServerTrace -> string;
  inet_pton : string -> option Z
}.

Definition SO_REUSEADDR : Z := 2.
Definition INADDR_ANY : Z := 0.

Definition SM (A : Type) : Type := ServerTrace -> A * ServerTrace.

Definition sret {A} (a : A) : SM A := fun tr => (a, tr).

Definition sbind {A B} (m : SM A) (k : A -> SM B) : SM B :=
  fun tr => let (a, tr') := m tr in k a tr'.

Declare Scope s_scope.
Delimit Scope s_scope with S.
Notation "x <- c ;; k" := (sbind c (fun x => k))
  (at level 61, c at next level, right associativity) : s_scope.
Notation "c ;;; k" := (sbind c (fun _ => k))
  (at level 61, right associativity) : s_scope.
Local Open Scope s_scope.

Section WithServerOS.
Variable os : ServerOS.

Definition scall (c : ServerCall) : SM Reply :=
  fun tr => (server_reply os tr c, (tr ++ [c])%list).

Definition server_ssl_error_text : SM string :=
  fun tr => (server_GetSSLError os tr, tr).

(** The environment as a function of the first kind sees it once [tr] has
    happened. *)
Definition view (tr : ServerTrace) : OS :=
  mkOS (fun d c => server_reply os (tr ++ map plain d)%list (plain c))
       (server_strerror os)
       (fun d => server_GetSSLError os (tr ++ map plain d)%list).

(** A computation of the first kind, run on the listening side. *)
Definition lift {A} (m : OS -> M A) : SM A :=
  fun tr => let (a, d) := m (view tr) [] in (a, (tr ++ map plain d)%list).

(** [~TCPListener] *)
Definition destroy_listener (os0 : OS) (l : TCP.TCPListener) : M unit :=
  if negb (TCP.l_closed_ l)
  then mbind (TCP.Close os0 l) (fun _ => mret tt)
  else mret tt.

(** The address [ListenTCP] binds to: [INADDR_ANY] for "0.0.0.0", else what
    [inet_pton] writes; when [inet_pton] rejects the host its result is
    ignored and the zeroed field stays. *)
Definition bind_address (host : string) : Z :=
  if String.eqb host "0.0.0.0" then INADDR_ANY
  else
    match inet_pton os (Env.c_str host) with
    | Some a => a
    | None => 0
    end.

(** [ListenTCP]; on the two paths that close the socket before reporting,
    [SOCKET_ERROR_CODE] is read after [close]. *)
Definition ListenTCP (network address : string)
  : SM (Result (option TCP.TCPListener)) :=
  if negb (TCP.allowed_network network)
  then sret (mkResult None
               (Some (New ("unsupported network type: " ++ network))))
  else
    match TCP.parseAddress address with
    | None => sret (mkResult None (Some ErrInvalidAddr))
    | Some (host, port) =>
        s <- scall (plain (sys_socket Sys.SOCK_STREAM)) ;;
        let sock := ret s in
        if sock =? Sys.INVALID_SOCKET
        then sret (mkResult None
                     (Some (TCP.socketErrorToError (view []) (errno s))))
        else
          scall (sys_setsockopt sock SO_REUSEADDR 1) ;;;
          b <- scall (sys_bind sock (bind_address host) port) ;;
          if negb (ret b =? 0)
          then
            cl <- scall (plain (sys_close sock)) ;;
            sret (mkResult None
                    (Some (TCP.socketErrorToError (view []) (errno cl))))
          else
            l <- scall (sys_listen sock 128) ;;
            if negb (ret l =? 0)
            then
              cl <- scall (plain (sys_close sock)) ;;
              sret (mkResult None
                      (Some (TCP.socketErrorToError (view []) (errno cl))))
            else
              let local_addr := TCP.mkTCPAddr host port in
              sret (mkResult
                      (Some (TCP.new_TCPListener sock (Some local_addr)))
                      None)
    end.

(** [Listen] *)
Definition Listen_ (address : string)
  : SM (Result (option TCP.TCPListener)) :=
  result <- ListenTCP "tcp" address ;;
  match err result with
  | Some e => sret (mkResult None (Some e))
  | None => sret (mkResult (value result) None)
  end.

(** [htons] of an [int]: the low 16 bits. *)
Definition htons (port : Z) : Z := port mod 65536.

(** The address [DialUDP] puts into a [sockaddr_in]. *)
Definition in_addr_of (ip : string) : Z :=
  match inet_pton os (Env.c_str ip) with
  | Some a => a
  | None => 0
  end.

(** [DialUDP] *)
Definition DialUDP (network : string)
           (local_addr remote_addr : option UDP.UDPAddr)
  : SM (Result (option UDP.UDPConn)) :=
  if negb (UDP.allowed_network network)
  then sret (mkResult None
               (Some (New ("unsupported network type: " ++ network))))
  else
    s <- scall (plain (sys_socket Sys.SOCK_DGRAM)) ;;
    let sock := ret s in
    if sock =? Sys.INVALID_SOCKET
    then sret (mkResult None
                 (Some (UDP.socketErrorToError (view []) (errno s))))
    else
      let fail :=
        cl <- scall (plain (sys_close sock)) ;;
        sret (mkResult None
                (Some (UDP.socketErrorToError (view []) (errno cl)))) in
      bound <-
        match local_addr with
        | Some a =>
            b <- scall (sys_bind sock (in_addr_of (UDP.ip a))
                                 (htons (UDP.port a))) ;;
            sret (ret b =? 0)
        | None => sret true
        end ;;
      if negb bound then fail
      else
        connected <-
          match remote_addr with
          | Some a =>
              c <- scall (plain (sys_connect sock (UDP.ip a)
                                             (htons (UDP.port a)))) ;;
              sret (ret c =? 0)
          | None => sret true
          end ;;
        if negb connected then fail
        else
          g <- scall (plain (sys_getsockname sock)) ;;
          if negb (ret g =? 0) then fail
          else
            let actual_local_addr :=
              UDP.mkUDPAddr (reply_ip g) (reply_port g) in
            sret (mkResult
                    (Some (UDP.new_UDPConn sock (Some actual_local_addr)))
                    None).

(** [ListenUDP] and [ListenUDPSimple] *)
Definition ListenUDP (network : string) (local_addr : option UDP.UDPAddr)
  : SM (Result (option UDP.UDPConn)) :=
  match local_addr with
  | None => sret (mkResult None (Some (New "local address is required")))
  | Some _ => DialUDP network local_addr None
  end.

Definition ListenUDPSimple (address : string)
  : SM (Result (option UDP.UDPConn)) :=
  addr_result <- lift (fun os0 => UDP.ResolveUDPAddr os0 "udp" address) ;;
  match err addr_result with
  | Some e => sret (mkResult None (Some e))
  | None => ListenUDP "udp" (value addr_result)
  end.

(** Modelled from the spec: the protected constructor [TCPListener(int fd)]
    is declared for "derived classes (like TLSListener)" and defined in no
    file at hand; the TLS listener is a TCP listener on the address,
    "wrapped": the constructor stores the handle of an open listener
    without address, as [TCPConn(int fd)] does for a connection. *)
Definition TCPListener_of_fd (fd : Z) : TCP.TCPListener :=
  TCP.new_TCPListener fd None.

(** An error return of [TLSListener::Accept] after the TCP connection
    exists: the connection is closed, the message is built, and the
    connection object dies. *)
Definition accept_fail (tcp_conn : TCP.TCPConn) (prefix : string)
  : SM (Result (option TLS.TLSConn)) :=
  c' <- lift (fun os0 => TCP.close os0 tcp_conn) ;;
  txt <- server_ssl_error_text ;;
  lift (fun os0 => TCP.destroy os0 c') ;;;
  sret (mkResult None (Some (New (prefix ++ txt)))).

(** [TLSListener::Accept]. [result] and [tcp_conn] are the only owners of
    the connection object [TCPListener::Accept] made; they go out of scope
    when the function returns, and the object dies then. *)
Definition Accept (l : TLS.TLSListener)
  : SM (Result (option TLS.TLSConn) * TLS.TLSListener) :=
  x <- lift (fun os0 => TCP.Accept os0 (TLS.l_base l)) ;;
  let result := fst x in
  let l := TLS.mkTLSListener (snd x) (TLS.l_ctx_ l) in
  match err result, value result with
  | Some e, _ => sret (mkResult None (Some e), l)
  | None, None =>
      sret (mkResult None (Some (New "failed to cast to TCPConn")), l)
  | None, Some tcp_conn =>
      let ctx := match TLS.l_ctx_ l with Some c => c | None => 0 end in
      s <- scall (plain (SSL_new ctx)) ;;
      let ssl := ret s in
      if ssl =? 0
      then
        r <- accept_fail tcp_conn "SSL_new failed: " ;;
        sret (r, l)
      else
        let fd := TCP.socket_fd_ tcp_conn in
        scall (plain (SSL_set_fd ssl fd)) ;;;
        a <- scall (SSL_accept ssl) ;;
        if ret a <=? 0
        then
          scall (plain (SSL_free ssl)) ;;;
          r <- accept_fail tcp_conn "SSL_accept failed: " ;;
          sret (r, l)
        else
          let tls_conn := TLS.new_TLSConn fd ssl 0 in
          lift (fun os0 => TCP.destroy os0 tcp_conn) ;;;
          sret (mkResult (Some tls_conn) None, l)
  end.

(** [ListenTLS]. [listener_result] and [tcp_listener] are the only owners
    of the listener object [ListenTCP] made; it dies when the function
    returns. *)
Definition ListenTLS (network address : string) (config : TLS.TLSConfig)
  : SM (Result (option TLS.TLSListener)) :=
  if Str.empty (TLS.cert_file config) || Str.empty (TLS.key_file config)
  then sret (mkResult None
               (Some (New
                  "certificate and key files are required for TLS server")))
  else
    c <- scall SSL_CTX_new_server ;;
    let ctx := ret c in
    if ctx =? 0
    then
      txt <- server_ssl_error_text ;;
      sret (mkResult None (Some (New ("SSL_CTX_new failed: " ++ txt))))
    else
      r1 <- scall (plain (SSL_CTX_use_certificate_file
                            ctx (TLS.cert_file config))) ;;
      if ret r1 <=? 0
      then
        scall (plain (SSL_CTX_free ctx)) ;;;
        txt <- server_ssl_error_text ;;
        sret (mkResult None
                (Some (New ("Failed to load certificate: " ++ txt))))
      else
        r2 <- scall (plain (SSL_CTX_use_PrivateKey_file
                              ctx (TLS.key_file config))) ;;
        if ret r2 <=? 0
        then
          scall (plain (SSL_CTX_free ctx)) ;;;
          txt <- server_ssl_error_text ;;
          sret (mkResult None
                  (Some (New ("Failed to load private key: " ++ txt))))
        else
          r3 <- scall (SSL_CTX_check_private_key ctx) ;;
          if ret r3 =? 0
          then
            scall (plain (SSL_CTX_free ctx)) ;;;
            sret (mkResult None
                    (Some (New "Private key does not match certificate")))
          else
            listener_result <- ListenTCP network address ;;
            match err listener_result, value listener_result with
            | Some e, _ =>
                scall (plain (SSL_CTX_free ctx)) ;;;
                sret (mkResult None (Some e))
            | None, None => sret (mkResult None None)
            | None, Some tcp_listener =>
                let fd := TCP.l_socket_fd_ tcp_listener in
                let tls_listener :=
                  TLS.mkTLSListener (TCPListener_of_fd fd) (Some ctx) in
                lift (fun os0 => destroy_listener os0 tcp_listener) ;;;
                sret (mkResult (Some tls_listener) None)
            end.

End WithServerOS.

End Listen.

(** The calls of the first kind in a trace of the listening side. *)
Fixpoint plain_part (d : Listen.ServerTrace) : Trace :=
  match d with
  | [] => []
  | Listen.plain c :: d' => c :: plain_part d'
  | _ :: d' => plain_part d'
  end.

(** The handles a stretch of calls [d] has obtained: the answers to the
    calls that [want] selects, each with the value that means "none". *)
Fixpoint obtained (os : Listen.ServerOS)
         (want : Listen.ServerCall -> option Z)
         (hist d : Listen.ServerTrace) : list Z :=
  match d with
  | [] => []
  | c :: d' =>
      let rest := obtained os want (hist ++ [c])%list d' in
      match want c with
      | Some none =>
          let h := ret (Listen.server_reply os hist c) in
          if h =? none then rest else h :: rest
      | None => rest
      end
  end.

Definition wants_socket (c : Listen.ServerCall) : option Z :=
  match c with
  | Listen.plain (sys_socket _) | Listen.plain (sys_accept _) =>
      Some Sys.INVALID_SOCKET
  | _ => None
  end.

Definition wants_ctx (c : Listen.ServerCall) : option Z :=
  match c with
  | Listen.SSL_CTX_new_server | Listen.plain SSL_CTX_new => Some 0
  | _ => None
  end.

Definition wants_ssl (c : Listen.ServerCall) : option Z :=
  match c with
  | Listen.plain (SSL_new _) => Some 0
  | _ => None
  end.

(** An environment of the listening side where everything succeeds:
    [socket] hands out descriptor 3, [accept] descriptor 7, the OpenSSL
    constructors non-null handles, [SSL_accept] and the certificate calls
    answer 1, every other call 0. *)
Definition server_ok : Listen.ServerOS :=
  Listen.mkServerOS
    (fun _ c =>
       match c with
       | Listen.plain (sys_socket _) => Sample.plain_reply 3
       | Listen.plain (sys_accept _) => mkReply 7 0 "192.0.2.1" 50000
       | Listen.plain (sys_getsockname _) => mkReply 0 0 "0.0.0.0" 40000
       | Listen.plain (sys_getaddrinfo _ _) => mkReply 0 0 "127.0.0.1" 0
       | Listen.plain (SSL_new _) => Sample.plain_reply 100
       | Listen.SSL_CTX_new_server => Sample.plain_reply 200
       | Listen.SSL_accept _ => Sample.plain_reply 1
       | Listen.SSL_CTX_check_private_key _ => Sample.plain_reply 1
       | Listen.plain (SSL_CTX_use_certificate_file _ _) =>
           Sample.plain_reply 1
       | Listen.plain (SSL_CTX_use_PrivateKey_file _ _) =>
           Sample.plain_reply 1
       | _ => Sample.plain_reply 0
       end)
    (fun _ => "error")
    (fun _ => "ssl error")
    (fun _ => None).

(* ------------------------------------------------------------------ *)
(** ** The copy of the TLS client in [net.cpp]

    [net.cpp] holds a second [DialTLS]. It configures the context with the
    same statements; on Linux [LoadSystemCACerts] is the call of
    [SSL_CTX_set_default_verify_paths] that the copy makes itself, with the
    result dropped in both. *)

Module TLSCopy.

Section WithOS.
Variable os : OS.

Local Open Scope m_scope.

(** [DialTLS] of [net.cpp]. Nothing takes the socket away from [tcp_conn]
    before the function returns: [tcp_result] and [tcp_conn] are the only
    owners of the connection object, which dies then. *)
Definition DialTLS (network address : string) (config : option TLS.TLSConfig)
  : M (Result (option TLS.TLSConn)) :=
  tcp_result <- TCP.DialTCP os network address ;;
  match err tcp_result, value tcp_result with
  | Some e, _ => mret (mkResult None (Some e))
  | None, None => mret (mkResult None None)
  | None, Some tcp_conn =>
      cx <- call os SSL_CTX_new ;;
      let ctx := ret cx in
      if ctx =? 0 then TLS.fail_with os tcp_conn "SSL_CTX_new failed: "
      else
        cfg_err <- TLS.configure os ctx config ;;
        match cfg_err with
        | Some prefix =>
            call os (SSL_CTX_free ctx) ;;;
            TLS.fail_with os tcp_conn prefix
        | None =>
            sn <- call os (SSL_new ctx) ;;
            let ssl := ret sn in
            if ssl =? 0
            then
              call os (SSL_CTX_free ctx) ;;;
              TLS.fail_with os tcp_conn "SSL_new failed: "
            else
              let fd := TCP.socket_fd_ tcp_conn in
              call os (SSL_set_fd ssl fd) ;;;
              cn <- call os (SSL_connect ssl) ;;
              if ret cn <=? 0
              then
                call os (SSL_free ssl) ;;;
                call os (SSL_CTX_free ctx) ;;;
                TLS.fail_with os tcp_conn "SSL_connect failed: "
              else
                let tls_conn := TLS.new_TLSConn fd ssl ctx in
                TCP.destroy os tcp_conn ;;;
                mret (mkResult (Some tls_conn) None)
        end
  end.

End WithOS.

End TLSCopy.


(* ------------------------------------------------------------------ *)
(** ** The end of a TLS connection *)

Module Teardown.

Section WithOS.
Variable os : OS.

Local Open Scope m_scope.

(** [~TLSConn], followed by the destructor of its base class. *)
Definition destroy_TLSConn (c : TLS.TLSConn) : M unit :=
  (match TLS.ssl_ c with
   | Some ssl =>
       call os (SSL_shutdown ssl) ;;; call os (SSL_free ssl) ;;; mret tt
   | None => mret tt
   end) ;;;
  (match TLS.ctx_ c with
   | Some ctx => call os (SSL_CTX_free ctx) ;;; mret tt
   | None => mret tt
   end) ;;;
  TCP.destroy os (TLS.base c).

(** [close()] called [n] times on a connection. *)
Fixpoint close_times (n : nat) (c : TLS.TLSConn) : M TLS.TLSConn :=
  match n with
  | O => mret c
  | S n' => c' <- TLS.close os c ;; close_times n' c'
  end.

End WithOS.

End Teardown.

(** The handle behind a pointer that may be null. *)
Definition handle_of (h : option Z) : list Z :=
  match h with
  | Some x => [x]
  | None => []
  end.

(* ------------------------------------------------------------------ *)
(** ** The server: one connection *)

Module Serve.

Section WithOS.
Variable os : OS.

(** [std::string(buffer, n)] once [tr] has happened: the [n] bytes at the
    start of the buffer that the receives have filled. *)
Variable buffer_bytes : Trace -> Z -> string.

Local Open Scope m_scope.

Definition BUFFER_SIZE : Z := 4096.







End WithOS.

End Serve.






(* ------------------------------------------------------------------ *)
(** ** The client: one exchange

    What [Get] and [Post] do once connected, with the same statements:
    send the request, read the stream to its end, close, parse. *)

Module Client.

Section WithOS.
Variable os : OS.

(** [std::string(buffer, n)] once [tr] has happened. *)
Variable buffer_bytes : Trace -> Z -> string.

Local Open Scope m_scope.

(** [conn->Read], [conn->close()] and the end of the connection object:
    the three are virtual. *)
Definition conn_Read (c : HTTP.Conn) (size : Z) : M (Result Z * HTTP.Conn) :=
  match c with
  | HTTP.PlainConn t =>
      x <- TCP.Read os t size ;; mret (fst x, HTTP.PlainConn (snd x))
  | HTTP.SecureConn t =>
      x <- TLS.Read os t size ;; mret (fst x, HTTP.SecureConn (snd x))
  end.

Definition conn_close (c : HTTP.Conn) : M HTTP.Conn :=
  match c with
  | HTTP.PlainConn t => t' <- TCP.close os t ;; mret (HTTP.PlainConn t')
  | HTTP.SecureConn t => t' <- TLS.close os t ;; mret (HTTP.SecureConn t')
  end.

Definition conn_destroy (c : HTTP.Conn) : M unit :=
  match c with
  | HTTP.PlainConn t => TCP.destroy os t
  | HTTP.SecureConn t => Teardown.destroy_TLSConn os t
  end.

(** "Read response": the loop ends when a read fails or gives nothing;
    [fuel] bounds the number of turns, [None] means it ran out. *)
Fixpoint read_response (fuel : nat) (conn : HTTP.Conn)
         (raw_response : string) : M (option string) :=
  match fuel with
  | O => mret None
  | S fuel' =>
      x <- conn_Read conn Serve.BUFFER_SIZE ;;
      let read_result := fst x in
      if Failed read_result || (value read_result =? 0)
      then mret (Some raw_response)
      else
        bytes <- (fun tr => (buffer_bytes tr (value read_result), tr)) ;;
        read_response fuel' (snd x) (raw_response ++ bytes)
  end.

(** From "Send request" to the end of [Get] and of [Post]; [conn] is the
    only owner of the connection, which dies when the function returns. *)
Definition exchange (fuel : nat) (request_str : string) (conn : HTTP.Conn)
  : M (option (Result HTTP.Response)) :=
  x <- HTTP.conn_Write os conn request_str ;;
  let write_result := fst x in
  let conn := snd x in
  match err write_result with
  | Some e =>
      conn_destroy conn ;;;
      mret (Some (mkResult HTTP.new_Response (Some e)))
  | None =>
      raw <- read_response fuel conn "" ;;
      match raw with
      | None => mret None
      | Some raw_response =>
          conn <- conn_close conn ;;
          match HTTPText.parseResponse raw_response with
          | None => mret None
          | Some result => conn_destroy conn ;;; mret (Some result)
          end
      end
  end.

End WithOS.

End Client.

(** A peer that sends [chunks], one per receive, and then ends the stream
    or fails: what the receives on [fd] answer from [tr] on. *)
Fixpoint delivers (os : OS) (buffer_bytes : Trace -> Z -> string) (fd : Z)
         (tr : Trace) (chunks : list string) : Prop :=
  let c := sys_recv fd Serve.BUFFER_SIZE in
  match chunks with
  | [] => ret (reply os tr c) <= 0
  | chunk :: rest =>
      ret (reply os tr c) = Z.of_nat (String.length chunk)
      /\ chunk <> ""
      /\ buffer_bytes (tr ++ [c])%list (ret (reply os tr c)) = chunk
      /\ delivers os buffer_bytes fd (tr ++ [c])%list rest
  end.

Definition any_recv (c : Call) : bool :=
  match c with
  | sys_recv _ _ => true
  | _ => false
  end.

(** A peer that takes every request whole and answers [text] in one piece:
    the first receive answers its length, the next one 0. *)
Definition os_serving (text : string) : OS :=
  mkOS (fun tr c =>
          match c with
          | sys_send _ d _ => Sample.plain_reply (Z.of_nat (String.length d))
          | sys_recv _ _ =>
              if existsb any_recv tr then Sample.plain_reply 0
              else Sample.plain_reply (Z.of_nat (String.length text))
          | _ => Sample.plain_reply 0
          end)
       (fun _ => "error")
       (fun _ => "ssl error").

(* ------------------------------------------------------------------ *)
(** ** Properties of the TCP and UDP connections *)

Local Open Scope list_scope.

Local Ltac run :=
  unfold mbind, mret, call, ssl_error_text; simpl.

(** [socketErrorToError] never yields a null error. *)
Lemma Read_failure_has_error os c size tr r c' tr' :
  TCP.Read os c size tr = (r, c', tr') -> Ok r = true -> 0 < value r.
Proof.
  unfold TCP.Read. destruct (TCP.closed_ c).
  - run. intros H; inversion H; subst. discriminate.
  - run. destruct (ret _ <? 0) eqn:Hneg.
    + intros H; inversion H; subst. discriminate.
    + destruct (ret _ =? 0) eqn:Hz.
      * intros H; inversion H; subst. discriminate.
      * intros H; inversion H; subst. simpl. lia.
Qed.

(** C3. On an open [TCPConn], a [Read] whose [recv] answers zero (the peer
    closed the stream) returns the error [ErrClosed] with zero bytes, after
    that single [recv]; and whatever [recv] answers, a [Read] that reports
    success carries at least one byte. *)
Theorem TCPConn_Read_zero_is_closed os c size tr :
  TCP.closed_ c = false ->
  (ret (reply os tr (sys_recv (TCP.socket_fd_ c) size)) = 0 ->
   TCP.Read os c size tr
   = (mkResult 0 (Some ErrClosed), c,
      (tr ++ [sys_recv (TCP.socket_fd_ c) size])%list))
  /\ (forall r c' tr',
        TCP.Read os c size tr = (r, c', tr') -> Ok r = true -> 0 < value r).
Proof.
  intros Hopen. split.
  - intros Hzero. unfold TCP.Read. rewrite Hopen. run.
    rewrite Hzero. reflexivity.
  - intros r c' tr'. apply Read_failure_has_error.
Qed.

Lemma TCPConn_Read_zero_is_closed_witness :
  TCP.Read Sample.os_eof Sample.tcp_conn 4096 []
  = (mkResult 0 (Some ErrClosed), Sample.tcp_conn, [sys_recv 7 4096]).
Proof.
  exact (proj1 (@TCPConn_Read_zero_is_closed
                  Sample.os_eof Sample.tcp_conn 4096 [] eq_refl) eq_refl).
Defined.

(** C10. Once a [TCPConn] or a [UDPConn] is closed, each of its data
    operations returns [ErrClosed] with zero bytes, makes no call at all (the
    trace is unchanged) and leaves the object as it was; [ReadFrom] also
    leaves its address out-parameter untouched. *)
Theorem closed_conn_rejects_every_operation os :
  (forall c size buffer tr,
      TCP.closed_ c = true ->
      TCP.Read os c size tr = (mkResult 0 (Some ErrClosed), c, tr)
      /\ TCP.Write os c buffer tr = (mkResult 0 (Some ErrClosed), c, tr)
      /\ TCP.CloseRead os c tr = (err_void ErrClosed, c, tr)
      /\ TCP.CloseWrite os c tr = (err_void ErrClosed, c, tr))
  /\ (forall c size buffer addr uaddr dest tr,
         UDP.closed_ c = true ->
         UDP.Read os c size tr = (mkResult 0 (Some ErrClosed), c, tr)
         /\ UDP.Write os c buffer tr = (mkResult 0 (Some ErrClosed), c, tr)
         /\ UDP.ReadFrom os c size addr tr
            = (mkResult 0 (Some ErrClosed), addr, c, tr)
         /\ UDP.WriteTo os c buffer addr tr
            = (mkResult 0 (Some ErrClosed), c, tr)
         /\ UDP.ReadFromUDP os c size uaddr tr
            = (mkResult 0 (Some ErrClosed), uaddr, c, tr)
         /\ UDP.WriteToUDP os c buffer dest tr
            = (mkResult 0 (Some ErrClosed), c, tr)).
Proof.
  split.
  - intros c size buffer tr Hc.
    unfold TCP.Read, TCP.Write, TCP.CloseRead, TCP.CloseWrite.
    rewrite Hc. repeat split; reflexivity.
  - intros c size buffer addr uaddr dest tr Hc.
    unfold UDP.ReadFromUDP, UDP.Read, UDP.Write, UDP.ReadFrom, UDP.WriteTo,
      UDP.WriteToUDP.
    rewrite Hc. run. repeat split; reflexivity.
Qed.

Lemma closed_conn_rejects_every_operation_witness :
  TCP.Read Sample.os_data Sample.tcp_conn_closed 4096 []
  = (mkResult 0 (Some ErrClosed), Sample.tcp_conn_closed, [])
  /\ UDP.WriteTo Sample.os_data Sample.udp_conn_closed "ping"
       (Some (UDP.AddrUDP (UDP.mkUDPAddr "10.0.0.3" 53))) []
     = (mkResult 0 (Some ErrClosed), Sample.udp_conn_closed, []).
Proof.
  split.
  - exact (proj1 (proj1 (closed_conn_rejects_every_operation Sample.os_data)
                    Sample.tcp_conn_closed 4096 "" [] eq_refl)).
  - exact (proj1 (proj2 (proj2 (proj2
             (proj2 (closed_conn_rejects_every_operation Sample.os_data)
                Sample.udp_conn_closed 0 "ping"
                (Some (UDP.AddrUDP (UDP.mkUDPAddr "10.0.0.3" 53)))
                None (UDP.mkUDPAddr "" 0) [] eq_refl))))).
Defined.

(* ------------------------------------------------------------------ *)
(** ** Closing twice *)

Lemma TCP_close_closed os c tr :
  TCP.closed_ c = true -> TCP.close os c tr = (c, tr).
Proof. intros H. unfold TCP.close. rewrite H. reflexivity. Qed.

Lemma TCP_close_open os c tr :
  TCP.closed_ c = false ->
  TCP.close os c tr
  = (TCP.set_closed c true, (tr ++ [sys_close (TCP.socket_fd_ c)])%list).
Proof. intros H. unfold TCP.close. rewrite H. reflexivity. Qed.

Lemma released_app tr1 tr2 :
  released (tr1 ++ tr2) = (released tr1 ++ released tr2)%list.
Proof.
  induction tr1 as [|c tr1 IH]; simpl; [reflexivity|].
  destruct c; simpl; rewrite ?IH; reflexivity.
Qed.

(** C4, as the code has it. Closing an open connection (TCP, UDP or TLS)
    releases its handle once, and a second [close] is a no-op: it makes no
    call and changes nothing. Closing an open listener releases its handle
    once and reports success; a second [Close] makes no call and changes
    nothing either, but it reports [ErrClosed]. *)
Theorem second_close_releases_nothing os :
  (forall c tr,
      TCP.closed_ c = false ->
      let (c1, tr1) := TCP.close os c tr in
      released tr1 = (released tr ++ [TCP.socket_fd_ c])%list
      /\ TCP.close os c1 tr1 = (c1, tr1))
  /\ (forall c tr,
         UDP.closed_ c = false ->
         let (c1, tr1) := UDP.close os c tr in
         released tr1 = (released tr ++ [UDP.socket_fd_ c])%list
         /\ UDP.close os c1 tr1 = (c1, tr1))
  /\ (forall c tr,
         TCP.closed_ (TLS.base c) = false ->
         let (c1, tr1) := TLS.close os c tr in
         released tr1 = (released tr ++ [TCP.socket_fd_ (TLS.base c)])%list
         /\ TLS.close os c1 tr1 = (c1, tr1))
  /\ (forall l tr,
         TCP.l_closed_ l = false ->
         let '(r1, l1, tr1) := TCP.Close os l tr in
         r1 = ok_void
         /\ released tr1 = (released tr ++ [TCP.l_socket_fd_ l])%list
         /\ TCP.Close os l1 tr1 = (err_void ErrClosed, l1, tr1))
  /\ (forall l tr,
         TCP.l_closed_ (TLS.l_base l) = false ->
         let '(r1, l1, tr1) := TLS.Close os l tr in
         r1 = ok_void
         /\ released tr1
            = (released tr ++ [TCP.l_socket_fd_ (TLS.l_base l)])%list
         /\ TLS.Close os l1 tr1 = (err_void ErrClosed, l1, tr1)).
Proof.
  split; [|split; [|split; [|split]]].
  - intros c tr H. rewrite TCP_close_open by assumption.
    split; [rewrite released_app; reflexivity|].
    apply TCP_close_closed. reflexivity.
  - intros c tr H. unfold UDP.close. rewrite H. run.
    split; [rewrite released_app; reflexivity|reflexivity].
  - intros c tr H. unfold TLS.close.
    destruct (TLS.ssl_ c) as [ssl|] eqn:Hssl; run;
      rewrite TCP_close_open by assumption; simpl;
      (split; [rewrite !released_app; simpl; rewrite ?app_nil_r; reflexivity
              | run; reflexivity]).
  - intros l tr H. unfold TCP.Close. rewrite H. run.
    repeat split. rewrite released_app. reflexivity.
  - intros l tr H. unfold TLS.Close, TCP.Close. rewrite H. run.
    repeat split. rewrite released_app. reflexivity.
Qed.

Lemma second_close_releases_nothing_witness :
  let '(r1, l1, tr1) := TCP.Close Sample.os_eof Sample.tcp_listener [] in
  r1 = ok_void
  /\ released tr1 = [3]
  /\ TCP.Close Sample.os_eof l1 tr1 = (err_void ErrClosed, l1, tr1).
Proof.
  exact (proj1 (proj2 (proj2 (proj2
           (second_close_releases_nothing Sample.os_eof))))
           Sample.tcp_listener [] eq_refl).
Defined.

(** C4 as stated fails on listeners: the first [Close] of an open listener
    reports success and the second one reports [ErrClosed], an error the
    first call did not report. *)
Lemma listener_second_Close_reports_error :
  let '(r1, l1, tr1) := TCP.Close Sample.os_eof Sample.tcp_listener [] in
  let '(r2, _, _) := TCP.Close Sample.os_eof l1 tr1 in
  err r1 = None /\ err r2 = Some ErrClosed /\ r2 <> r1.
Proof.
  vm_compute. repeat split. discriminate.
Qed.

(* ------------------------------------------------------------------ *)
(** ** Deadlines *)

(** The deadline fields are written by the three setters and read by no
    operation: the result and the calls of [Read] and [Write] are the same
    whatever the deadlines are. *)
Lemma Read_Write_independent_of_deadlines os c rd wr size buffer tr :
  let c' := TCP.mkTCPConn (TCP.socket_fd_ c) (TCP.local_addr_ c)
                          (TCP.remote_addr_ c) (TCP.closed_ c) rd wr in
  (fst (fst (TCP.Read os c' size tr)) = fst (fst (TCP.Read os c size tr))
   /\ snd (TCP.Read os c' size tr) = snd (TCP.Read os c size tr))
  /\ (fst (fst (TCP.Write os c' buffer tr))
      = fst (fst (TCP.Write os c buffer tr))
      /\ snd (TCP.Write os c' buffer tr) = snd (TCP.Write os c buffer tr)).
Proof.
  unfold TCP.Read, TCP.Write. simpl. destruct (TCP.closed_ c); run.
  - repeat split.
  - repeat match goal with
           | |- context [if ?b then _ else _] => destruct b
           end; repeat split.
Qed.

(** C5 fails on the code. A connection whose deadline was set to the epoch
    (a time point that has elapsed whenever the program runs) still performs
    its [recv] and its [send] and reports their success: neither [Read] nor
    [Write] returns [ErrTimeout]. *)
Theorem Read_Write_ignore_elapsed_deadline :
  let '(_, c, tr) := TCP.SetDeadline Sample.tcp_conn 0 [] in
  TCP.read_deadline_ c = 0 /\ TCP.write_deadline_ c = 0
  /\ TCP.Read Sample.os_data c 4096 tr
     = (mkResult 5 None, c, [sys_recv 7 4096])
  /\ TCP.Write Sample.os_data c "ping" tr
     = (mkResult 4 None, c, [sys_send 7 "ping" Sys.MSG_NOSIGNAL]).
Proof. vm_compute. repeat split. Qed.

(* ------------------------------------------------------------------ *)
(** ** TLS connections *)

(** C7. On a [TLSConn] with a session: a [Read] whose [SSL_read] answers 0
    (end of stream) succeeds with zero bytes; a [Read] whose [SSL_read]
    fails with [SSL_ERROR_WANT_READ] or [SSL_ERROR_WANT_WRITE] (it would
    block) succeeds with zero bytes as well; a [Write] whose [SSL_write] does
    not progress for the same reason returns the error "SSL_write would
    block". *)
Theorem TLSConn_would_block_asymmetry os c ssl count buffer tr :
  TLS.ssl_ c = Some ssl ->
  let rd := SSL_read ssl (TLS.to_int count) in
  let wr :=
    SSL_write ssl buffer (TLS.to_int (Z.of_nat (String.length buffer))) in
  (ret (reply os tr rd) = 0 ->
   TLS.Read os c count tr = (mkResult 0 None, c, tr ++ [rd]))
  /\ (forall n,
         ret (reply os tr rd) = n -> n < 0 ->
         TLS.want_read_or_write
           (ret (reply os (tr ++ [rd]) (SSL_get_error ssl n))) = true ->
         TLS.Read os c count tr
         = (mkResult 0 None, c, tr ++ [rd; SSL_get_error ssl n]))
  /\ (forall n,
         ret (reply os tr wr) = n -> n <= 0 ->
         TLS.want_read_or_write
           (ret (reply os (tr ++ [wr]) (SSL_get_error ssl n))) = true ->
         TLS.Write os c buffer tr
         = (mkResult 0 (Some (New "SSL_write would block")), c,
            tr ++ [wr; SSL_get_error ssl n])).
Proof.
  intros Hssl rd wr. subst rd wr. split; [|split].
  - intros Hz. unfold TLS.Read. rewrite Hssl. run. rewrite Hz. reflexivity.
  - intros n Hn Hneg Hwant. unfold TLS.Read. rewrite Hssl. run.
    rewrite Hn.
    replace (n >? 0) with false
      by (symmetry; rewrite Z.gtb_ltb; apply Z.ltb_ge; lia).
    replace (n =? 0) with false by (symmetry; apply Z.eqb_neq; lia).
    rewrite Hwant. rewrite <- app_assoc. reflexivity.
  - intros n Hn Hle Hwant. unfold TLS.Write. rewrite Hssl. run.
    rewrite Hn.
    replace (n >? 0) with false
      by (symmetry; rewrite Z.gtb_ltb; apply Z.ltb_ge; lia).
    rewrite Hwant. rewrite <- app_assoc. reflexivity.
Qed.

(** A [TLSConn] without session (after [close]) makes no call either; its
    [Read] and [Write] report an error of their own, not [ErrClosed]. *)
Lemma TLSConn_without_session os c count buffer tr :
  TLS.ssl_ c = None ->
  TLS.Read os c count tr
  = (mkResult 0 (Some (New "TLS connection closed")), c, tr)
  /\ TLS.Write os c buffer tr
     = (mkResult 0 (Some (New "TLS connection closed")), c, tr).
Proof.
  intros Hssl. unfold TLS.Read, TLS.Write. rewrite Hssl. split; reflexivity.
Qed.

Lemma TLSConn_would_block_asymmetry_witness :
  TLS.Read Sample.os_eof Sample.tls_conn 4096 []
  = (mkResult 0 None, Sample.tls_conn, [SSL_read 100 4096])
  /\ TLS.Read Sample.os_would_block Sample.tls_conn 4096 []
     = (mkResult 0 None, Sample.tls_conn,
        [SSL_read 100 4096; SSL_get_error 100 (-1)])
  /\ TLS.Write Sample.os_would_block Sample.tls_conn "ping" []
     = (mkResult 0 (Some (New "SSL_write would block")), Sample.tls_conn,
        [SSL_write 100 "ping" 4; SSL_get_error 100 (-1)]).
Proof.
  pose proof (@TLSConn_would_block_asymmetry
                Sample.os_eof Sample.tls_conn 100 4096 "" [] eq_refl) as He.
  pose proof (@TLSConn_would_block_asymmetry
                Sample.os_would_block Sample.tls_conn 100 4096 "ping" []
                eq_refl) as Hb.
  split; [exact (proj1 He eq_refl)|split].
  - exact (proj1 (proj2 Hb) (-1) eq_refl eq_refl eq_refl).
  - exact (proj2 (proj2 Hb) (-1) eq_refl ltac:(vm_compute; discriminate)
                 eq_refl).
Defined.

(* ------------------------------------------------------------------ *)
(** ** Address resolution *)

Lemma all_below_sound P bits :
  forall base,
    all_below bits base P = true ->
    forall p,
      base * 2 ^ Z.of_nat bits <= p < (base + 1) * 2 ^ Z.of_nat bits ->
      P p = true.
Proof.
  induction bits as [|b IH]; intros base H p Hp.
  - change (Z.of_nat 0) with 0 in Hp. rewrite Z.pow_0_r in Hp.
    assert (p = base) by lia. subst. exact H.
  - cbn [all_below] in H. apply andb_prop in H. destruct H as [H0 H1].
    rewrite Nat2Z.inj_succ, Z.pow_succ_r in Hp by lia.
    pose proof (Z.pow_pos_nonneg 2 (Z.of_nat b) ltac:(lia) ltac:(lia)) as Hx.
    set (X := 2 ^ Z.of_nat b) in *.
    destruct (Z_lt_ge_dec p ((2 * base + 1) * X)).
    + apply (IH _ H0). lia.
    + apply (IH _ H1). lia.
Qed.

Lemma all_ports_text_ok : all_below 16 0 port_text_ok = true.
Proof. vm_compute. reflexivity. Qed.

Lemma port_text_ok_range p : 0 <= p <= 65535 -> port_text_ok p = true.
Proof.
  intros Hp. apply (all_below_sound _ _ _ all_ports_text_ok).
  change (2 ^ Z.of_nat 16) with 65536. lia.
Qed.

Lemma stoi_to_string p : 0 <= p <= 65535 -> Str.stoi (Str.to_string p) = Some p.
Proof.
  intros Hp. pose proof (port_text_ok_range p Hp) as H.
  unfold port_text_ok in H. apply andb_prop in H. destruct H as [H _].
  destruct (Str.stoi (Str.to_string p)) as [q|]; [|discriminate].
  apply Z.eqb_eq in H. congruence.
Qed.

Lemma to_string_no_colon p :
  0 <= p <= 65535 -> Str.rfind_char (Str.to_string p) ":"%char = None.
Proof.
  intros Hp. pose proof (port_text_ok_range p Hp) as H.
  unfold port_text_ok in H. apply andb_prop in H. destruct H as [_ H].
  destruct (Str.rfind_char _ _); [discriminate|reflexivity].
Qed.

Lemma rfind_char_app h c d :
  Str.rfind_char d c = None ->
  Str.rfind_char (h ++ String c d)%string c = Some (String.length h).
Proof.
  intros Hd. induction h as [|a h IH]; simpl.
  - rewrite Hd, Ascii.eqb_refl. reflexivity.
  - rewrite IH. reflexivity.
Qed.

Lemma substring_app_head h r :
  substring 0 (String.length h) (h ++ r)%string = h.
Proof.
  induction h as [|a h IH]; simpl; [destruct r|rewrite IH]; reflexivity.
Qed.

Lemma substring_whole s : substring 0 (String.length s) s = s.
Proof. induction s as [|a s IH]; simpl; [|rewrite IH]; reflexivity. Qed.

Lemma substring_app_tail h r :
  substring (String.length h) (String.length r) (h ++ r)%string = r.
Proof.
  induction h as [|a h IH]; simpl; [apply substring_whole|exact IH].
Qed.

Lemma length_app_string h r :
  String.length (h ++ r)%string = (String.length h + String.length r)%nat.
Proof. induction h as [|a h IH]; simpl; [|rewrite IH]; reflexivity. Qed.

Lemma substr_from_app h r :
  Str.substr_from (h ++ r)%string (String.length h) = r.
Proof.
  unfold Str.substr_from. rewrite length_app_string.
  replace (String.length h + String.length r - String.length h)%nat
    with (String.length r) by lia.
  apply substring_app_tail.
Qed.

(** The two transports parse addresses with the same statements. *)
Lemma parseAddress_same address :
  UDP.parseAddress address = TCP.parseAddress address.
Proof. reflexivity. Qed.

Lemma parseAddress_canonical host port :
  0 <= port <= 65535 ->
  TCP.parseAddress (host ++ ":" ++ Str.to_string port)%string
  = Some (if Str.empty host then "0.0.0.0"%string else host, port).
Proof.
  intros Hp. unfold TCP.parseAddress.
  change (host ++ ":" ++ Str.to_string port)%string
    with (host ++ String ":"%char (Str.to_string port))%string.
  rewrite rfind_char_app by (apply to_string_no_colon; exact Hp).
  unfold Str.substr. rewrite substring_app_head.
  replace (String.length host + 1)%nat
    with (String.length (host ++ ":")%string)
    by (rewrite length_app_string; reflexivity).
  replace (host ++ String ":"%char (Str.to_string port))%string
    with ((host ++ ":") ++ Str.to_string port)%string.
  2:{ clear. induction host as [|a h IH]; simpl; [|rewrite IH]; reflexivity. }
  rewrite substr_from_app, stoi_to_string by exact Hp.
  replace (port <? 0) with false by (symmetry; apply Z.ltb_ge; lia).
  replace (port >? 65535) with false
    by (symmetry; rewrite Z.gtb_ltb; apply Z.ltb_ge; lia).
  reflexivity.
Qed.

Lemma parseAddress_port_range address host port :
  TCP.parseAddress address = Some (host, port) -> 0 <= port <= 65535.
Proof.
  unfold TCP.parseAddress.
  destruct (Str.rfind_char address ":"%char); [|discriminate].
  destruct (Str.stoi _) as [p|]; [|discriminate].
  destruct (p <? 0) eqn:Hlo; [discriminate|].
  destruct (p >? 65535) eqn:Hhi; [discriminate|]. simpl.
  intros H; inversion H; subst.
  apply Z.ltb_ge in Hlo. rewrite Z.gtb_ltb in Hhi. apply Z.ltb_ge in Hhi. lia.
Qed.

Lemma allowed_network_family_tcp network :
  TCP.allowed_network network = true -> network_family network = "tcp"%string.
Proof.
  unfold TCP.allowed_network. intros H.
  apply orb_prop in H.
  destruct H as [H|H]; [apply orb_prop in H; destruct H as [H|H]|];
    apply String.eqb_eq in H; subst; reflexivity.
Qed.

Lemma allowed_network_family_udp network :
  UDP.allowed_network network = true -> network_family network = "udp"%string.
Proof.
  unfold UDP.allowed_network. intros H.
  apply orb_prop in H.
  destruct H as [H|H]; [apply orb_prop in H; destruct H as [H|H]|];
    apply String.eqb_eq in H; subst; reflexivity.
Qed.

(** C6. For an allowed network name and an address that [parseAddress]
    accepts as [host] and [port], when the resolver finds the host,
    [ResolveTCPAddr] (resp. [ResolveUDPAddr]) succeeds after the single
    [getaddrinfo] call with an address whose [Network()] is the family of
    the requested network (["tcp"], resp. ["udp"]) and whose [String()] is
    the resolved IP, a colon and the port in decimal; that string is parsed
    back to the same IP and port, and the port lies in [0, 65535]. Every
    string made of a host, a colon and the decimal form of
    a port in [0, 65535] is accepted by [parseAddress], with that port and
    that host (["0.0.0.0"] for an empty host). *)
Theorem Resolve_addr_network_and_string os :
  (forall network address host port tr,
      TCP.allowed_network network = true ->
      TCP.parseAddress address = Some (host, port) ->
      let q := sys_getaddrinfo host Sys.SOCK_STREAM in
      ret (reply os tr q) = 0 ->
      exists a,
        TCP.ResolveTCPAddr os network address tr
        = (mkResult (Some a) None, tr ++ [q])
        /\ TCP.Network a = network_family network
        /\ TCP.Network a = "tcp"%string
        /\ TCP.String a
           = (reply_ip (reply os tr q) ++ ":" ++ Str.to_string port)%string
        /\ TCP.parseAddress (TCP.String a)
           = Some (if Str.empty (TCP.ip a) then "0.0.0.0"%string
                   else TCP.ip a, port)
        /\ 0 <= port <= 65535)
  /\ (forall network address host port tr,
         UDP.allowed_network network = true ->
         UDP.parseAddress address = Some (host, port) ->
         let q := sys_getaddrinfo host Sys.SOCK_DGRAM in
         ret (reply os tr q) = 0 ->
         exists a,
           UDP.ResolveUDPAddr os network address tr
           = (mkResult (Some a) None, tr ++ [q])
           /\ UDP.Network a = network_family network
           /\ UDP.Network a = "udp"%string
           /\ UDP.String a
              = (reply_ip (reply os tr q) ++ ":" ++ Str.to_string port)%string
           /\ UDP.parseAddress (UDP.String a)
              = Some (if Str.empty (UDP.ip a) then "0.0.0.0"%string
                      else UDP.ip a, port)
           /\ 0 <= port <= 65535)
  /\ (forall host port,
         0 <= port <= 65535 ->
         let address := (host ++ ":" ++ Str.to_string port)%string in
         let host' := if Str.empty host then "0.0.0.0"%string else host in
         TCP.parseAddress address = Some (host', port)
         /\ UDP.parseAddress address = Some (host', port)).
Proof.
  split; [|split].
  - intros network address host port tr Hnet Hparse q Hq.
    exists (TCP.mkTCPAddr (reply_ip (reply os tr q)) port).
    unfold TCP.ResolveTCPAddr. rewrite Hnet, Hparse. run.
    fold q. rewrite Hq. simpl.
    rewrite (allowed_network_family_tcp _ Hnet).
    pose proof (parseAddress_port_range _ _ _ Hparse) as Hport.
    repeat split; try apply Hport.
    unfold TCP.String. simpl. apply parseAddress_canonical. exact Hport.
  - intros network address host port tr Hnet Hparse q Hq.
    exists (UDP.mkUDPAddr (reply_ip (reply os tr q)) port).
    unfold UDP.ResolveUDPAddr. rewrite Hnet, Hparse. run.
    fold q. rewrite Hq. simpl.
    rewrite (allowed_network_family_udp _ Hnet).
    change (TCP.parseAddress address = Some (host, port)) in Hparse.
    pose proof (parseAddress_port_range _ _ _ Hparse) as Hport.
    repeat split; try apply Hport.
    unfold UDP.String. simpl.
    change (UDP.parseAddress ?x) with (TCP.parseAddress x).
    apply parseAddress_canonical. exact Hport.
  - intros host port Hp address host'. subst address host'.
    split; [|change (UDP.parseAddress ?a) with (TCP.parseAddress a)];
      apply parseAddress_canonical; exact Hp.
Qed.

Lemma Resolve_addr_network_and_string_witness :
  exists a,
    TCP.ResolveTCPAddr Sample.os_localhost "tcp4" "localhost:8080" []
    = (mkResult (Some a) None, [sys_getaddrinfo "localhost" Sys.SOCK_STREAM])
    /\ TCP.Network a = "tcp"%string
    /\ TCP.String a = "127.0.0.1:8080"%string.
Proof.
  destruct (proj1 (Resolve_addr_network_and_string Sample.os_localhost)
              "tcp4"%string "localhost:8080"%string "localhost"%string
              8080 [] eq_refl eq_refl eq_refl)
    as (a & Hres & _ & Hnet & Hstr & _ & _).
  exists a. repeat split; assumption.
Defined.

(* ------------------------------------------------------------------ *)
(** ** URL handling of the HTTP client *)

Lemma starts_with_prefix s pat : HTTP.starts_with s pat = prefix pat s.
Proof.
  unfold HTTP.starts_with, Str.find. destruct s as [|b s'].
  - destruct pat; reflexivity.
  - cbn [index]. destruct (prefix pat (String b s')); [reflexivity|].
    destruct (index 0 pat s'); reflexivity.
Qed.

Lemma find_char_absent c s :
  contains_char c s = false -> Str.find_char s c = None.
Proof.
  unfold Str.find_char. induction s as [|b s IH]; intros H.
  - reflexivity.
  - cbn [contains_char] in H. apply orb_false_elim in H. destruct H as [Hb Hs].
    cbn [index]. simpl (prefix _ _).
    destruct (ascii_dec c b) as [->|_].
    + rewrite Ascii.eqb_refl in Hb. discriminate.
    + rewrite (IH Hs). reflexivity.
Qed.

Lemma find_char_present c s :
  contains_char c s = true -> exists n, Str.find_char s c = Some n.
Proof.
  unfold Str.find_char. induction s as [|b s IH]; intros H.
  - discriminate.
  - cbn [contains_char] in H. cbn [index]. simpl (prefix _ _).
    destruct (ascii_dec c b) as [->|Hne].
    + destruct s; eexists; reflexivity.
    + destruct (Ascii.eqb b c) eqn:Hb.
      * apply Ascii.eqb_eq in Hb. congruence.
      * destruct (IH H) as [n Hn]. rewrite Hn. eexists; reflexivity.
Qed.

Lemma find_char_app c a q :
  contains_char c a = false ->
  Str.find_char (a ++ String c q)%string c = Some (String.length a).
Proof.
  unfold Str.find_char. induction a as [|b a IH]; intros H.
  - simpl append. cbn [index]. simpl (prefix _ _).
    destruct (ascii_dec c c) as [_|Hne]; [|congruence].
    destruct q; reflexivity.
  - cbn [contains_char] in H. apply orb_false_elim in H. destruct H as [Hb Ha].
    simpl append. cbn [index]. simpl (prefix _ _).
    destruct (ascii_dec c b) as [->|_].
    + rewrite Ascii.eqb_refl in Hb. discriminate.
    + rewrite (IH Ha). reflexivity.
Qed.

Lemma append_empty_r s : (s ++ "")%string = s.
Proof. induction s as [|a s IH]; simpl; [|rewrite IH]; reflexivity. Qed.

Lemma append_assoc_string a b c :
  ((a ++ b) ++ c)%string = (a ++ (b ++ c))%string.
Proof. induction a as [|x a IH]; simpl; [|rewrite IH]; reflexivity. Qed.

Lemma split_rest_spec a p :
  contains_char "/" a = false ->
  (p = ""%string \/ exists q, p = String "/" q) ->
  HTTP.split_rest (a ++ p)
  = (a, if Str.empty p then "/"%string else p).
Proof.
  intros Ha [->|[q ->]]; unfold HTTP.split_rest.
  - rewrite append_empty_r, (find_char_absent _ _ Ha). reflexivity.
  - rewrite (find_char_app _ _ _ Ha). unfold Str.substr.
    rewrite substring_app_head, substr_from_app. reflexivity.
Qed.

Lemma add_default_port_spec a d :
  HTTP.add_default_port a d
  = if contains_char ":" a then a else (a ++ ":" ++ Str.to_string d)%string.
Proof.
  unfold HTTP.add_default_port.
  destruct (contains_char ":" a) eqn:Hc.
  - destruct (find_char_present _ _ Hc) as [n ->]. reflexivity.
  - rewrite (find_char_absent _ _ Hc). reflexivity.
Qed.

(** Every string splits into a part without slash and a rest that is empty
    or begins with a slash. *)
Lemma rest_splits rest :
  exists a p,
    rest = (a ++ p)%string
    /\ contains_char "/" a = false
    /\ (p = ""%string \/ exists q, p = String "/" q).
Proof.
  induction rest as [|b r (a & p & Hr & Ha & Hp)].
  - exists ""%string, ""%string. repeat split. left; reflexivity.
  - destruct (Ascii.eqb b "/") eqn:Hb.
    + apply Ascii.eqb_eq in Hb. subst b.
      exists ""%string, (String "/" r). repeat split.
      right; eexists; reflexivity.
    + exists (String b a), p. subst r. repeat split.
      * cbn [contains_char]. rewrite Hb, Ha. reflexivity.
      * exact Hp.
Qed.

Lemma prefix_app pat r : prefix pat (pat ++ r) = true.
Proof.
  induction pat as [|c pat IH]; simpl.
  - destruct r; reflexivity.
  - destruct (ascii_dec c c); [exact IH|congruence].
Qed.

(** C9. A URL that begins neither with "http://" nor with "https://" makes
    [Get] and [Post] return the invalid-URL error at once: no call is made
    (the trace is unchanged) and nothing is done with a connection. A URL
    made of a scheme, an address without slash and a rest that is empty or
    begins with a slash is taken apart into that address, with ":80" (http)
    or ":443" (https) appended when it holds no colon, and that rest as the
    path, "/" when the rest is empty; [Get] and [Post] then connect to this
    target. Every URL with one of the two schemes has that form. *)
Theorem client_url_handling os gx px :
  (forall url content_type body tr,
      prefix "http://" url = false ->
      prefix "https://" url = false ->
      HTTP.Get os gx url tr
      = (mkResult HTTP.new_Response (Some HTTP.invalid_url), tr)
      /\ HTTP.Post os px url content_type body tr
         = (mkResult HTTP.new_Response (Some HTTP.invalid_url), tr))
  /\ (forall (https : bool) a p,
         contains_char "/" a = false ->
         (p = ""%string \/ exists q, p = String "/" q) ->
         let scheme := if https then "https://"%string else "http://"%string in
         let default_port := if https then 443 else 80 in
         let target :=
           HTTP.mkTarget https
             (if contains_char ":" a then a
              else (a ++ ":" ++ Str.to_string default_port)%string)
             (if Str.empty p then "/"%string else p) in
         HTTP.url_target (scheme ++ a ++ p) = Some target
         /\ (forall content_type body tr,
                HTTP.Get os gx (scheme ++ a ++ p) tr
                = (let (c, tr') := HTTP.connect os target tr in
                   match err c, value c with
                   | Some e, _ => (mkResult HTTP.new_Response (Some e), tr')
                   | None, Some conn => gx conn target tr'
                   | None, None => (mkResult HTTP.new_Response None, tr')
                   end)
                /\ HTTP.Post os px (scheme ++ a ++ p) content_type body tr
                   = (let (c, tr') := HTTP.connect os target tr in
                      match err c, value c with
                      | Some e, _ => (mkResult HTTP.new_Response (Some e), tr')
                      | None, Some conn =>
                          px conn target content_type body tr'
                      | None, None => (mkResult HTTP.new_Response None, tr')
                      end)))
  /\ (forall url,
         prefix "http://" url = true \/ prefix "https://" url = true ->
         exists (https : bool) a p,
           url = ((if https then "https://" else "http://") ++ a ++ p)%string
           /\ contains_char "/" a = false
           /\ (p = ""%string \/ exists q, p = String "/" q)).
Proof.
  split; [|split].
  - intros url content_type body tr Hhttp Hhttps.
    unfold HTTP.Get, HTTP.Post, HTTP.url_target.
    rewrite !starts_with_prefix, Hhttp, Hhttps. split; reflexivity.
  - intros https a p Ha Hp scheme default_port target.
    assert (Ht : HTTP.url_target (scheme ++ a ++ p) = Some target).
    { unfold HTTP.url_target. rewrite !starts_with_prefix.
      subst scheme default_port target. destruct https.
      - cbv iota. rewrite prefix_app.
        change 8%nat with (String.length "https://").
        rewrite substr_from_app, (split_rest_spec a p Ha Hp),
          add_default_port_spec.
        reflexivity.
      - cbv iota.
        change (prefix "https://" ("http://" ++ a ++ p)) with false.
        rewrite prefix_app.
        change 7%nat with (String.length "http://").
        rewrite substr_from_app, (split_rest_spec a p Ha Hp),
          add_default_port_spec.
        reflexivity. }
    split; [exact Ht|].
    intros content_type body tr. unfold HTTP.Get, HTTP.Post. rewrite Ht.
    unfold mbind, mret. destruct (HTTP.connect os target tr) as [c tr'].
    destruct (err c), (value c); split; reflexivity.
  - intros url Hurl.
    assert (Hrest :
              exists (https : bool) rest,
                url
                = ((if https then "https://" else "http://") ++ rest)%string).
    { destruct Hurl as [H|H]; apply prefix_correct in H.
      - exists false. exists (Str.substr_from url 7).
        rewrite <- H at 1. clear H.
        change 7%nat with (String.length "http://").
        unfold Str.substr_from.
        generalize (String.length "http://"). revert url.
        induction url as [|b u IH]; intros n.
        + destruct n; reflexivity.
        + destruct n; simpl.
          * rewrite substring_whole. reflexivity.
          * rewrite <- IH. reflexivity.
      - exists true. exists (Str.substr_from url 8).
        rewrite <- H at 1. clear H.
        change 8%nat with (String.length "https://").
        unfold Str.substr_from.
        generalize (String.length "https://"). revert url.
        induction url as [|b u IH]; intros n.
        + destruct n; reflexivity.
        + destruct n; simpl.
          * rewrite substring_whole. reflexivity.
          * rewrite <- IH. reflexivity. }
    destruct Hrest as (https & rest & ->).
    destruct (rest_splits rest) as (a & p & -> & Ha & Hp).
    exists https, a, p. repeat split; assumption.
Qed.

Lemma client_url_handling_witness :
  HTTP.Get Sample.os_eof SampleHTTP.no_exchange_get "ftp://example.com/" []
  = (mkResult HTTP.new_Response (Some HTTP.invalid_url), [])
  /\ HTTP.url_target "http://example.com/index.html"
     = Some (HTTP.mkTarget false "example.com:80" "/index.html")
  /\ HTTP.url_target "https://example.com:8443"
     = Some (HTTP.mkTarget true "example.com:8443" "/").
Proof.
  pose proof (client_url_handling Sample.os_eof SampleHTTP.no_exchange_get
                SampleHTTP.no_exchange_post) as (Hbad & Hgood & _).
  split; [|split].
  - exact (proj1 (Hbad "ftp://example.com/"%string ""%string ""%string []
                    eq_refl eq_refl)).
  - exact (proj1 (Hgood false "example.com"%string "/index.html"%string
                    eq_refl (or_intror (ex_intro _ "index.html"%string
                                          eq_refl)))).
  - exact (proj1 (Hgood true "example.com:8443"%string ""%string
                    eq_refl (or_introl eq_refl))).
Defined.

(* ------------------------------------------------------------------ *)
(** ** The response writer *)

Lemma emitted_app tr1 tr2 : emitted (tr1 ++ tr2) = emitted tr1 ++ emitted tr2.
Proof.
  induction tr1 as [|c tr1 IH]; simpl; [reflexivity|].
  destruct c; simpl; rewrite ?IH; reflexivity.
Qed.

(** A [Write] on a live connection hands its data over once, and leaves the
    connection object as it was. *)
Lemma conn_Write_emits os c data tr :
  live c = true ->
  exists r tr',
    HTTP.conn_Write os c data tr = (r, c, tr')
    /\ emitted tr' = emitted tr ++ [data].
Proof.
  destruct c as [t|t]; simpl; intros Hlive.
  - apply negb_true_iff in Hlive. unfold TCP.Write. rewrite Hlive. run.
    destruct (ret _ <? 0); simpl; eexists; eexists;
      (split; [reflexivity|rewrite emitted_app; reflexivity]).
  - unfold TLS.Write. destruct (TLS.ssl_ t) as [ssl|]; [|discriminate]. run.
    destruct (ret _ >? 0); simpl.
    + eexists; eexists; split; [reflexivity|rewrite emitted_app; reflexivity].
    + destruct (TLS.want_read_or_write _); simpl; eexists; eexists;
        (split; [reflexivity
                |rewrite !emitted_app; simpl; rewrite app_nil_r; reflexivity]).
Qed.

Lemma WriteHeader_first os w code tr :
  live (HTTP.conn_ w) = true ->
  HTTP.headers_written_ w = false ->
  exists tr',
    HTTP.WriteHeader os w code tr
    = (HTTP.mkResponseWriterImpl (HTTP.conn_ w) code true (HTTP.headers_ w),
       tr')
    /\ emitted tr'
       = emitted tr ++ [HTTP.response_head code (HTTP.headers_ w)].
Proof.
  intros Hlive Hw. unfold HTTP.WriteHeader. rewrite Hw. unfold mbind, mret.
  destruct (conn_Write_emits os (HTTP.conn_ w)
              (HTTP.response_head code (HTTP.headers_ w)) tr Hlive)
    as (r & tr' & Hwr & Hem).
  rewrite Hwr. simpl. exists tr'. split; [reflexivity|exact Hem].
Qed.

Lemma WriteHeader_again os w code tr :
  HTTP.headers_written_ w = true -> HTTP.WriteHeader os w code tr = (w, tr).
Proof. intros Hw. unfold HTTP.WriteHeader. rewrite Hw. reflexivity. Qed.

Lemma Write_flushed os w data tr :
  live (HTTP.conn_ w) = true ->
  HTTP.headers_written_ w = true ->
  exists r tr',
    HTTP.Write os w data tr = (r, w, tr')
    /\ emitted tr' = emitted tr ++ [data].
Proof.
  intros Hlive Hw. unfold HTTP.Write. rewrite Hw. unfold mbind, mret. simpl.
  destruct (conn_Write_emits os (HTTP.conn_ w) data tr Hlive)
    as (r & tr' & Hwr & Hem).
  rewrite Hwr. simpl. exists r, tr'. split; [|exact Hem].
  destruct w; reflexivity.
Qed.

Lemma Write_unflushed os w data tr :
  live (HTTP.conn_ w) = true ->
  HTTP.headers_written_ w = false ->
  exists r tr',
    HTTP.Write os w data tr
    = (r,
       HTTP.mkResponseWriterImpl (HTTP.conn_ w) (HTTP.status_code_ w) true
                                 (HTTP.headers_ w),
       tr')
    /\ emitted tr'
       = emitted tr
         ++ [HTTP.response_head (HTTP.status_code_ w) (HTTP.headers_ w); data].
Proof.
  intros Hlive Hw. unfold HTTP.Write. rewrite Hw. unfold mbind, mret. simpl.
  destruct (WriteHeader_first os w (HTTP.status_code_ w) tr Hlive Hw)
    as (tr1 & Hwh & Hem1).
  rewrite Hwh. simpl.
  destruct (conn_Write_emits os (HTTP.conn_ w) data tr1 Hlive)
    as (r & tr' & Hwr & Hem).
  rewrite Hwr. simpl. exists r, tr'. split; [reflexivity|].
  rewrite Hem, Hem1, <- app_assoc. reflexivity.
Qed.

Lemma run_ops_refines_spec os ops :
  forall w tr,
    live (HTTP.conn_ w) = true ->
    writer_inv w ->
    emitted (snd (run_ops os w ops tr))
    = emitted tr
      ++ spec_output (HTTP.headers_written_ w) (HTTP.headers_ w) ops.
Proof.
  induction ops as [|op ops IH]; intros w tr Hlive Hinv.
  - simpl. rewrite app_nil_r. reflexivity.
  - destruct op as [headers|code|data]; cbn [run_ops run_op spec_output].
    + unfold mbind, mret. rewrite IH; [reflexivity|exact Hlive|exact Hinv].
    + unfold mbind. destruct (HTTP.headers_written_ w) eqn:Hw.
      * rewrite WriteHeader_again by exact Hw.
        rewrite IH by assumption. rewrite Hw. reflexivity.
      * destruct (WriteHeader_first os w code tr Hlive Hw) as (tr1 & -> & Hem).
        rewrite IH; [|exact Hlive|intros H; discriminate H].
        simpl. rewrite Hem, <- app_assoc. reflexivity.
    + unfold mbind, mret. destruct (HTTP.headers_written_ w) eqn:Hw.
      * destruct (Write_flushed os w data tr Hlive Hw) as (r & tr1 & -> & Hem).
        simpl. rewrite IH by assumption.
        rewrite Hw, Hem, <- app_assoc. reflexivity.
      * destruct (Write_unflushed os w data tr Hlive Hw)
          as (r & tr1 & -> & Hem).
        simpl. rewrite IH; [|exact Hlive|intros H; discriminate H].
        simpl. rewrite Hem, (Hinv Hw), <- app_assoc. reflexivity.
Qed.

(** On a connection that is not live, a [Write] makes no call. *)
Lemma conn_Write_dead os c data tr :
  live c = false ->
  exists r, HTTP.conn_Write os c data tr = (r, c, tr).
Proof.
  destruct c as [t|t]; simpl; intros Hdead.
  - apply negb_false_iff in Hdead. unfold TCP.Write. rewrite Hdead. run.
    eexists; reflexivity.
  - unfold TLS.Write. destruct (TLS.ssl_ t); [discriminate|]. run.
    eexists; reflexivity.
Qed.

Lemma run_ops_dead_connection os ops :
  forall w tr,
    live (HTTP.conn_ w) = false ->
    snd (run_ops os w ops tr) = tr.
Proof.
  induction ops as [|op ops IH]; intros w tr Hdead; [reflexivity|].
  destruct op as [headers|code|data]; cbn [run_ops run_op];
    unfold mbind, mret.
  - apply IH. exact Hdead.
  - unfold HTTP.WriteHeader. destruct (HTTP.headers_written_ w).
    + apply IH. exact Hdead.
    + unfold mbind, mret.
      destruct (conn_Write_dead os (HTTP.conn_ w)
                  (HTTP.response_head code (HTTP.headers_ w)) tr Hdead)
        as [r ->].
      apply IH. exact Hdead.
  - unfold HTTP.Write, HTTP.WriteHeader.
    destruct (HTTP.headers_written_ w); unfold mbind, mret; simpl.
    + destruct (conn_Write_dead os (HTTP.conn_ w) data tr Hdead) as [r ->].
      apply IH. exact Hdead.
    + destruct (conn_Write_dead os (HTTP.conn_ w)
                  (HTTP.response_head (HTTP.status_code_ w) (HTTP.headers_ w))
                  tr Hdead) as [r ->].
      simpl.
      destruct (conn_Write_dead os (HTTP.conn_ w) data tr Hdead) as [r' ->].
      apply IH. exact Hdead.
Qed.

Lemma spec_output_flushed headers ops :
  spec_output true headers ops = bodies ops.
Proof.
  revert headers. induction ops as [|op ops IH]; intros headers.
  - reflexivity.
  - destruct op; simpl; rewrite ?IH; reflexivity.
Qed.

Lemma spec_output_one_status_line ops :
  forall headers,
    spec_output false headers ops = []
    \/ exists code headers',
         spec_output false headers ops
         = HTTP.response_head code headers' :: bodies ops.
Proof.
  induction ops as [|op ops IH]; intros headers.
  - left; reflexivity.
  - destruct op as [headers'|code|data]; simpl.
    + apply IH.
    + right. exists code, headers. rewrite spec_output_flushed. reflexivity.
    + right. exists 200, headers. rewrite spec_output_flushed. reflexivity.
Qed.

Lemma header_lines_from acc headers :
  fold_left (fun a kv => (a ++ fst kv ++ ": " ++ snd kv ++ HTTP.CRLF)%string)
            headers acc
  = (acc ++ HTTP.header_lines headers)%string.
Proof.
  unfold HTTP.header_lines. revert acc.
  induction headers as [|kv headers IH]; intros acc.
  - simpl. rewrite append_empty_r. reflexivity.
  - simpl. rewrite IH, (IH (fst kv ++ _)%string), append_assoc_string.
    reflexivity.
Qed.

Lemma header_lines_cons k v headers :
  HTTP.header_lines ((k, v) :: headers)
  = (k ++ ": " ++ v ++ HTTP.CRLF ++ HTTP.header_lines headers)%string.
Proof.
  unfold HTTP.header_lines at 1. simpl. rewrite header_lines_from.
  rewrite append_assoc_string. simpl. rewrite append_assoc_string.
  reflexivity.
Qed.

(** C2. The status line carries the canonical phrase of 200, 201, 400, 404
    and 500 and "Unknown" for every other code, and is followed by one line
    per header and a blank line. On a live connection, the first
    [WriteHeader] puts exactly that block on the wire and latches the code;
    a [WriteHeader] on a writer whose block is out does nothing at all; a
    [Write] on a fresh writer puts the block of code 200 and then the data.
    Over any sequence of operations on a fresh writer, what goes on the wire
    is what the specification says: nothing, or one block followed only by
    the data of the [Write] calls. (Over a connection that is closed
    already, the same operations put nothing on the wire.) *)
Theorem ResponseWriter_status_line_latch os :
  (HTTP.status_text 200 = "OK"%string
   /\ HTTP.status_text 201 = "Created"%string
   /\ HTTP.status_text 400 = "Bad Request"%string
   /\ HTTP.status_text 404 = "Not Found"%string
   /\ HTTP.status_text 500 = "Internal Server Error"%string
   /\ forall code,
        code <> 200 -> code <> 201 -> code <> 400 -> code <> 404 ->
        code <> 500 -> HTTP.status_text code = "Unknown"%string)
  /\ (forall code headers,
         HTTP.response_head code headers
         = ("HTTP/1.1 " ++ Str.to_string code ++ " " ++ HTTP.status_text code
            ++ HTTP.CRLF ++ HTTP.header_lines headers ++ HTTP.CRLF)%string
         /\ HTTP.header_lines [] = ""%string
         /\ forall k v,
              HTTP.header_lines ((k, v) :: headers)
              = (k ++ ": " ++ v ++ HTTP.CRLF
                 ++ HTTP.header_lines headers)%string)
  /\ (forall w code tr,
         live (HTTP.conn_ w) = true ->
         HTTP.headers_written_ w = false ->
         exists tr',
           HTTP.WriteHeader os w code tr
           = (HTTP.mkResponseWriterImpl (HTTP.conn_ w) code true
                                        (HTTP.headers_ w), tr')
           /\ emitted tr'
              = emitted tr ++ [HTTP.response_head code (HTTP.headers_ w)])
  /\ (forall w code tr,
         HTTP.headers_written_ w = true ->
         HTTP.WriteHeader os w code tr = (w, tr))
  /\ (forall conn data tr,
         live conn = true ->
         exists r w' tr',
           HTTP.Write os (HTTP.new_ResponseWriterImpl conn) data tr
           = (r, w', tr')
           /\ HTTP.headers_written_ w' = true
           /\ HTTP.status_code_ w' = 200
           /\ emitted tr' = emitted tr ++ [HTTP.response_head 200 []; data])
  /\ (forall conn ops tr,
         live conn = true ->
         emitted (snd (run_ops os (HTTP.new_ResponseWriterImpl conn) ops tr))
         = emitted tr ++ spec_output false [] ops
         /\ (spec_output false [] ops = []
             \/ exists code headers,
                  spec_output false [] ops
                  = HTTP.response_head code headers :: bodies ops))
  /\ (forall conn ops tr,
         live conn = false ->
         snd (run_ops os (HTTP.new_ResponseWriterImpl conn) ops tr) = tr).
Proof.
  split; [|split; [|split; [|split; [|split; [|split]]]]].
  - repeat split. intros code H1 H2 H3 H4 H5. unfold HTTP.status_text.
    repeat match goal with
           | H : code <> ?k |- context [code =? ?k] =>
               replace (code =? k) with false
                 by (symmetry; apply Z.eqb_neq; exact H)
           end.
    reflexivity.
  - intros code headers. repeat split. intros k v. apply header_lines_cons.
  - intros w code tr. apply WriteHeader_first.
  - intros w code tr. apply WriteHeader_again.
  - intros conn data tr Hlive.
    destruct (Write_unflushed os (HTTP.new_ResponseWriterImpl conn) data tr
                Hlive eq_refl) as (r & tr' & Hw & Hem).
    eexists; eexists; eexists. split; [exact Hw|].
    repeat split. exact Hem.
  - intros conn ops tr Hlive. split.
    + apply (run_ops_refines_spec os ops (HTTP.new_ResponseWriterImpl conn) tr
               Hlive).
      intros _. reflexivity.
    + apply spec_output_one_status_line.
  - intros conn ops tr Hdead. apply run_ops_dead_connection. exact Hdead.
Qed.

Lemma ResponseWriter_status_line_latch_witness :
  emitted (snd (run_ops Sample.os_eof
                  (HTTP.new_ResponseWriterImpl SampleHTTP.plain)
                  [op_WriteHeader 201; op_WriteHeader 404] []))
  = [("HTTP/1.1 201 Created" ++ HTTP.CRLF ++ HTTP.CRLF)%string]
  /\ emitted (snd (run_ops Sample.os_eof
                     (HTTP.new_ResponseWriterImpl SampleHTTP.plain)
                     [op_Write "x"] []))
     = [("HTTP/1.1 200 OK" ++ HTTP.CRLF ++ HTTP.CRLF)%string; "x"%string].
Proof.
  pose proof (ResponseWriter_status_line_latch Sample.os_eof)
    as (_ & _ & _ & _ & _ & Hrun & _).
  split.
  - exact (proj1 (Hrun SampleHTTP.plain
                    [op_WriteHeader 201; op_WriteHeader 404] [] eq_refl)).
  - exact (proj1 (Hrun SampleHTTP.plain [op_Write "x"%string] [] eq_refl)).
Defined.

(* ------------------------------------------------------------------ *)
(** ** The order on keys and the invariant of [std::map] *)

Lemma ascii_compare_lt_trans a b c :
  Ascii.compare a b = Lt -> Ascii.compare b c = Lt -> Ascii.compare a c = Lt.
Proof.
  unfold Ascii.compare. rewrite !N.compare_lt_iff. apply N.lt_trans.
Qed.

Lemma key_lt_trans k1 k2 k3 : key_lt k1 k2 -> key_lt k2 k3 -> key_lt k1 k3.
Proof.
  unfold key_lt. revert k2 k3.
  induction k1 as [|a k1 IH]; intros [|b k2] [|c k3]; simpl;
    try discriminate; try reflexivity.
  destruct (Ascii.compare a b) eqn:Hab; try discriminate.
  - apply Ascii.compare_eq_iff in Hab. subst b.
    destruct (Ascii.compare a c); try discriminate; [apply IH|reflexivity].
  - intros _. destruct (Ascii.compare b c) eqn:Hbc; try discriminate.
    + apply Ascii.compare_eq_iff in Hbc. subst c. rewrite Hab. reflexivity.
    + rewrite (ascii_compare_lt_trans a b c Hab Hbc). reflexivity.
Qed.

Lemma key_lt_irrefl k : ~ key_lt k k.
Proof.
  unfold key_lt. intros H. pose proof (String.compare_antisym k k) as Ha.
  rewrite H in Ha. discriminate.
Qed.

Lemma map_wf_NoDup {V} (m : StdMap.t V) : map_wf m -> NoDup (StdMap.keys m).
Proof.
  unfold map_wf. intros Hs.
  apply Sorted_StronglySorted in Hs;
    [|intros x y z; apply key_lt_trans].
  induction Hs as [|k ks Hs IH Hall]; constructor; [|exact IH].
  intros Hin. rewrite Forall_forall in Hall.
  exact (key_lt_irrefl k (Hall k Hin)).
Qed.

Lemma assign_HdRel {V} k0 k (v : V) m :
  key_lt k0 k -> HdRel key_lt k0 (StdMap.keys m) ->
  HdRel key_lt k0 (StdMap.keys (StdMap.assign k v m)).
Proof.
  intros Hk Hm. destruct m as [|[k' v'] m]; simpl.
  - constructor. exact Hk.
  - destruct (String.compare k k'); simpl; constructor;
      try exact Hk. inversion Hm; assumption.
Qed.

Lemma assign_wf {V} k (v : V) m : map_wf m -> map_wf (StdMap.assign k v m).
Proof.
  unfold map_wf. induction m as [|[k' v'] m IH]; intros Hs; simpl.
  - repeat constructor.
  - inversion Hs as [|? ? Hs' Hhd]; subst.
    destruct (String.compare k k') eqn:Hc; simpl.
    + apply String.compare_eq_iff in Hc. subst k'.
      constructor; assumption.
    + constructor; [exact Hs|]. constructor. exact Hc.
    + constructor; [apply IH; exact Hs'|].
      apply assign_HdRel; [|exact Hhd].
      unfold key_lt. rewrite String.compare_antisym, Hc. reflexivity.
Qed.

(** Every mux the program can build keeps the invariant. *)
Lemma new_ServeMux_wf : mux_wf HTTP.new_ServeMux.
Proof. constructor. Qed.

Lemma HandleFunc_wf mux pattern handler :
  mux_wf mux -> mux_wf (HTTP.HandleFunc mux pattern handler).
Proof. apply assign_wf. Qed.

Lemma built_wf mux : built mux -> mux_wf mux.
Proof.
  induction 1 as [|mux pattern handler _ IH].
  - apply new_ServeMux_wf.
  - apply HandleFunc_wf, IH.
Qed.

Lemma find_In {V} k (v : V) m : StdMap.find k m = Some v -> In (k, v) m.
Proof.
  induction m as [|[k' v'] m IH]; simpl; [discriminate|].
  destruct (String.eqb k k') eqn:Hk.
  - apply String.eqb_eq in Hk. intros H; inversion H; subst. left; reflexivity.
  - intros H. right. apply IH, H.
Qed.

Lemma In_find {V} k (v : V) m :
  NoDup (StdMap.keys m) -> In (k, v) m -> StdMap.find k m = Some v.
Proof.
  induction m as [|[k' v'] m IH]; simpl; intros Hnd Hin; [contradiction|].
  inversion Hnd as [|? ? Hnotin Hnd']; subst.
  destruct Hin as [Heq|Hin].
  - inversion Heq; subst. rewrite String.eqb_refl. reflexivity.
  - destruct (String.eqb k k') eqn:Hk.
    + apply String.eqb_eq in Hk. subst k'. exfalso. apply Hnotin.
      apply in_map_iff. exists (k, v). split; [reflexivity|exact Hin].
    + apply IH; assumption.
Qed.

Lemma find_assign_same {V} k (v : V) m :
  StdMap.find k (StdMap.assign k v m) = Some v.
Proof.
  induction m as [|[k' v'] m IH]; simpl.
  - rewrite String.eqb_refl. reflexivity.
  - destruct (String.compare k k') eqn:Hc; simpl.
    + rewrite String.eqb_refl. reflexivity.
    + rewrite String.eqb_refl. reflexivity.
    + destruct (String.eqb k k') eqn:Hk; [|exact IH].
      apply String.eqb_eq in Hk. subst k'.
      exfalso. exact (key_lt_irrefl k
                        ltac:(unfold key_lt;
                              rewrite String.compare_antisym, Hc; reflexivity)).
Qed.

(* ------------------------------------------------------------------ *)
(** ** Routing *)

Lemma prefix_same_length p q u :
  prefix p u = true -> prefix q u = true ->
  String.length p = String.length q -> p = q.
Proof.
  intros Hp Hq Hlen. apply prefix_correct in Hp. apply prefix_correct in Hq.
  rewrite <- Hp, <- Hq, Hlen. reflexivity.
Qed.

Lemma prefix_step_spec u lm mh p h :
  HTTP.prefix_step u (lm, mh) (p, h)
  = if prefix p u && (String.length lm <? String.length p)%nat
    then (p, h) else (lm, mh).
Proof.
  unfold HTTP.prefix_step.
  change (match Str.find u p with Some O => true | _ => false end)
    with (HTTP.starts_with u p).
  rewrite starts_with_prefix. reflexivity.
Qed.

(** The loop keeps its state when no pattern beats the current match. *)
Lemma prefix_loop_keeps {u} l :
  forall lm mh,
    (forall q, In q (StdMap.keys l) -> prefix q u = true ->
               (String.length q <= String.length lm)%nat) ->
    fold_left (HTTP.prefix_step u) l (lm, mh) = (lm, mh).
Proof.
  induction l as [|[q hq] l IH]; intros lm mh Hmax; [reflexivity|].
  cbn [fold_left]. rewrite prefix_step_spec.
  destruct (prefix q u) eqn:Hq; simpl.
  - pose proof (Hmax q (or_introl eq_refl) Hq) as Hle.
    replace (String.length lm <? String.length q)%nat with false
      by (symmetry; apply Nat.ltb_ge; exact Hle).
    apply IH. intros q' Hin. apply Hmax. right; exact Hin.
  - apply IH. intros q' Hin. apply Hmax. right; exact Hin.
Qed.

(** The loop ends on the longest registered prefix, when that one is longer
    than the match the loop starts from. *)
Lemma prefix_loop_finds {u} l :
  forall lm mh p h,
    NoDup (StdMap.keys l) ->
    In (p, h) l ->
    prefix p u = true ->
    (String.length lm < String.length p)%nat ->
    (forall q, In q (StdMap.keys l) -> prefix q u = true ->
               (String.length q <= String.length p)%nat) ->
    fold_left (HTTP.prefix_step u) l (lm, mh) = (p, h).
Proof.
  induction l as [|[q hq] l IH]; intros lm mh p h Hnd Hin Hp Hlt Hmax;
    [contradiction|].
  inversion Hnd as [|? ? Hnotin Hnd']; subst.
  cbn [fold_left]. rewrite prefix_step_spec.
  assert (Hmax' : forall q', In q' (StdMap.keys l) -> prefix q' u = true ->
                             (String.length q' <= String.length p)%nat).
  { intros q' Hq'. apply Hmax. right; exact Hq'. }
  destruct Hin as [Heq|Hin].
  - inversion Heq; subst q hq. rewrite Hp. simpl.
    replace (String.length lm <? String.length p)%nat with true
      by (symmetry; apply Nat.ltb_lt; exact Hlt).
    apply prefix_loop_keeps. exact Hmax'.
  - assert (Hqp : q <> p).
    { intros ->. apply Hnotin. apply in_map_iff.
      exists (p, h). split; [reflexivity|exact Hin]. }
    destruct (prefix q u) eqn:Hq; simpl.
    + pose proof (Hmax q (or_introl eq_refl) Hq) as Hle.
      assert (Hlen : (String.length q < String.length p)%nat).
      { destruct (Nat.eq_dec (String.length q) (String.length p)) as [He|Hn];
          [|lia].
        exfalso. apply Hqp. exact (prefix_same_length q p u Hq Hp He). }
      destruct (String.length lm <? String.length q)%nat;
        apply IH; assumption.
    + apply IH; assumption.
Qed.

Lemma empty_false_iff s : Str.empty s = false <-> s <> ""%string.
Proof. destruct s; simpl; split; congruence. Qed.

(** C1, as the code has it. On a mux kept as [std::map] keeps it: a request
    whose URL is a registered pattern goes to the handler of that pattern;
    otherwise it goes to the handler of the longest non-empty registered
    pattern that is a prefix of the URL; and when no non-empty registered
    pattern is a prefix of the URL, [ServeHTTP] calls [WriteHeader(404)] and
    [Write("404 page not found\n")], which on a fresh writer over a live
    connection puts the 404 status line, a blank line and that body on the
    wire. *)
Theorem ServeMux_routing os mux w req :
  mux_wf mux ->
  let u := HTTP.url req in
  let registered q := In q (StdMap.keys (HTTP.handlers_ mux)) in
  (forall h,
      StdMap.find u (HTTP.handlers_ mux) = Some h ->
      HTTP.ServeHTTP os mux w req = HTTP.invoke h w req)
  /\ (forall p h,
         StdMap.find u (HTTP.handlers_ mux) = None ->
         StdMap.find p (HTTP.handlers_ mux) = Some h ->
         p <> ""%string ->
         prefix p u = true ->
         (forall q, registered q -> q <> ""%string -> prefix q u = true ->
                    (String.length q <= String.length p)%nat) ->
         HTTP.ServeHTTP os mux w req = HTTP.invoke h w req)
  /\ (StdMap.find u (HTTP.handlers_ mux) = None ->
      (forall q, registered q -> q <> ""%string -> prefix q u = false) ->
      HTTP.ServeHTTP os mux w req = not_found os w
      /\ forall conn tr,
           live conn = true ->
           w = HTTP.new_ResponseWriterImpl conn ->
           exists w' tr',
             HTTP.ServeHTTP os mux w req tr = (HTTP.Returned w', tr')
             /\ emitted tr'
                = emitted tr
                  ++ [("HTTP/1.1 404 Not Found" ++ HTTP.CRLF
                       ++ HTTP.CRLF)%string;
                      ("404 page not found"
                       ++ String HTTP.LF EmptyString)%string]).
Proof.
  intros Hwf u registered. split; [|split].
  - intros h Hfind. unfold HTTP.ServeHTTP. fold u. rewrite Hfind. reflexivity.
  - intros p h Hnone Hfind Hp Hpre Hmax.
    unfold HTTP.ServeHTTP. fold u. rewrite Hnone.
    rewrite (prefix_loop_finds (HTTP.handlers_ mux) ""%string None p h).
    + apply empty_false_iff in Hp. rewrite Hp. reflexivity.
    + apply map_wf_NoDup. exact Hwf.
    + apply find_In. exact Hfind.
    + exact Hpre.
    + destruct p; [congruence|simpl; lia].
    + intros q Hq Hqpre. destruct q as [|c q]; [simpl; lia|].
      apply Hmax; [exact Hq|discriminate|exact Hqpre].
  - intros Hnone Hno.
    assert (Hserve : HTTP.ServeHTTP os mux w req = not_found os w).
    { unfold HTTP.ServeHTTP. fold u. rewrite Hnone.
      rewrite prefix_loop_keeps; [reflexivity|].
      intros q Hq Hqpre. destruct q as [|c q]; [simpl; lia|].
      rewrite (Hno (String c q) Hq ltac:(discriminate)) in Hqpre.
      discriminate. }
    split; [exact Hserve|].
    intros conn tr Hlive ->. rewrite Hserve. unfold not_found, mbind, mret.
    destruct (WriteHeader_first os (HTTP.new_ResponseWriterImpl conn)
                HTTP.StatusNotFound tr Hlive eq_refl) as (tr1 & -> & Hem1).
    destruct (Write_flushed os
                (HTTP.mkResponseWriterImpl conn HTTP.StatusNotFound true [])
                HTTP.body_404 tr1 Hlive eq_refl) as (r & tr2 & Hw2 & Hem2).
    simpl in Hw2 |- *. rewrite Hw2. simpl.
    eexists; eexists. split; [reflexivity|].
    rewrite Hem2, Hem1, <- app_assoc. reflexivity.
Qed.

(** The routing example of the specification, for any two handlers and
    whatever the order of registration: with "/a" and "/a/b" registered,
    "/a/b/c" goes to the handler of "/a/b" and "/z" gets the 404. *)
Lemma ServeMux_routing_example os ha hb w req :
  let mux1 :=
    HTTP.HandleFunc (HTTP.HandleFunc HTTP.new_ServeMux "/a" ha) "/a/b" hb in
  let mux2 :=
    HTTP.HandleFunc (HTTP.HandleFunc HTTP.new_ServeMux "/a/b" hb) "/a" ha in
  mux1 = mux2
  /\ (HTTP.url req = "/a/b/c"%string ->
      HTTP.ServeHTTP os mux1 w req = HTTP.invoke hb w req)
  /\ (HTTP.url req = "/z"%string ->
      HTTP.ServeHTTP os mux1 w req = not_found os w).
Proof.
  repeat split; intros Hu; unfold HTTP.ServeHTTP; rewrite Hu; reflexivity.
Qed.

Lemma ServeMux_routing_witness :
  HTTP.ServeHTTP Sample.os_eof SampleMux.mux_a_ab SampleMux.writer
                 (SampleMux.request "/a/b/c")
  = HTTP.invoke (SampleMux.say "AB") SampleMux.writer
                (SampleMux.request "/a/b/c")
  /\ exists w' tr',
       HTTP.ServeHTTP Sample.os_eof SampleMux.mux_a_ab SampleMux.writer
                      (SampleMux.request "/z") []
       = (HTTP.Returned w', tr')
       /\ emitted tr'
          = [("HTTP/1.1 404 Not Found" ++ HTTP.CRLF ++ HTTP.CRLF)%string;
             ("404 page not found" ++ String HTTP.LF EmptyString)%string].
Proof.
  assert (Hwf : mux_wf SampleMux.mux_a_ab).
  { apply HandleFunc_wf, HandleFunc_wf, new_ServeMux_wf. }
  split.
  - apply (proj1 (proj2 (ServeMux_routing Sample.os_eof SampleMux.mux_a_ab
                           SampleMux.writer (SampleMux.request "/a/b/c") Hwf))
             "/a/b"%string (SampleMux.say "AB")); try reflexivity.
    + discriminate.
    + intros q [<-|[<-|[]]] _ _; simpl; lia.
  - destruct (proj2 (proj2 (ServeMux_routing Sample.os_eof SampleMux.mux_a_ab
                              SampleMux.writer (SampleMux.request "/z") Hwf)))
      as [_ Hwire].
    + reflexivity.
    + intros q [<-|[<-|[]]] _; reflexivity.
    + exact (Hwire SampleHTTP.plain [] eq_refl eq_refl).
Defined.

(** C1 as stated fails for the empty pattern. With only "" registered, the
    URL "/z" has no exact match and "" is the longest registered pattern
    that is a prefix of it; [ServeHTTP] answers 404 instead of calling the
    handler of "". *)
Lemma empty_pattern_gets_404 :
  let mux := SampleMux.mux_empty_pattern in
  let req := SampleMux.request "/z" in
  let u := HTTP.url req in
  StdMap.find u (HTTP.handlers_ mux) = None
  /\ StdMap.find ""%string (HTTP.handlers_ mux) = Some (SampleMux.say "ROOT")
  /\ prefix "" u = true
  /\ (forall q, In q (StdMap.keys (HTTP.handlers_ mux)) ->
                prefix q u = true ->
                (String.length q <= String.length "")%nat)
  /\ HTTP.ServeHTTP Sample.os_eof mux SampleMux.writer req []
     <> HTTP.invoke (SampleMux.say "ROOT") SampleMux.writer req []
  /\ emitted (snd (HTTP.ServeHTTP Sample.os_eof mux SampleMux.writer req []))
     = [("HTTP/1.1 404 Not Found" ++ HTTP.CRLF ++ HTTP.CRLF)%string;
        ("404 page not found" ++ String HTTP.LF EmptyString)%string].
Proof.
  repeat split.
  - intros q [<-|[]] _. simpl. lia.
  - vm_compute. discriminate.
Qed.

(* ------------------------------------------------------------------ *)
(** ** The client identity of [DialTLS] *)

Lemma DialTCP_no_identity os network address tr :
  exists d,
    snd (TCP.DialTCP os network address tr) = tr ++ d
    /\ no_identity d = true.
Proof.
  unfold TCP.DialTCP, TCP.ResolveTCPAddr. run.
  destruct (negb (TCP.allowed_network network)); simpl.
  { exists []. rewrite app_nil_r. split; reflexivity. }
  destruct (TCP.parseAddress address) as [[host port]|]; simpl.
  2:{ exists []. rewrite app_nil_r. split; reflexivity. }
  repeat match goal with
         | |- context [if ?b then _ else _] => destruct b; simpl
         end;
    rewrite <- ?app_assoc; eexists; (split; [reflexivity|reflexivity]).
Qed.

Lemma no_identity_app d1 d2 :
  no_identity (d1 ++ d2) = no_identity d1 && no_identity d2.
Proof. apply forallb_app. Qed.

(** The configuration step with both files set: when it lets [DialTLS] go
    on, its last two calls are the two loads, certificate first, both
    answered with success. *)
Lemma configure_loads_identity os ctx cfg tr tr' :
  Str.empty (TLS.cert_file cfg) = false ->
  Str.empty (TLS.key_file cfg) = false ->
  TLS.configure os ctx (Some cfg) tr = (None, tr') ->
  exists d,
    let cert := SSL_CTX_use_certificate_file ctx (TLS.cert_file cfg) in
    let key := SSL_CTX_use_PrivateKey_file ctx (TLS.key_file cfg) in
    tr' = tr ++ d ++ [cert; key]
    /\ no_identity d = true
    /\ 0 < ret (reply os (tr ++ d) cert)
    /\ 0 < ret (reply os (tr ++ d ++ [cert]) key).
Proof.
  intros Hc Hk. unfold TLS.configure, TLS.LoadSystemCACerts.
  rewrite Hc, Hk. run.
  repeat match goal with
         | |- context [if ?b then _ else _] =>
             match type of b with
             | bool => destruct b eqn:?; simpl
             end
         end;
    intros H; inversion H; subst; clear H;
    repeat match goal with
           | E : (_ <=? _) = false |- _ => apply Z.leb_gt in E
           end;
    rewrite <- ?app_assoc in *; simpl in *;
    match goal with
    | |- exists d, tr ++ ?l = _ /\ _ =>
        exists (removelast (removelast l))
    end;
    simpl; rewrite <- ?app_assoc; simpl;
    (split; [reflexivity|]); (split; [reflexivity|]); split; assumption.
Qed.

Lemma fail_with_fails os c prefix tr :
  exists e tr', TLS.fail_with os c prefix tr = (mkResult None (Some e), tr').
Proof.
  unfold TLS.fail_with, mbind, mret, ssl_error_text.
  destruct (TCP.close os c tr) as [c' tr1].
  destruct (TCP.destroy os c' tr1) as [u tr2].
  eexists; eexists; reflexivity.
Qed.

Lemma DialTLS_loads_identity os network address cfg tr conn tr' :
  Str.empty (TLS.cert_file cfg) = false ->
  Str.empty (TLS.key_file cfg) = false ->
  TLS.DialTLS os network address (Some cfg) tr
  = (mkResult (Some conn) None, tr') ->
  exists ctx ssl d1 d2,
    let cert := SSL_CTX_use_certificate_file ctx (TLS.cert_file cfg) in
    let key := SSL_CTX_use_PrivateKey_file ctx (TLS.key_file cfg) in
    tr' = tr ++ d1 ++ [cert; key] ++ d2
    /\ TLS.ctx_ conn = Some ctx
    /\ TLS.ssl_ conn = Some ssl
    /\ 0 < ret (reply os (tr ++ d1) cert)
    /\ 0 < ret (reply os (tr ++ d1 ++ [cert]) key)
    /\ no_identity d1 = true
    /\ no_identity d2 = true
    /\ In (SSL_new ctx) d2
    /\ In (SSL_connect ssl) d2.
Proof.
  intros Hc Hk. unfold TLS.DialTLS. unfold mbind at 1.
  destruct (DialTCP_no_identity os network address tr) as (d0 & Hd0 & Hid0).
  destruct (TCP.DialTCP os network address tr) as [r0 tr0]. simpl in Hd0.
  subst tr0.
  destruct (err r0); [intros H; inversion H|].
  destruct (value r0) as [tcp_conn|]; [|intros H; inversion H].
  unfold mbind at 1. unfold call at 1.
  set (tr1 := (tr ++ d0) ++ [SSL_CTX_new]).
  set (ctx := ret (reply os (tr ++ d0) SSL_CTX_new)).
  destruct (ctx =? 0) eqn:Hctx.
  { destruct (fail_with_fails os tcp_conn "SSL_CTX_new failed: "%string tr1)
      as (e & tr2 & ->).
    intros H; inversion H. }
  unfold mbind at 1.
  destruct (TLS.configure os ctx (Some cfg) tr1) as [ce tr2] eqn:Hcfg.
  destruct ce as [prefix|].
  { unfold mbind, call.
    destruct (fail_with_fails os tcp_conn prefix (tr2 ++ [SSL_CTX_free ctx]))
      as (e & tr3 & ->).
    intros H; inversion H. }
  destruct (configure_loads_identity os ctx cfg tr1 tr2 Hc Hk Hcfg)
    as (d2 & -> & Hid2 & Hcert & Hkey).
  set (cert := SSL_CTX_use_certificate_file ctx (TLS.cert_file cfg)) in *.
  set (key := SSL_CTX_use_PrivateKey_file ctx (TLS.key_file cfg)) in *.
  set (ssl := ret (reply os (tr1 ++ d2 ++ [cert; key]) (SSL_new ctx))).
  assert (Hlift : forall d3 T c,
    T = (tr1 ++ d2 ++ [cert; key]) ++ d3 ->
    c = TLS.new_TLSConn (TCP.socket_fd_ tcp_conn) ssl ctx ->
    (ssl =? 0) = false ->
    no_identity d3 = true ->
    In (SSL_new ctx) d3 ->
    In (SSL_connect ssl) d3 ->
    exists ctx0 ssl0 d1 d2',
      T = tr ++ d1
             ++ SSL_CTX_use_certificate_file ctx0 (TLS.cert_file cfg)
             :: SSL_CTX_use_PrivateKey_file ctx0 (TLS.key_file cfg) :: d2'
      /\ TLS.ctx_ c = Some ctx0
      /\ TLS.ssl_ c = Some ssl0
      /\ 0 < ret (reply os (tr ++ d1)
                    (SSL_CTX_use_certificate_file ctx0 (TLS.cert_file cfg)))
      /\ 0 < ret (reply os
                    (tr ++ d1
                        ++ [SSL_CTX_use_certificate_file ctx0
                              (TLS.cert_file cfg)])
                    (SSL_CTX_use_PrivateKey_file ctx0 (TLS.key_file cfg)))
      /\ no_identity d1 = true
      /\ no_identity d2' = true
      /\ In (SSL_new ctx0) d2'
      /\ In (SSL_connect ssl0) d2').
  { intros d3 T c -> -> Hssl Hid3 Hnew Hconn.
    exists ctx, ssl, (d0 ++ [SSL_CTX_new] ++ d2), d3.
    unfold TLS.new_TLSConn. cbn [TLS.ctx_ TLS.ssl_]. rewrite Hctx, Hssl.
    fold cert key.
    subst tr1. rewrite <- ?app_assoc in *. simpl in *.
    rewrite <- ?app_assoc in *. simpl in *.
    repeat split; try assumption.
    rewrite !no_identity_app, Hid0. exact Hid2. }
  unfold TCP.destroy, TLS.ReleaseFD. run. fold ssl.
  destruct (ssl =? 0) eqn:Hssl.
  { match goal with
    | |- TLS.fail_with os ?c ?p ?t = _ -> _ =>
        destruct (fail_with_fails os c p t) as (e & t' & ->)
    end.
    intros H; inversion H. }
  repeat match goal with
         | |- context [if ?b then _ else _] =>
             match type of b with
             | bool => destruct b eqn:?; simpl
             end
         end;
    intros H;
    try (match type of H with
         | TLS.fail_with os ?c ?p ?t = _ =>
             destruct (fail_with_fails os c p t) as (e & t' & He);
             rewrite He in H; discriminate H
         end);
    injection H as <- <-;
    (eapply Hlift;
     [repeat rewrite <- (app_assoc (tr1 ++ d2 ++ [cert; key])); reflexivity
     |reflexivity|reflexivity|reflexivity
     |simpl; tauto|simpl; tauto]).
Qed.

Lemma DialTLS_ignores_half_identity os network address cfg tr :
  Str.empty (TLS.cert_file cfg) || Str.empty (TLS.key_file cfg) = true ->
  TLS.DialTLS os network address (Some cfg) tr
  = TLS.DialTLS os network address (Some (without_identity cfg)) tr.
Proof.
  intros Hhalf. unfold TLS.DialTLS, TLS.configure, without_identity. simpl.
  replace (negb (Str.empty (TLS.cert_file cfg))
           && negb (Str.empty (TLS.key_file cfg))) with false.
  - reflexivity.
  - symmetry. rewrite <- negb_orb, Hhalf. reflexivity.
Qed.

Lemma fail_with_no_identity os c prefix tr :
  exists d,
    snd (TLS.fail_with os c prefix tr) = tr ++ d /\ no_identity d = true.
Proof.
  unfold TLS.fail_with, TCP.destroy, TCP.close. run.
  destruct (negb (TCP.closed_ c)); simpl.
  - eexists; split; reflexivity.
  - destruct (negb (TCP.closed_ c)); simpl;
      rewrite <- ?app_assoc; try (eexists; split; reflexivity).
    exists []. rewrite app_nil_r. split; reflexivity.
Qed.

(** With one of the two files missing no call loads an identity, on any
    path through [DialTLS]. *)
Lemma DialTLS_half_identity_loads_nothing os network address cfg tr :
  Str.empty (TLS.cert_file cfg) || Str.empty (TLS.key_file cfg) = true ->
  exists d,
    snd (TLS.DialTLS os network address (Some cfg) tr) = tr ++ d
    /\ no_identity d = true.
Proof.
  intros Hhalf.
  assert (Hguard : negb (Str.empty (TLS.cert_file cfg))
                   && negb (Str.empty (TLS.key_file cfg)) = false)
    by (rewrite <- negb_orb, Hhalf; reflexivity).
  unfold TLS.DialTLS. unfold mbind at 1.
  destruct (DialTCP_no_identity os network address tr) as (d0 & Hd0 & Hid0).
  destruct (TCP.DialTCP os network address tr) as [r0 tr0]. simpl in Hd0.
  subst tr0.
  assert (Hlift : forall d3 T,
    T = (tr ++ d0) ++ d3 -> no_identity d3 = true ->
    exists d, T = tr ++ d /\ no_identity d = true).
  { intros d3 T -> Hid3. exists (d0 ++ d3). rewrite app_assoc.
    split; [reflexivity|]. rewrite no_identity_app, Hid0. exact Hid3. }
  assert (Hfail : forall c prefix d3,
    no_identity d3 = true ->
    exists d,
      snd (TLS.fail_with os c prefix ((tr ++ d0) ++ d3)) = tr ++ d
      /\ no_identity d = true).
  { intros c prefix d3 Hid3.
    destruct (fail_with_no_identity os c prefix ((tr ++ d0) ++ d3))
      as (d4 & -> & Hid4).
    apply (Hlift (d3 ++ d4)); [rewrite !app_assoc; reflexivity|].
    rewrite no_identity_app, Hid3. exact Hid4. }
  destruct (err r0); [apply (Hlift []); [rewrite app_nil_r|]; reflexivity|].
  destruct (value r0) as [tcp_conn|];
    [|apply (Hlift []); [rewrite app_nil_r|]; reflexivity].
  unfold TLS.configure, TLS.LoadSystemCACerts. rewrite Hguard.
  unfold TCP.destroy, TLS.ReleaseFD. run.
  repeat match goal with
         | |- context [if ?b then _ else _] =>
             match type of b with
             | bool => destruct b eqn:?; simpl
             end
         end.
  all: repeat rewrite <- (app_assoc (tr ++ d0)).
  all: first [ apply Hfail; reflexivity
             | eapply Hlift; [reflexivity|reflexivity] ].
Qed.

(** C8, as the code has it. When [cert_file] and [key_file] are both set, a
    [DialTLS] that succeeds has loaded the two files into the context of
    the connection it returns, once each: the certificate file first and
    the private-key file directly after it, both calls answered with
    success, before the session is made from the context and before the
    handshake; no other call loads an identity. When one of the two is
    empty, no call loads an identity, whether [DialTLS] succeeds or fails,
    and [DialTLS] does exactly what it does with both empty: no error comes
    from setting one without the other. *)
Theorem DialTLS_client_identity os network address cfg tr :
  (Str.empty (TLS.cert_file cfg) = false ->
   Str.empty (TLS.key_file cfg) = false ->
   forall conn tr',
     TLS.DialTLS os network address (Some cfg) tr
     = (mkResult (Some conn) None, tr') ->
     exists ctx ssl d1 d2,
       let cert := SSL_CTX_use_certificate_file ctx (TLS.cert_file cfg) in
       let key := SSL_CTX_use_PrivateKey_file ctx (TLS.key_file cfg) in
       tr' = tr ++ d1 ++ [cert; key] ++ d2
       /\ TLS.ctx_ conn = Some ctx
       /\ TLS.ssl_ conn = Some ssl
       /\ 0 < ret (reply os (tr ++ d1) cert)
       /\ 0 < ret (reply os (tr ++ d1 ++ [cert]) key)
       /\ no_identity d1 = true
       /\ no_identity d2 = true
       /\ In (SSL_new ctx) d2
       /\ In (SSL_connect ssl) d2)
  /\ (Str.empty (TLS.cert_file cfg) || Str.empty (TLS.key_file cfg) = true ->
      TLS.DialTLS os network address (Some cfg) tr
      = TLS.DialTLS os network address (Some (without_identity cfg)) tr
      /\ exists d,
           snd (TLS.DialTLS os network address (Some cfg) tr) = tr ++ d
           /\ no_identity d = true).
Proof.
  split.
  - intros Hc Hk conn tr'. apply DialTLS_loads_identity; assumption.
  - intros Hhalf. split.
    + apply DialTLS_ignores_half_identity. exact Hhalf.
    + apply DialTLS_half_identity_loads_nothing. exact Hhalf.
Qed.

Lemma DialTLS_client_identity_witness :
  (exists ctx d1 d2,
      snd (TLS.DialTLS Sample.os_tls_ok "tcp" "example.com:443"
             (Some Sample.cert_and_key) [])
      = d1 ++ [SSL_CTX_use_certificate_file ctx "client.crt";
               SSL_CTX_use_PrivateKey_file ctx "client.key"] ++ d2
      /\ no_identity d1 = true
      /\ no_identity d2 = true)
  /\ TLS.DialTLS Sample.os_tls_ok "tcp" "example.com:443"
       (Some Sample.cert_only) []
     = TLS.DialTLS Sample.os_tls_ok "tcp" "example.com:443"
         (Some (without_identity Sample.cert_only)) []
  /\ exists d,
       snd (TLS.DialTLS Sample.os_tls_ok "tcp" "example.com:443"
              (Some Sample.cert_only) []) = d
       /\ no_identity d = true.
Proof.
  pose proof (DialTLS_client_identity Sample.os_tls_ok "tcp"%string
                "example.com:443"%string Sample.cert_and_key []) as [Hboth _].
  pose proof (DialTLS_client_identity Sample.os_tls_ok "tcp"%string
                "example.com:443"%string Sample.cert_only []) as [_ Hhalf].
  split.
  - destruct (Hboth eq_refl eq_refl _ _ eq_refl)
      as (ctx & ssl & d1 & d2 & Htr & _ & _ & _ & _ & H1 & H2 & _).
    exists ctx, d1, d2. repeat split; assumption.
  - destruct (Hhalf eq_refl) as (Heq & d & Hd & Hid).
    split; [exact Heq|]. exists d. split; assumption.
Defined.

(** C8 as stated fails: with a certificate file and no key file, on a
    network and a TLS library where every step succeeds, [DialTLS] returns a
    connection and no error, and no certificate is loaded. *)
Lemma DialTLS_accepts_certificate_without_key :
  let '(r, tr) :=
    TLS.DialTLS Sample.os_tls_ok "tcp" "example.com:443"
                (Some Sample.cert_only) [] in
  Str.empty (TLS.cert_file Sample.cert_only) = false
  /\ Str.empty (TLS.key_file Sample.cert_only) = true
  /\ err r = None
  /\ value r <> None
  /\ ~ In (SSL_CTX_use_certificate_file 200 "client.crt") tr.
Proof.
  vm_compute. repeat split; try discriminate.
  intros H. repeat (destruct H as [H|H]; [discriminate H|]). exact H.
Qed.

(* ------------------------------------------------------------------ *)
(** * Further properties of the code *)

(** ** Dialing and accepting over TCP *)

Lemma opened_app os hist d1 d2 :
  opened os hist (d1 ++ d2)
  = opened os hist d1 ++ opened os (hist ++ d1) d2.
Proof.
  revert hist. induction d1 as [|c d1 IH]; intros hist; simpl.
  - rewrite app_nil_r. reflexivity.
  - rewrite IH, <- app_assoc. simpl.
    destruct c; try reflexivity;
      destruct (ret _ =? Sys.INVALID_SOCKET); reflexivity.
Qed.

Lemma DialTCP_accounts os network address tr :
  exists d,
    snd (TCP.DialTCP os network address tr) = tr ++ d
    /\ let r := fst (TCP.DialTCP os network address tr) in
       match err r with
       | Some _ => value r = None /\ released d = opened os tr d
       | None =>
           exists c host remote,
             value r = Some c
             /\ opened os tr d = [TCP.socket_fd_ c]
             /\ released d = []
             /\ TCP.closed_ c = false
             /\ TCP.parseAddress address = Some (host, TCP.port remote)
             /\ TCP.remote_addr_ c = Some remote
             /\ In (sys_connect (TCP.socket_fd_ c) (TCP.ip remote)
                               (TCP.port remote)) d
             /\ TCP.local_addr_ c <> None
       end.
Proof.
  unfold TCP.DialTCP, TCP.ResolveTCPAddr. run.
  destruct (negb (TCP.allowed_network network)); simpl.
  { exists []. rewrite app_nil_r. repeat split. }
  destruct (TCP.parseAddress address) as [[host port]|]; simpl.
  2:{ exists []. rewrite app_nil_r. repeat split. }
  destruct (negb (ret (reply os tr (sys_getaddrinfo host Sys.SOCK_STREAM))
                  =? 0)); simpl.
  { eexists. split; [reflexivity|]. repeat split. }
  set (tr1 := tr ++ [sys_getaddrinfo host Sys.SOCK_STREAM]).
  destruct (ret (reply os tr1 (sys_socket Sys.SOCK_STREAM))
            =? Sys.INVALID_SOCKET) eqn:Hsock; simpl.
  { exists [sys_getaddrinfo host Sys.SOCK_STREAM;
            sys_socket Sys.SOCK_STREAM].
    subst tr1. rewrite <- app_assoc. split; [reflexivity|].
    split; [reflexivity|]. simpl. rewrite Hsock. reflexivity. }
  set (fd := ret (reply os tr1 (sys_socket Sys.SOCK_STREAM))) in *.
  set (tr2 := tr1 ++ [sys_socket Sys.SOCK_STREAM]).
  match goal with
  | |- context [if negb (ret (reply os tr2 ?c) =? 0) then _ else _] =>
      set (cn := c); destruct (negb (ret (reply os tr2 cn) =? 0)); simpl
  end.
  { exists [sys_getaddrinfo host Sys.SOCK_STREAM;
            sys_socket Sys.SOCK_STREAM; cn; sys_close fd].
    subst tr2 tr1. rewrite <- !app_assoc. split; [reflexivity|].
    split; [reflexivity|]. simpl. fold fd. rewrite Hsock. reflexivity. }
  destruct (negb (ret (reply os (tr2 ++ [cn]) (sys_getsockname fd)) =? 0));
    simpl.
  { exists [sys_getaddrinfo host Sys.SOCK_STREAM;
            sys_socket Sys.SOCK_STREAM; cn; sys_getsockname fd; sys_close fd].
    subst tr2 tr1. rewrite <- !app_assoc. split; [reflexivity|].
    split; [reflexivity|]. simpl. fold fd. rewrite Hsock. reflexivity. }
  exists [sys_getaddrinfo host Sys.SOCK_STREAM;
          sys_socket Sys.SOCK_STREAM; cn; sys_getsockname fd].
  subst tr2 tr1. rewrite <- !app_assoc. split; [reflexivity|].
  eexists; exists host; eexists. split; [reflexivity|]. simpl. fold fd.
  rewrite Hsock.
  repeat split; try reflexivity.
  - subst cn. simpl. tauto.
  - discriminate.
Qed.

(** X1. [DialTCP] never leaks a socket and never closes one twice: when it
    fails, the sockets it obtained are exactly the ones it closed (none when
    the address does not resolve or [socket] fails, the one socket when
    [connect] or [getsockname] fails); when it succeeds, it has obtained
    one socket, closed none, and returns an open connection on that socket,
    connected to the resolved address with the port parsed from [address]. *)
Theorem DialTCP_no_leak os network address tr :
  exists d,
    snd (TCP.DialTCP os network address tr) = tr ++ d
    /\ let r := fst (TCP.DialTCP os network address tr) in
       match err r with
       | Some _ => value r = None /\ released d = opened os tr d
       | None =>
           exists c host remote,
             value r = Some c
             /\ opened os tr d = [TCP.socket_fd_ c]
             /\ released d = []
             /\ TCP.closed_ c = false
             /\ TCP.parseAddress address = Some (host, TCP.port remote)
             /\ TCP.remote_addr_ c = Some remote
             /\ In (sys_connect (TCP.socket_fd_ c) (TCP.ip remote)
                               (TCP.port remote)) d
             /\ TCP.local_addr_ c <> None
       end.
Proof. exact (DialTCP_accounts os network address tr). Qed.

(** X2. A listener never changes under [Accept]. On a closed listener
    [Accept] returns [ErrClosed] without any call; in particular an [Accept]
    that follows a successful [Close] fails that way. On an open listener
    [Accept] makes the one [accept] call: when it answers a socket, the
    result is an open connection on that socket, with the listener's address
    as local address and the peer reported by [accept] as remote address;
    when it answers [INVALID_SOCKET], the result is an error and no
    connection. *)
Theorem TCPListener_Accept_lifecycle os l tr :
  (TCP.l_closed_ l = true ->
   TCP.Accept os l tr = (mkResult None (Some ErrClosed), l, tr))
  /\ (TCP.l_closed_ l = false ->
      let '(_, l1, tr1) := TCP.Close os l tr in
      TCP.Accept os l1 tr1 = (mkResult None (Some ErrClosed), l1, tr1))
  /\ (TCP.l_closed_ l = false ->
      let q := sys_accept (TCP.l_socket_fd_ l) in
      let a := reply os tr q in
      exists r,
        TCP.Accept os l tr = (r, l, tr ++ [q])
        /\ (ret a <> Sys.INVALID_SOCKET ->
            r = mkResult
                  (Some (TCP.mkTCPConn (ret a) (TCP.l_local_addr_ l)
                           (Some (TCP.mkTCPAddr (reply_ip a) (reply_port a)))
                           false Sys.time_point_max Sys.time_point_max))
                  None)
        /\ (ret a = Sys.INVALID_SOCKET ->
            value r = None /\ err r <> None)).
Proof.
  split; [|split].
  - intros Hc. unfold TCP.Accept. rewrite Hc. reflexivity.
  - intros Ho. unfold TCP.Close. rewrite Ho. run. reflexivity.
  - intros Ho q a. unfold TCP.Accept. rewrite Ho. run. fold q. fold a.
    destruct (ret a =? Sys.INVALID_SOCKET) eqn:Hinv; simpl.
    + apply Z.eqb_eq in Hinv. eexists. split; [reflexivity|].
      split; [intros H; contradiction|]. intros _. split; [reflexivity|].
      discriminate.
    + apply Z.eqb_neq in Hinv. eexists. split; [reflexivity|].
      split; [reflexivity|]. intros H; contradiction.
Qed.

Lemma TCPListener_Accept_lifecycle_witness :
  TCP.Accept Sample.os_data Sample.tcp_listener []
  = (mkResult
       (Some (TCP.mkTCPConn 5 (Some (TCP.mkTCPAddr "0.0.0.0" 8080))
                (Some (TCP.mkTCPAddr "" 0)) false
                Sys.time_point_max Sys.time_point_max))
       None,
     Sample.tcp_listener, [sys_accept 3])
  /\ let '(_, l1, tr1) := TCP.Close Sample.os_data Sample.tcp_listener [] in
     TCP.Accept Sample.os_data l1 tr1
     = (mkResult None (Some ErrClosed), l1, tr1).
Proof.
  pose proof (TCPListener_Accept_lifecycle Sample.os_data Sample.tcp_listener
                []) as (_ & Hafter & Hopen).
  split.
  - destruct (Hopen eq_refl) as (r & Hacc & Hok & _).
    rewrite Hacc, (Hok ltac:(vm_compute; discriminate)). reflexivity.
  - exact (Hafter eq_refl).
Defined.

(* ------------------------------------------------------------------ *)
(** ** Handles in [DialTLS] *)

Lemma released_app' d1 d2 : released (d1 ++ d2) = released d1 ++ released d2.
Proof. apply released_app. Qed.

Lemma ctx_freed_app d1 d2 :
  ctx_freed (d1 ++ d2) = ctx_freed d1 ++ ctx_freed d2.
Proof.
  induction d1 as [|c d1 IH]; simpl; [reflexivity|].
  destruct c; simpl; rewrite ?IH; reflexivity.
Qed.

Lemma ssl_freed_app d1 d2 :
  ssl_freed (d1 ++ d2) = ssl_freed d1 ++ ssl_freed d2.
Proof.
  induction d1 as [|c d1 IH]; simpl; [reflexivity|].
  destruct c; simpl; rewrite ?IH; reflexivity.
Qed.

Lemma ctx_created_app os hist d1 d2 :
  ctx_created os hist (d1 ++ d2)
  = ctx_created os hist d1 ++ ctx_created os (hist ++ d1) d2.
Proof.
  revert hist. induction d1 as [|c d1 IH]; intros hist; simpl.
  - rewrite app_nil_r. reflexivity.
  - rewrite IH, <- app_assoc. simpl.
    destruct c; try reflexivity. destruct (ret _ =? 0); reflexivity.
Qed.

Lemma ssl_created_app os hist d1 d2 :
  ssl_created os hist (d1 ++ d2)
  = ssl_created os hist d1 ++ ssl_created os (hist ++ d1) d2.
Proof.
  revert hist. induction d1 as [|c d1 IH]; intros hist; simpl.
  - rewrite app_nil_r. reflexivity.
  - rewrite IH, <- app_assoc. simpl.
    destruct c; try reflexivity. destruct (ret _ =? 0); reflexivity.
Qed.

(** A stretch of calls that keep the handles changes no account. *)
Lemma keeps_handles_accounts os d :
  forallb keeps_handles d = true ->
  released d = [] /\ ctx_freed d = [] /\ ssl_freed d = []
  /\ forall hist,
       opened os hist d = [] /\ ctx_created os hist d = []
       /\ ssl_created os hist d = [].
Proof.
  induction d as [|c d IH]; intros H.
  - repeat split.
  - cbn [forallb] in H. apply andb_prop in H. destruct H as [Hc Hd].
    destruct (IH Hd) as (Hr & Hcf & Hsf & Hh).
    destruct c; try discriminate Hc; simpl;
      (repeat split; try assumption; apply Hh).
Qed.

(** The socket layer neither creates nor frees TLS objects. *)
Lemma socket_calls_no_tls os d :
  forallb socket_call d = true ->
  ctx_freed d = [] /\ ssl_freed d = []
  /\ forall hist, ctx_created os hist d = [] /\ ssl_created os hist d = [].
Proof.
  induction d as [|c d IH]; intros H.
  - repeat split.
  - cbn [forallb] in H. apply andb_prop in H. destruct H as [Hc Hd].
    destruct (IH Hd) as (Hcf & Hsf & Hh).
    destruct c; try discriminate Hc; simpl;
      (repeat split; try assumption; apply Hh).
Qed.

Lemma DialTCP_socket_calls os network address tr :
  exists d,
    snd (TCP.DialTCP os network address tr) = tr ++ d
    /\ forallb socket_call d = true.
Proof.
  unfold TCP.DialTCP, TCP.ResolveTCPAddr. run.
  destruct (negb (TCP.allowed_network network)); simpl.
  { exists []. rewrite app_nil_r. split; reflexivity. }
  destruct (TCP.parseAddress address) as [[host port]|]; simpl.
  2:{ exists []. rewrite app_nil_r. split; reflexivity. }
  repeat match goal with
         | |- context [if ?b then _ else _] => destruct b; simpl
         end;
    rewrite <- ?app_assoc; eexists; (split; [reflexivity|reflexivity]).
Qed.

Lemma configure_keeps_handles os ctx config tr :
  exists d,
    snd (TLS.configure os ctx config tr) = tr ++ d
    /\ forallb keeps_handles d = true.
Proof.
  unfold TLS.configure, TLS.LoadSystemCACerts. run.
  destruct config as [cfg|]; simpl.
  - repeat match goal with
           | |- context [if ?b then _ else _] => destruct b; simpl
           end;
      rewrite <- ?app_assoc; eexists; (split; [reflexivity|reflexivity]).
  - rewrite <- ?app_assoc; eexists; (split; [reflexivity|reflexivity]).
Qed.

Lemma DialTLS_accounts os network address config tr r tr' :
  TLS.DialTLS os network address config tr = (r, tr') ->
  exists d,
    tr' = tr ++ d
    /\ match err r with
       | Some _ =>
           value r = None
           /\ released d = opened os tr d
           /\ ctx_freed d = ctx_created os tr d
           /\ ssl_freed d = ssl_created os tr d
       | None =>
           exists c fd ssl ctx,
             value r = Some c
             /\ opened os tr d = [fd]
             /\ ssl_created os tr d = [ssl]
             /\ ctx_created os tr d = [ctx]
             /\ released d = []
             /\ ssl_freed d = [] /\ ctx_freed d = []
             /\ TCP.socket_fd_ (TLS.base c) = fd
             /\ TCP.closed_ (TLS.base c) = false
             /\ TLS.ssl_ c = Some ssl
             /\ TLS.ctx_ c = Some ctx
       end.
Proof.
  destruct (DialTCP_accounts os network address tr) as (d0 & Hd0 & Hacc).
  destruct (DialTCP_socket_calls os network address tr) as (d0' & Hd0' & Hsock).
  assert (d0' = d0) by (apply (app_inv_head tr); congruence). subst d0'.
  destruct (socket_calls_no_tls os d0 Hsock) as (Hcf0 & Hsf0 & Hcr0).
  unfold TLS.DialTLS. unfold mbind at 1.
  destruct (TCP.DialTCP os network address tr) as [r0 tr0].
  simpl in Hd0, Hacc. subst tr0.
  destruct (err r0) as [e|].
  { destruct Hacc as [_ Hrel]. intros H; inversion H; subst; clear H.
    exists d0. simpl. split; [reflexivity|].
    destruct (Hcr0 tr) as [Hc Hs]. rewrite Hcf0, Hsf0, Hc, Hs.
    repeat split. exact Hrel. }
  destruct Hacc as (c & host & remote & Hv & Hop & Hrel & Hclosed & _).
  rewrite Hv.
  unfold mbind at 1. unfold call at 1.
  set (tr1 := (tr ++ d0) ++ [SSL_CTX_new]).
  set (ctx := ret (reply os (tr ++ d0) SSL_CTX_new)).
  destruct (ctx =? 0) eqn:Hctx.
  { unfold TLS.fail_with, TCP.close, TCP.destroy. rewrite Hclosed. run.
    intros H; inversion H; subst; clear H.
    exists (d0 ++ [SSL_CTX_new; sys_close (TCP.socket_fd_ c)]).
    subst tr1. rewrite <- !app_assoc. split; [reflexivity|]. simpl.
    destruct (Hcr0 tr) as [Hc Hs].
    rewrite released_app, opened_app, ctx_freed_app, ssl_freed_app,
      ctx_created_app, ssl_created_app, Hcf0, Hsf0, Hc, Hs, Hrel, Hop.
    simpl. fold ctx. rewrite Hctx. repeat split. }
  unfold mbind at 1.
  destruct (configure_keeps_handles os ctx config tr1) as (d2 & Hd2 & Hkeep).
  destruct (TLS.configure os ctx config tr1) as [ce tr2]. simpl in Hd2.
  subst tr2.
  destruct (keeps_handles_accounts os d2 Hkeep) as (Hr2 & Hcf2 & Hsf2 & Hh2).
  assert (Hfinish :
    forall d3,
      (forall hist, opened os hist d3 = []) ->
      exists d, ((tr ++ d0) ++ [SSL_CTX_new]) ++ d2 ++ d3 = tr ++ d
        /\ released d = released d3
        /\ opened os tr d = [TCP.socket_fd_ c]
        /\ ctx_freed d = ctx_freed d3
        /\ ctx_created os tr d
           = ctx :: ctx_created os (tr1 ++ d2) d3
        /\ ssl_freed d = ssl_freed d3
        /\ ssl_created os tr d = ssl_created os (tr1 ++ d2) d3).
  { intros d3 Hop3. exists (d0 ++ [SSL_CTX_new] ++ d2 ++ d3).
    rewrite <- !app_assoc. split; [reflexivity|].
    destruct (Hcr0 tr) as [Hc Hs]. 
    rewrite !released_app, !opened_app, !ctx_freed_app, !ssl_freed_app,
      !ctx_created_app, !ssl_created_app.
    destruct (Hh2 ((tr ++ d0) ++ [SSL_CTX_new])) as (Ho2 & Hc2 & Hs2).
    rewrite Hcf0, Hsf0, Hc, Hs, Hrel, Hop, Hr2, Hcf2, Hsf2, Ho2, Hc2, Hs2, Hop3.
    simpl. fold ctx. rewrite Hctx. subst tr1.
    rewrite <- !app_assoc. simpl. repeat split. }
  destruct ce as [prefix|].
  { unfold mbind, call, TLS.fail_with, TCP.close, TCP.destroy.
    rewrite Hclosed. unfold ssl_error_text, mret. simpl.
    intros H; inversion H; subst; clear H.
    destruct (Hfinish [SSL_CTX_free ctx; sys_close (TCP.socket_fd_ c)]
                ltac:(reflexivity))
      as (d & Hd & Hr & Ho & Hcf & Hcc & Hsf & Hsc).
    exists d. split.
    - rewrite <- Hd. subst tr1. rewrite <- !app_assoc. reflexivity.
    - simpl. rewrite Hr, Ho, Hcf, Hcc, Hsf, Hsc. repeat split. }
  unfold TLS.fail_with, TCP.destroy, TCP.close, TLS.ReleaseFD.
  unfold mbind, call, ssl_error_text, mret.
  rewrite Hclosed. simpl.
  set (ssl := ret (reply os (tr1 ++ d2) (SSL_new ctx))).
  assert (Hleaf :
    forall d3 r T,
      T = (tr1 ++ d2) ++ d3 ->
      (forall hist, opened os hist d3 = []) ->
      match err r with
      | Some _ =>
          value r = None
          /\ released d3 = [TCP.socket_fd_ c]
          /\ ctx_freed d3 = ctx :: ctx_created os (tr1 ++ d2) d3
          /\ ssl_freed d3 = ssl_created os (tr1 ++ d2) d3
      | None =>
          value r = Some (TLS.new_TLSConn (TCP.socket_fd_ c) ssl ctx)
          /\ ssl_created os (tr1 ++ d2) d3 = [ssl]
          /\ ctx_created os (tr1 ++ d2) d3 = []
          /\ ssl_freed d3 = [] /\ ctx_freed d3 = []
          /\ (ssl =? 0) = false
          /\ released d3 = []
      end ->
      exists d,
        T = tr ++ d
        /\ match err r with
           | Some _ =>
               value r = None
               /\ released d = opened os tr d
               /\ ctx_freed d = ctx_created os tr d
               /\ ssl_freed d = ssl_created os tr d
           | None =>
               exists c0 fd ssl0 ctx0,
                 value r = Some c0
                 /\ opened os tr d = [fd]
                 /\ ssl_created os tr d = [ssl0]
                 /\ ctx_created os tr d = [ctx0]
                 /\ released d = []
                 /\ ssl_freed d = [] /\ ctx_freed d = []
                 /\ TCP.socket_fd_ (TLS.base c0) = fd
                 /\ TCP.closed_ (TLS.base c0) = false
                 /\ TLS.ssl_ c0 = Some ssl0
                 /\ TLS.ctx_ c0 = Some ctx0
           end).
  { intros d3 r1 T -> Hop3 Hr1.
    destruct (Hfinish d3 Hop3) as (d & Hd & Hr & Ho & Hcf & Hcc & Hsf & Hsc).
    exists d. split.
    - rewrite <- Hd. subst tr1. rewrite <- !app_assoc. reflexivity.
    - rewrite Hr, Ho, Hcf, Hcc, Hsf, Hsc. destruct (err r1).
      + destruct Hr1 as (Hv1 & -> & -> & ->). repeat split. exact Hv1.
      + destruct Hr1 as (Hv1 & -> & -> & -> & -> & Hssl & ->).
        exists (TLS.new_TLSConn (TCP.socket_fd_ c) ssl ctx),
          (TCP.socket_fd_ c), ssl, ctx.
        rewrite Hv1. unfold TLS.new_TLSConn. rewrite Hssl, Hctx.
        repeat split. }
  destruct (ssl =? 0) eqn:Hssl; simpl.
  { match goal with
    | |- (?R, ?T) = _ -> _ =>
        intros H; injection H as Hr' Ht'; subst r tr'; eapply (Hleaf _ R T)
    end;
      [repeat rewrite <- (app_assoc (tr1 ++ d2)); reflexivity
      |reflexivity|].
    simpl. fold ssl. rewrite Hssl. repeat split. }
  clear Hkeep Hfinish.
  destruct config as [cfg|]; simpl;
  repeat match goal with
         | |- context [if ?b then _ else _] =>
             match type of b with
             | bool => destruct b eqn:?; simpl
             end
         end;
    (match goal with
     | |- (?R, ?T) = _ -> _ =>
         intros H; injection H as Hr' Ht'; subst r tr'; eapply (Hleaf _ R T)
     end;
       [repeat rewrite <- (app_assoc (tr1 ++ d2)); reflexivity
       |reflexivity|]);
    simpl; fold ssl; rewrite Hssl; repeat split.
Qed.

(** X3. [DialTLS] gives back whatever it obtained when it fails: the socket
    is closed exactly once, the TLS context and the TLS session are freed
    exactly once if they were created, and nothing that was not obtained is
    released. When it succeeds it has obtained one socket, one context and
    one session and has given back none of them: no socket is closed, no
    session and no context is freed; the returned connection is open and
    holds the session, the context and the socket that were obtained. *)
Theorem DialTLS_no_leak_on_failure os network address config tr :
  exists d,
    snd (TLS.DialTLS os network address config tr) = tr ++ d
    /\ let r := fst (TLS.DialTLS os network address config tr) in
       match err r with
       | Some _ =>
           value r = None
           /\ released d = opened os tr d
           /\ ctx_freed d = ctx_created os tr d
           /\ ssl_freed d = ssl_created os tr d
       | None =>
           exists c fd ssl ctx,
             value r = Some c
             /\ opened os tr d = [fd]
             /\ ssl_created os tr d = [ssl]
             /\ ctx_created os tr d = [ctx]
             /\ released d = []
             /\ ssl_freed d = [] /\ ctx_freed d = []
             /\ TCP.socket_fd_ (TLS.base c) = fd
             /\ TCP.closed_ (TLS.base c) = false
             /\ TLS.ssl_ c = Some ssl
             /\ TLS.ctx_ c = Some ctx
       end.
Proof.
  destruct (TLS.DialTLS os network address config tr) as [r tr'] eqn:Hd.
  destruct (DialTLS_accounts os network address config tr r tr' Hd)
    as (d & -> & Hacc).
  exists d. split; [reflexivity|exact Hacc].
Qed.

(* ------------------------------------------------------------------ *)
(** ** The trust policy of [DialTLS] *)

Lemma socket_calls_not_tls d c :
  forallb socket_call d = true -> socket_call c = false -> ~ In c d.
Proof.
  intros Hd Hc Hin. rewrite forallb_forall in Hd.
  rewrite (Hd c Hin) in Hc. discriminate.
Qed.

Lemma In_app_tls d0 l c :
  forallb socket_call d0 = true -> socket_call c = false ->
  ~ In c l -> ~ In c (d0 ++ l).
Proof.
  intros Hd Hc Hl Hin. apply in_app_or in Hin. destruct Hin as [Hin|Hin].
  - exact (socket_calls_not_tls d0 c Hd Hc Hin).
  - exact (Hl Hin).
Qed.

Lemma trust_policy_lift config address ctx ssl d0 l1 l :
  forallb socket_call d0 = true ->
  trust_policy config address ctx ssl l1 l ->
  trust_policy config address ctx ssl (d0 ++ l1) (d0 ++ l).
Proof.
  intros Hd. unfold trust_policy. cbv zeta.
  assert (Hin : forall c, In c l1 -> In c (d0 ++ l1)).
  { intros c Hc. apply in_or_app. right. exact Hc. }
  assert (Hout : forall c, socket_call c = false -> ~ In c l ->
                           ~ In c (d0 ++ l)).
  { intros c. apply In_app_tls. exact Hd. }
  destruct config as [cfg|].
  - destruct (TLS.insecure_skip_verify cfg).
    + intros (H1 & H2 & H3 & H4 & H5 & H6).
      repeat split; auto; intros; apply Hout; auto.
    + destruct (Str.empty (TLS.ca_file cfg)).
      * intros (H1 & H2 & (H3 & H4 & H5) & H6 & H7).
        repeat split; auto; intros; apply Hout; auto.
      * intros (H1 & H2 & (H3 & H4 & H5) & H6 & H7).
        repeat split; auto; intros; apply Hout; auto.
  - intros (H1 & H2 & (H3 & H4 & H5) & H6 & H7).
    repeat split; auto; intros; apply Hout; auto.
Qed.

Lemma before_handshake_none l x : ~ In (SSL_connect x) (before_handshake l).
Proof.
  induction l as [|c l IH]; simpl; [tauto|].
  destruct c; simpl; try tauto; intros [H|H]; try discriminate; tauto.
Qed.

Lemma DialTLS_policy_eq os network address config tr r tr' :
  TLS.DialTLS os network address config tr = (r, tr') ->
  exists d,
    tr' = tr ++ d
    /\ forall ssl,
         In (SSL_connect ssl) d ->
         exists ctx d1 d2,
           d = d1 ++ SSL_connect ssl :: d2
           /\ (forall x, ~ In (SSL_connect x) (d1 ++ d2))
           /\ trust_policy config address ctx ssl d1 d.
Proof.
  destruct (DialTCP_accounts os network address tr) as (d0 & Hd0 & Hacc).
  destruct (DialTCP_socket_calls os network address tr)
    as (d0' & Hd0' & Hsock).
  assert (d0' = d0) by (apply (app_inv_head tr); congruence). subst d0'.
  clear Hd0'.
  assert (Hno : forall c, socket_call c = false -> ~ In c d0).
  { intros c. apply socket_calls_not_tls. exact Hsock. }
  assert (Hlift : forall l,
    (forall ssl, In (SSL_connect ssl) l ->
       exists ctx,
         l = before_handshake l ++ SSL_connect ssl :: after_handshake l
         /\ (forall x, ~ In (SSL_connect x) (after_handshake l))
         /\ trust_policy config address ctx ssl (before_handshake l) l) ->
    forall T, T = tr ++ d0 ++ l ->
    exists d, T = tr ++ d
      /\ forall ssl, In (SSL_connect ssl) d ->
           exists ctx d1 d2, d = d1 ++ SSL_connect ssl :: d2
             /\ (forall x, ~ In (SSL_connect x) (d1 ++ d2))
             /\ trust_policy config address ctx ssl d1 d).
  { intros l Hl T ->. exists (d0 ++ l). split; [reflexivity|].
    intros ssl Hin. apply in_app_or in Hin. destruct Hin as [Hin|Hin].
    - exfalso. apply (Hno (SSL_connect ssl)); [reflexivity|exact Hin].
    - destruct (Hl ssl Hin) as (ctx & Hsplit & Hafter & Hpol).
      exists ctx, (d0 ++ before_handshake l), (after_handshake l).
      split; [|split].
      + rewrite <- app_assoc. rewrite <- Hsplit. reflexivity.
      + intros x Hx. rewrite <- app_assoc in Hx.
        apply in_app_or in Hx. destruct Hx as [Hx|Hx].
        * apply (Hno (SSL_connect x)); [reflexivity|exact Hx].
        * apply in_app_or in Hx. destruct Hx as [Hx|Hx].
          -- exact (before_handshake_none l x Hx).
          -- exact (Hafter x Hx).
      + apply trust_policy_lift; assumption. }
  unfold TLS.DialTLS. unfold mbind at 1.
  destruct (TCP.DialTCP os network address tr) as [r0 tr0].
  simpl in Hd0, Hacc. subst tr0.
  destruct (err r0) as [e|].
  { intros H; injection H as _ <-. exists d0. split; [reflexivity|].
    intros ssl Hin. exfalso.
    apply (Hno (SSL_connect ssl)); [reflexivity|exact Hin]. }
  destruct Hacc as (c & host & remote & Hv & _ & _ & Hclosed & _).
  rewrite Hv. clear Hv Hsock Hno.
  unfold TLS.configure, TLS.LoadSystemCACerts, TLS.fail_with, TCP.destroy,
    TCP.close, TLS.ReleaseFD.
  unfold mbind, call, ssl_error_text, mret.
  rewrite Hclosed. simpl.
  fold (tls_hostname address).
  set (ctx := ret (reply os (tr ++ d0) SSL_CTX_new)).
  destruct config as [cfg|];
    [destruct (TLS.insecure_skip_verify cfg) eqn:Hins;
       [|destruct (Str.empty (TLS.ca_file cfg)) eqn:Hca]|];
    simpl;
    repeat match goal with
           | |- context [if ?b then _ else _] =>
               match type of b with
               | bool => destruct b eqn:?; simpl
               end
           end.
  all: intros H; injection H as _ <-.
  all: repeat rewrite <- app_assoc; simpl.
  all: (eapply Hlift; [|reflexivity]); clear Hlift.
  all: intros ssl Hin; simpl in Hin.
  all: repeat match goal with
              | H : _ \/ _ |- _ => destruct H as [H|H]
              end; try discriminate; try contradiction.
  all: injection Hin as <-.
  all: exists ctx; split; [reflexivity|].
  all: split; [simpl; clear; intros; intuition discriminate|].
  all: unfold trust_policy; cbv zeta; simpl.
  all: try rewrite Hins; try rewrite Hca.
  all: clear; repeat split; auto 12; intros; intuition discriminate.
Qed.

Lemma DialTLS_unchecked_answers os ans network address config tr :
  TLS.DialTLS (answering os ans) network address config tr
  = TLS.DialTLS os network address config tr.
Proof. reflexivity. Qed.

Lemma tls_hostname_of_empty_host rest :
  tls_hostname (String ":" rest) = ""%string.
Proof.
  unfold tls_hostname, Str.find_char, Str.substr. simpl.
  destruct (ascii_dec ":" ":") as [_|H]; [|congruence].
  destruct rest; reflexivity.
Qed.

(** X4. The calls [DialTLS] makes about trust, and what it does with their
    answers. Whenever [DialTLS] starts a handshake it starts exactly one,
    and the calls the configuration asks for have been made before it, on
    the context and session it uses: the session is made from the context
    and the host part of the address is announced; without a configuration,
    or with one that does not skip verification, the calls that switch peer
    verification on and that ask for the certificate to be checked against
    that host name are made, verification is never switched off, and the
    trust store asked for is the configured CA file or else the system's,
    never both; with [insecure_skip_verify] the call switches verification
    off and no call asks for a host check or a trust store. Whether these
    calls succeed is not looked at: whatever the calls that announce the
    host, ask for the host check, attach the socket and load the system
    store answer, [DialTLS] makes the same calls and returns the same
    result, so the handshake is also started when they fail. The host name
    passed is the address up to its first colon, which is the empty string
    for an address that starts with a colon. *)
Theorem DialTLS_trust_calls_precede_handshake os network address config tr :
  (forall d ssl,
     snd (TLS.DialTLS os network address config tr) = tr ++ d ->
     In (SSL_connect ssl) d ->
     exists ctx d1 d2,
       d = d1 ++ SSL_connect ssl :: d2
       /\ (forall x, ~ In (SSL_connect x) (d1 ++ d2))
       /\ trust_policy config address ctx ssl d1 d)
  /\ (forall ans,
        TLS.DialTLS (answering os ans) network address config tr
        = TLS.DialTLS os network address config tr)
  /\ (forall rest,
        address = String ":" rest -> tls_hostname address = ""%string).
Proof.
  split; [|split].
  - intros d ssl Hd Hin.
    destruct (TLS.DialTLS os network address config tr) as [r tr'] eqn:Hrun.
    destruct (DialTLS_policy_eq os network address config tr r tr' Hrun)
      as (d' & Hd' & Hpol).
    simpl in Hd. rewrite Hd' in Hd.
    apply app_inv_head in Hd. subst d'.
    exact (Hpol ssl Hin).
  - intros ans. apply DialTLS_unchecked_answers.
  - intros rest ->. apply tls_hostname_of_empty_host.
Qed.

Lemma DialTLS_trust_calls_precede_handshake_witness :
  let d := snd (TLS.DialTLS Sample.os_tls_ok "tcp" "example.com:443" None [])
  in
  In (SSL_connect 100) d
  /\ exists ctx d1 d2,
       d = d1 ++ SSL_connect 100 :: d2
       /\ (forall x, ~ In (SSL_connect x) (d1 ++ d2))
       /\ trust_policy None "example.com:443" ctx 100 d1 d.
Proof.
  split.
  - vm_compute. repeat (first [left; reflexivity | right]).
  - apply (proj1 (DialTLS_trust_calls_precede_handshake Sample.os_tls_ok
                    "tcp"%string "example.com:443"%string None []) _ 100).
    + reflexivity.
    + vm_compute. repeat (first [left; reflexivity | right]).
Defined.
Import HTTPText.

(* ------------------------------------------------------------------ *)
(** ** [trim] *)

Lemma at_S c s i : at_ (String c s) (S i) = at_ s i.
Proof. reflexivity. Qed.

Lemma trim_start_S c s gap i :
  trim_start (String c s) gap (S i) = S (trim_start s gap i).
Proof.
  revert i. induction gap as [|g IH]; intros i; simpl; [reflexivity|].
  rewrite at_S. destruct (Str.isspace (at_ s i)); [apply IH|reflexivity].
Qed.

Lemma trim_end_S c s start e :
  trim_end (String c s) (S start) (S e) = S (trim_end s start e).
Proof.
  induction e as [|e IH].
  - simpl. reflexivity.
  - change (trim_end (String c s) (S start) (S (S e)))
      with (if (S start <? S (S e))%nat && Str.isspace (at_ s e)
            then trim_end (String c s) (S start) (S e) else S (S e)).
    change (trim_end s start (S e))
      with (if (start <? S e)%nat && Str.isspace (at_ s e)
            then trim_end s start e else S e).
    change (S start <? S (S e))%nat with (start <? S e)%nat.
    destruct ((start <? S e)%nat && Str.isspace (at_ s e));
      [exact IH|reflexivity].
Qed.

Lemma trim_end_0 c s e :
  trim_end (String c s) 0 (S e)
  = match trim_end s 0 e with
    | O => if Str.isspace c then O else 1%nat
    | S k => S (S k)
    end.
Proof.
  induction e as [|e IH].
  - simpl. change (at_ (String c s) 0) with c.
    destruct (Str.isspace c); reflexivity.
  - change (trim_end (String c s) 0 (S (S e)))
      with (if (0 <? S (S e))%nat && Str.isspace (at_ s e)
            then trim_end (String c s) 0 (S e) else S (S e)).
    change (trim_end s 0 (S e))
      with (if (0 <? S e)%nat && Str.isspace (at_ s e)
            then trim_end s 0 e else S e).
    change (0 <? S (S e))%nat with true. change (0 <? S e)%nat with true.
    simpl andb.
    destruct (Str.isspace (at_ s e)); [exact IH|reflexivity].
Qed.

Lemma trim_end_le s start e : (trim_end s start e <= e)%nat.
Proof.
  induction e as [|e IH]; simpl; [lia|].
  destruct ((start <? S e)%nat && Str.isspace (at_ s e)); lia.
Qed.

Lemma rstrip_trim_end s :
  substring 0 (trim_end s 0 (String.length s)) s = rstrip s.
Proof.
  induction s as [|c s IH]; [reflexivity|].
  cbn [String.length rstrip]. rewrite trim_end_0. rewrite <- IH.
  pose proof (trim_end_le s 0 (String.length s)) as Hle.
  destruct (trim_end s 0 (String.length s)) as [|k] eqn:Hk.
  - destruct s; simpl; destruct (Str.isspace c); reflexivity.
  - destruct s as [|c' s']; [simpl in Hle; lia|].
    reflexivity.
Qed.

Lemma trim_structural s : trim s = rstrip (Str.skip_spaces s).
Proof.
  induction s as [|c s IH]; [reflexivity|].
  unfold trim. cbn [String.length trim_start Str.skip_spaces].
  change (at_ (String c s) 0) with c.
  destruct (Str.isspace c) eqn:Hc.
  - rewrite trim_start_S, trim_end_S. rewrite <- IH. reflexivity.
  - rewrite trim_end_0.
    assert (Hr : rstrip (String c s) = String c (rstrip s)).
    { simpl. rewrite Hc. destruct (rstrip s); reflexivity. }
    rewrite Hr, <- rstrip_trim_end.
    destruct (trim_end s 0 (String.length s)) as [|k]; rewrite ?Hc.
    + unfold Str.substr. simpl. destruct s; reflexivity.
    + reflexivity.
Qed.

Lemma skip_spaces_split s :
  exists l, s = (l ++ Str.skip_spaces s)%string /\ all_space l = true.
Proof.
  induction s as [|c s (l & Hl & Hsp)]; [exists ""%string; split; reflexivity|].
  simpl. destruct (Str.isspace c) eqn:Hc.
  - exists (String c l). simpl. rewrite Hc, Hsp, <- Hl. split; reflexivity.
  - exists ""%string. split; reflexivity.
Qed.

Lemma skip_spaces_head s c t :
  Str.skip_spaces s = String c t -> Str.isspace c = false.
Proof.
  induction s as [|a s IH]; simpl; [discriminate|].
  destruct (Str.isspace a) eqn:Ha; [exact IH|].
  intros H. injection H as <- _. exact Ha.
Qed.

Lemma skip_spaces_fixed s :
  (forall c t, s = String c t -> Str.isspace c = false) ->
  Str.skip_spaces s = s.
Proof.
  destruct s as [|c s]; [reflexivity|]. intros H. simpl.
  rewrite (H c s eq_refl). reflexivity.
Qed.

Lemma rstrip_split t :
  exists r, t = (rstrip t ++ r)%string /\ all_space r = true.
Proof.
  induction t as [|c t (r & Hr & Hsp)]; [exists ""%string; split; reflexivity|].
  simpl. destruct (rstrip t) as [|b u] eqn:Hu.
  - simpl in Hr. subst r. destruct (Str.isspace c) eqn:Hc.
    + exists (String c t). simpl. rewrite Hc, Hsp. split; reflexivity.
    + exists t. split; [reflexivity|exact Hsp].
  - exists r. split; [|exact Hsp]. simpl. simpl in Hr. rewrite <- Hr.
    reflexivity.
Qed.

Lemma rstrip_last t :
  forall u c, rstrip t = (u ++ String c "")%string -> Str.isspace c = false.
Proof.
  induction t as [|a t IH]; intros u c; simpl.
  - destruct u; discriminate.
  - destruct (rstrip t) as [|b r] eqn:Hr.
    + destruct (Str.isspace a) eqn:Ha.
      * destruct u; discriminate.
      * destruct u as [|x u]; simpl; intros H.
        -- injection H as <-. exact Ha.
        -- injection H as _ H. destruct u; discriminate.
    + destruct u as [|x u]; simpl; intros H; [discriminate|].
      injection H as _ H. exact (IH u c H).
Qed.

Lemma rstrip_idem t : rstrip (rstrip t) = rstrip t.
Proof.
  induction t as [|c t IH]; [reflexivity|]. simpl.
  destruct (rstrip t) as [|b r] eqn:Hr.
  - destruct (Str.isspace c) eqn:Hc; simpl; rewrite ?Hc; reflexivity.
  - change (rstrip (String c (String b r)))
      with (match rstrip (String b r) with
            | EmptyString =>
                if Str.isspace c then EmptyString else String c ""
            | r' => String c r'
            end).
    rewrite IH. reflexivity.
Qed.

Lemma trim_head s c t : trim s = String c t -> Str.isspace c = false.
Proof.
  intros H. rewrite trim_structural in H.
  destruct (rstrip_split (Str.skip_spaces s)) as (r & Hr & _).
  rewrite H in Hr. simpl in Hr.
  exact (skip_spaces_head s c _ Hr).
Qed.

Lemma trim_idem s : trim (trim s) = trim s.
Proof.
  rewrite (trim_structural (trim s)).
  rewrite (skip_spaces_fixed (trim s) (trim_head s)).
  rewrite trim_structural. apply rstrip_idem.
Qed.

(** X5. [trim] removes white space at both ends and nothing else: the
    argument is the result between two runs of white space, and the result
    neither starts nor ends with white space; trimming twice changes
    nothing. *)
Theorem trim_strips_both_ends s :
  (exists l r,
      s = (l ++ trim s ++ r)%string
      /\ all_space l = true /\ all_space r = true)
  /\ (forall c t, trim s = String c t -> Str.isspace c = false)
  /\ (forall t c, trim s = (t ++ String c "")%string -> Str.isspace c = false)
  /\ trim (trim s) = trim s.
Proof.
  split; [|split; [exact (trim_head s)|split]].
  - destruct (skip_spaces_split s) as (l & Hl & Hlsp).
    destruct (rstrip_split (Str.skip_spaces s)) as (r & Hr & Hrsp).
    exists l, r. rewrite trim_structural, <- Hr. auto.
  - intros t c H. rewrite trim_structural in H.
    exact (rstrip_last _ t c H).
  - apply trim_idem.
Qed.

(* ------------------------------------------------------------------ *)
(** ** Lines, words and numbers *)

Lemma read_line_app s rest :
  contains_char HTTP.LF s = false ->
  read_line (s ++ String HTTP.LF rest)%string = (s, rest, true).
Proof.
  induction s as [|c s IH]; intros H.
  - reflexivity.
  - cbn [contains_char] in H. apply orb_false_elim in H. destruct H as [Hc Hs].
    simpl. rewrite Hc, (IH Hs). reflexivity.
Qed.

Lemma read_line_whole s :
  contains_char HTTP.LF s = false -> read_line s = (s, ""%string, false).
Proof.
  induction s as [|c s IH]; intros H.
  - reflexivity.
  - cbn [contains_char] in H. apply orb_false_elim in H. destruct H as [Hc Hs].
    simpl. rewrite Hc, (IH Hs). reflexivity.
Qed.

Lemma read_line_shorter s :
  s <> ""%string ->
  (String.length (snd (fst (read_line s))) < String.length s)%nat.
Proof.
  induction s as [|c s IH]; intros H; [congruence|].
  simpl. destruct (Ascii.eqb c HTTP.LF); simpl; [lia|].
  destruct s as [|c' s']; [simpl; lia|].
  specialize (IH ltac:(discriminate)).
  destruct (read_line (String c' s')) as [[line rest] found].
  simpl in *. lia.
Qed.

Lemma read_line_no_LF s :
  contains_char HTTP.LF (fst (fst (read_line s))) = false.
Proof.
  induction s as [|c s IH]; [reflexivity|].
  simpl. destruct (Ascii.eqb c HTTP.LF) eqn:Hc; [reflexivity|].
  destruct (read_line s) as [[line rest] found]. simpl in *.
  rewrite Hc, IH. reflexivity.
Qed.

Lemma pop_back_CR_app s : pop_back_CR (s ++ String HTTP.CR "")%string = s.
Proof.
  induction s as [|c s IH]; [reflexivity|].
  simpl append. cbn [pop_back_CR].
  destruct (s ++ String HTTP.CR "")%string eqn:Hs.
  - destruct s; discriminate.
  - rewrite IH. reflexivity.
Qed.

Lemma read_word_app w c r :
  no_space w = true -> Str.isspace c = true ->
  read_word (w ++ String c r)%string = (w, String c r).
Proof.
  intros Hw Hc. induction w as [|a w IH].
  - simpl. rewrite Hc. reflexivity.
  - cbn [no_space] in Hw. apply andb_prop in Hw. destruct Hw as [Ha Hw].
    apply negb_true_iff in Ha. simpl. rewrite Ha, (IH Hw). reflexivity.
Qed.

Lemma read_word_whole w :
  no_space w = true -> read_word w = (w, ""%string).
Proof.
  induction w as [|a w IH]; intros Hw; [reflexivity|].
  cbn [no_space] in Hw. apply andb_prop in Hw. destruct Hw as [Ha Hw].
  apply negb_true_iff in Ha. simpl. rewrite Ha, (IH Hw). reflexivity.
Qed.

Lemma read_word_no_space s : no_space (fst (read_word s)) = true.
Proof.
  induction s as [|c s IH]; [reflexivity|].
  simpl. destruct (Str.isspace c) eqn:Hc; [reflexivity|].
  destruct (read_word s) as [w r]. simpl in *. rewrite Hc, IH. reflexivity.
Qed.

Lemma skip_spaces_no_space s :
  no_space s = true -> Str.skip_spaces s = s.
Proof.
  destruct s as [|c s]; [reflexivity|]. simpl. intros H.
  apply andb_prop in H. destruct H as [Hc _]. apply negb_true_iff in Hc.
  rewrite Hc. reflexivity.
Qed.

Lemma rstrip_no_space s : no_space s = true -> rstrip s = s.
Proof.
  induction s as [|c s IH]; intros H; [reflexivity|].
  cbn [no_space] in H. apply andb_prop in H. destruct H as [Hc Hs].
  apply negb_true_iff in Hc. simpl. rewrite (IH Hs), Hc.
  destruct s; reflexivity.
Qed.

Lemma trim_no_space s : no_space s = true -> trim s = s.
Proof.
  intros H. rewrite trim_structural, (skip_spaces_no_space s H).
  apply rstrip_no_space. exact H.
Qed.

Lemma trim_leading_space c s : Str.isspace c = true -> trim (String c s) = trim s.
Proof.
  intros H. rewrite !trim_structural. simpl. rewrite H. reflexivity.
Qed.

(** *** Decimal numbers *)

Lemma leading_digits_uint u rest :
  Str.leading_digits (NilEmpty.string_of_uint u ++ rest)%string
  = uint_digits u ++ Str.leading_digits rest.
Proof.
  induction u; simpl; try rewrite IHu; reflexivity.
Qed.

Lemma skip_digits_uint u rest :
  skip_digits (NilEmpty.string_of_uint u ++ rest)%string = skip_digits rest.
Proof.
  induction u; simpl; try rewrite IHu; reflexivity.
Qed.

Lemma no_space_uint u : no_space (NilEmpty.string_of_uint u) = true.
Proof. induction u; simpl; try rewrite IHu; reflexivity. Qed.

Lemma no_LF_uint u : contains_char HTTP.LF (NilEmpty.string_of_uint u) = false.
Proof. induction u; simpl; try rewrite IHu; reflexivity. Qed.

Lemma digits_value_acc u p :
  fold_left (fun acc d => 10 * acc + d) (uint_digits u) (Z.pos p)
  = Z.pos (Pos.of_uint_acc u p).
Proof.
  revert p.
  induction u; intros p; cbn [uint_digits fold_left Pos.of_uint_acc];
    try reflexivity; rewrite <- IHu; f_equal; lia.
Qed.

Lemma digits_value_uint u :
  Str.digits_value (uint_digits u) = Z.of_N (Pos.of_uint u).
Proof.
  unfold Str.digits_value.
  induction u; cbn [uint_digits fold_left Pos.of_uint]; try reflexivity;
    try exact IHu; apply digits_value_acc.
Qed.

Lemma digits_value_pos p :
  Str.digits_value (uint_digits (Pos.to_uint p)) = Z.pos p.
Proof.
  rewrite digits_value_uint, DecimalPos.Unsigned.of_to. reflexivity.
Qed.

Lemma to_uint_not_Nil p : Pos.to_uint p <> Decimal.Nil.
Proof.
  intros H. pose proof (DecimalPos.Unsigned.of_to p) as E.
  rewrite H in E. discriminate.
Qed.

Lemma string_of_uint_pos p :
  NilZero.string_of_uint (Pos.to_uint p)
  = NilEmpty.string_of_uint (Pos.to_uint p).
Proof.
  pose proof (to_uint_not_Nil p). destruct (Pos.to_uint p);
    [congruence|reflexivity..].
Qed.

(* ------------------------------------------------------------------ *)
(** ** The header loop *)

Lemma tolower_idem c : tolower (tolower c) = tolower c.
Proof.
  destruct c as [[] [] [] [] [] [] [] []]; vm_compute; reflexivity.
Qed.

Lemma isspace_tolower c : Str.isspace (tolower c) = Str.isspace c.
Proof.
  destruct c as [[] [] [] [] [] [] [] []]; vm_compute; reflexivity.
Qed.

Lemma toLower_idem s : toLower (toLower s) = toLower s.
Proof.
  induction s as [|c s IH]; simpl; [|rewrite tolower_idem, IH]; reflexivity.
Qed.

Lemma skip_spaces_toLower s :
  Str.skip_spaces (toLower s) = toLower (Str.skip_spaces s).
Proof.
  induction s as [|c s IH]; [reflexivity|].
  simpl. rewrite isspace_tolower. destruct (Str.isspace c); [exact IH|].
  reflexivity.
Qed.

Lemma rstrip_toLower s : rstrip (toLower s) = toLower (rstrip s).
Proof.
  induction s as [|c s IH]; [reflexivity|].
  simpl. rewrite IH, isspace_tolower.
  destruct (rstrip s); simpl; [destruct (Str.isspace c)|]; reflexivity.
Qed.

Lemma trim_toLower s : trim (toLower s) = toLower (trim s).
Proof.
  rewrite !trim_structural, skip_spaces_toLower. apply rstrip_toLower.
Qed.

Lemma header_line_keeps (P : StdMap.t string -> Prop) :
  (forall k v h, normal_entry (k, v) -> P h -> P (StdMap.assign k v h)) ->
  forall h line, P h -> P (header_line h line).
Proof.
  intros Hassign h line Hh. unfold header_line.
  destruct (Str.find_char line ":"%char) as [colon_pos|]; [|exact Hh].
  apply Hassign; [|exact Hh].
  unfold normal_entry. cbn [fst snd].
  rewrite toLower_idem, trim_toLower, !trim_idem. auto.
Qed.

Lemma parse_headers_keeps (P : StdMap.t string -> Prop) :
  (forall k v h, normal_entry (k, v) -> P h -> P (StdMap.assign k v h)) ->
  forall fuel st h r,
    P h -> parse_headers fuel st h = Some r -> P (fst r).
Proof.
  intros Hassign. induction fuel as [|fuel IH]; intros st h r Hh; simpl.
  - discriminate.
  - destruct (getline st) as [[line|] st'].
    + destruct (Str.empty (pop_back_CR line)).
      * intros H. injection H as <-. exact Hh.
      * apply IH. apply header_line_keeps; assumption.
    + intros H. injection H as <-. exact Hh.
Qed.

Lemma getline_shorter st line st' :
  getline st = (Some line, st') ->
  (String.length (buf st') < String.length (buf st))%nat.
Proof.
  unfold getline. destruct (good st); cbn [negb]; [|discriminate].
  destruct (buf st) as [|c s] eqn:Hb; [discriminate|].
  pose proof (read_line_shorter (String c s) ltac:(discriminate)) as Hlt.
  destruct (read_line (String c s)) as [[l rest] found].
  intros H. injection H as _ <-. exact Hlt.
Qed.

Lemma parse_headers_returns fuel :
  forall st h,
    (String.length (buf st) < fuel)%nat ->
    exists r, parse_headers fuel st h = Some r.
Proof.
  induction fuel as [|fuel IH]; intros st h Hlt; [lia|].
  simpl. destruct (getline st) as [[line|] st'] eqn:Hg.
  - destruct (Str.empty (pop_back_CR line)); [eexists; reflexivity|].
    apply IH. pose proof (getline_shorter _ _ _ Hg). lia.
  - eexists; reflexivity.
Qed.

Lemma lines_text_length lines rest :
  (List.length lines <= String.length (lines_text lines rest))%nat.
Proof.
  induction lines as [|l ls IH]; simpl; [lia|].
  rewrite length_app_string. simpl. lia.
Qed.

Lemma getline_line l r :
  contains_char HTTP.LF l = false ->
  getline (mkStream (l ++ String HTTP.LF r) true) = (Some l, mkStream r true).
Proof.
  intros Hlf. unfold getline. cbn [negb good buf].
  pose proof (read_line_app l r Hlf) as E.
  destruct l as [|c l']; [reflexivity|].
  cbn [append] in E |- *. rewrite E. reflexivity.
Qed.

Lemma contains_char_app c a b :
  contains_char c (a ++ b)%string = contains_char c a || contains_char c b.
Proof.
  induction a as [|x a IH]; simpl; [reflexivity|].
  rewrite IH, orb_assoc. reflexivity.
Qed.

Lemma parse_headers_block lines :
  forall fuel eol body h,
    Forall (fun l => contains_char HTTP.LF l = false
                     /\ pop_back_CR l <> ""%string) lines ->
    eol = ""%string \/ eol = String HTTP.CR "" ->
    (List.length lines < fuel)%nat ->
    parse_headers fuel
      (mkStream (lines_text lines (eol ++ String HTTP.LF body)) true) h
    = Some (fold_left header_line (map pop_back_CR lines) h,
            mkStream body true).
Proof.
  induction lines as [|l ls IH]; intros fuel eol body h Hall Heol Hfuel.
  - destruct fuel as [|fuel]; [simpl in Hfuel; lia|].
    simpl. unfold getline. simpl.
    destruct Heol as [-> | ->]; reflexivity.
  - destruct fuel as [|fuel]; [simpl in Hfuel; lia|].
    inversion Hall as [|x xs [Hlf Hne] Hrest]; subst.
    cbn [lines_text parse_headers].
    rewrite (getline_line l _ Hlf).
    destruct (pop_back_CR l) as [|c p] eqn:Hp; [congruence|].
    cbn [Str.empty map fold_left]. rewrite Hp.
    apply IH; [exact Hrest|exact Heol|simpl in Hfuel; lia].
Qed.

(* ------------------------------------------------------------------ *)
(** ** [Server::parseRequest] *)

Lemma In_assign {V} k (v : V) m e :
  In e (StdMap.assign k v m) -> e = (k, v) \/ In e m.
Proof.
  induction m as [|[k' v'] m IH]; simpl.
  - intros [H|[]]; auto.
  - destruct (String.compare k k'); simpl.
    + intros [H|H]; auto.
    + intros [H|H]; auto.
    + intros [H|H]; auto. destruct (IH H); auto.
Qed.

Lemma extract_string_word st w st' :
  extract_string st = (Some w, st') ->
  no_space w = true /\ w <> ""%string.
Proof.
  unfold extract_string. destruct (good st); cbn [negb]; [|discriminate].
  destruct (Str.skip_spaces (buf st)) as [|c s] eqn:Hs; [discriminate|].
  pose proof (skip_spaces_head _ _ _ Hs) as Hc.
  pose proof (read_word_no_space (String c s)) as Hw.
  simpl in Hw |- *. rewrite Hc in Hw |- *.
  destruct (read_word s) as [w' r]. intros H. injection H as <- _.
  split; [exact Hw|discriminate].
Qed.

Lemma extract_string_no_space st :
  no_space (match fst (extract_string st) with
            | Some w => w
            | None => ""%string
            end) = true.
Proof.
  destruct (extract_string st) as [[w|] st'] eqn:H; [|reflexivity].
  exact (proj1 (extract_string_word _ _ _ H)).
Qed.

Lemma request_line_fields_no_space line :
  let '(m, u, p) := request_line_fields line in
  no_space m = true /\ no_space u = true /\ no_space p = true.
Proof.
  unfold request_line_fields.
  pose proof (extract_string_no_space (istringstream_of line)) as H1.
  destruct (extract_string (istringstream_of line)) as [m s1].
  pose proof (extract_string_no_space s1) as H2.
  destruct (extract_string s1) as [u s2].
  pose proof (extract_string_no_space s2) as H3.
  destruct (extract_string s2) as [p s3].
  auto.
Qed.

Lemma headers_normal_assign k v h :
  normal_entry (k, v) -> headers_normal h ->
  headers_normal (StdMap.assign k v h).
Proof.
  intros Hkv [Hwf Hall]. split; [apply assign_wf; exact Hwf|].
  intros k' v' Hin. destruct (In_assign _ _ _ _ Hin) as [E|Hin'].
  - injection E as -> ->. exact Hkv.
  - apply Hall. exact Hin'.
Qed.

Lemma headers_normal_nil : headers_normal [].
Proof. split; [constructor|intros k v []]. Qed.

Lemma getline_first raw :
  raw <> ""%string ->
  exists line st,
    getline (istringstream_of raw) = (Some line, st)
    /\ (String.length (buf st) < String.length raw)%nat.
Proof.
  intros Hne.
  destruct (getline (istringstream_of raw)) as [[line|] st] eqn:Hg.
  - exists line, st. split; [reflexivity|].
    exact (getline_shorter _ _ _ Hg).
  - unfold getline in Hg. simpl in Hg. destruct raw as [|c s]; [congruence|].
    destruct (Ascii.eqb c HTTP.LF); [discriminate|].
    destruct (read_line s) as [[l r] f]. discriminate.
Qed.

(** X6. [parseRequest] answers every input. It reports a missing request
    line exactly for the empty input. A request it accepts has a method and
    a URL that are not empty, and they and the protocol hold no white
    space; its header map is ordered by key without repetition; every
    stored name is in lower case and trimmed, every stored value is
    trimmed; and [Header] finds each stored entry under every spelling of
    its name. *)
Theorem parseRequest_accepts_normal_form raw :
  exists r,
    parseRequest raw = Some r
    /\ (err r = Some no_request_line <-> raw = ""%string)
    /\ (err r = None ->
        let req := value r in
        HTTP.method req <> ""%string /\ HTTP.url req <> ""%string
        /\ no_space (HTTP.method req) = true
        /\ no_space (HTTP.url req) = true
        /\ no_space (HTTP.proto req) = true
        /\ map_wf (HTTP.header req)
        /\ (forall k v, In (k, v) (HTTP.header req) ->
              toLower k = k /\ trim k = k /\ trim v = v)
        /\ (forall k v key,
              In (k, v) (HTTP.header req) -> toLower key = k ->
              Request_Header req key = v)).
Proof.
  destruct raw as [|c0 raw0] eqn:Hraw.
  { eexists. split; [reflexivity|]. split; [tauto|]. discriminate. }
  rewrite <- Hraw.
  assert (Hne : raw <> ""%string) by (subst; discriminate).
  destruct (getline_first raw Hne) as (line & st & Hg & Hlen).
  unfold parseRequest. rewrite Hg.
  pose proof (request_line_fields_no_space (pop_back_CR line)) as Hf.
  destruct (request_line_fields (pop_back_CR line)) as [[m u] p].
  destruct Hf as (Hm & Hu & Hp).
  destruct (Str.empty m || Str.empty u) eqn:He.
  { eexists. split; [reflexivity|]. cbn [err]. split.
    - split; [discriminate|congruence].
    - discriminate. }
  apply orb_false_elim in He. destruct He as [Hme Hue].
  destruct (parse_headers_returns (S (String.length raw)) st []
              ltac:(lia)) as ([header st'] & Hph).
  rewrite Hph.
  pose proof (parse_headers_keeps headers_normal headers_normal_assign
                _ _ _ _ headers_normal_nil Hph) as [Hwf Hall].
  cbn [fst] in Hwf, Hall.
  eexists. split; [reflexivity|]. cbn [err value]. split.
  - split; [discriminate|congruence].
  - intros _. cbn [HTTP.method HTTP.url HTTP.proto HTTP.header].
    repeat split.
    + intros ->. discriminate.
    + intros ->. discriminate.
    + exact Hm.
    + exact Hu.
    + exact Hp.
    + exact Hwf.
    + apply (Hall k v H).
    + apply (Hall k v H).
    + apply (Hall k v H).
    + intros k v key Hin Hkey. unfold Request_Header.
      cbn [HTTP.header]. rewrite Hkey.
      rewrite (In_find k v header (map_wf_NoDup header Hwf) Hin).
      reflexivity.
Qed.

(* ------------------------------------------------------------------ *)
(** ** The client's requests, read by the server *)

Lemma no_space_app a b :
  no_space (a ++ b)%string = no_space a && no_space b.
Proof.
  induction a as [|c a IH]; simpl; [reflexivity|].
  rewrite IH, andb_assoc. reflexivity.
Qed.

Lemma no_space_substring s :
  no_space s = true -> forall n m, no_space (substring n m s) = true.
Proof.
  induction s as [|c s IH]; intros H n m.
  - destruct n, m; reflexivity.
  - cbn [no_space] in H. apply andb_prop in H. destruct H as [Hc Hs].
    destruct n as [|n]; simpl.
    + destruct m as [|m]; [reflexivity|]. simpl. rewrite Hc. apply IH, Hs.
    + apply IH, Hs.
Qed.

Lemma no_space_no_LF s :
  no_space s = true -> contains_char HTTP.LF s = false.
Proof.
  induction s as [|c s IH]; intros H; [reflexivity|].
  cbn [no_space] in H. apply andb_prop in H. destruct H as [Hc Hs].
  cbn [contains_char]. rewrite (IH Hs), orb_false_r.
  destruct (Ascii.eqb c HTTP.LF) eqn:E; [|reflexivity].
  apply Ascii.eqb_eq in E. subst c. discriminate.
Qed.

Lemma no_space_to_string z : no_space (Str.to_string z) = true.
Proof.
  unfold Str.to_string. destruct z as [|p|p]; [reflexivity| |];
    cbn [Z.to_int NilZero.string_of_int]; rewrite string_of_uint_pos;
    cbn [no_space]; rewrite no_space_uint; reflexivity.
Qed.

Lemma url_target_no_space url t :
  HTTP.url_target url = Some t -> no_space url = true ->
  HTTP.path t <> ""%string
  /\ no_space (HTTP.path t) = true
  /\ no_space (HTTP.address t) = true.
Proof.
  intros Ht Hurl.
  assert (Hgen : forall n port secure,
    (let (address, path) := HTTP.split_rest (Str.substr_from url n) in
     Some (HTTP.mkTarget secure (HTTP.add_default_port address port) path))
    = Some t ->
    HTTP.path t <> ""%string
    /\ no_space (HTTP.path t) = true
    /\ no_space (HTTP.address t) = true).
  { intros n port secure.
    assert (Hrest : no_space (Str.substr_from url n) = true)
      by (apply no_space_substring; exact Hurl).
    destruct (rest_splits (Str.substr_from url n)) as (a & p & Hr & Ha & Hp).
    rewrite Hr in Hrest |- *. rewrite (split_rest_spec a p Ha Hp).
    rewrite no_space_app in Hrest. apply andb_prop in Hrest.
    destruct Hrest as [Hsa Hsp].
    intros H. injection H as <-. cbn [HTTP.path HTTP.address].
    split; [|split].
    - destruct Hp as [->|[q ->]]; discriminate.
    - destruct Hp as [->|[q ->]]; [reflexivity|exact Hsp].
    - rewrite add_default_port_spec. destruct (contains_char ":" a);
        [exact Hsa|].
      rewrite !no_space_app, Hsa, no_space_to_string. reflexivity. }
  unfold HTTP.url_target in Ht.
  destruct (HTTP.starts_with url "https://").
  - exact (Hgen _ _ _ Ht).
  - destruct (HTTP.starts_with url "http://"); [|discriminate].
    exact (Hgen _ _ _ Ht).
Qed.

Lemma extract_string_word_app w c r :
  w <> ""%string -> no_space w = true -> Str.isspace c = true ->
  extract_string (mkStream (w ++ String c r) true)
  = (Some w, mkStream (String c r) true).
Proof.
  intros Hne Hw Hc. unfold extract_string. cbn [negb good buf].
  destruct w as [|a w]; [congruence|].
  pose proof (read_word_app (String a w) c r Hw Hc) as E.
  cbn [no_space] in Hw. apply andb_prop in Hw. destruct Hw as [Ha _].
  apply negb_true_iff in Ha.
  cbn [append Str.skip_spaces] in E |- *. rewrite Ha, E. reflexivity.
Qed.

Lemma extract_string_word_end w :
  w <> ""%string -> no_space w = true ->
  extract_string (mkStream w true) = (Some w, mkStream "" false).
Proof.
  intros Hne Hw. unfold extract_string. cbn [negb good buf].
  destruct w as [|a w]; [congruence|].
  pose proof (read_word_whole (String a w) Hw) as E.
  cbn [no_space] in Hw. apply andb_prop in Hw. destruct Hw as [Ha _].
  apply negb_true_iff in Ha.
  cbn [Str.skip_spaces]. rewrite Ha, E. reflexivity.
Qed.

Lemma extract_string_skip c s :
  Str.isspace c = true ->
  extract_string (mkStream (String c s) true)
  = extract_string (mkStream s true).
Proof.
  intros Hc. unfold extract_string. cbn [negb good buf Str.skip_spaces].
  rewrite Hc. reflexivity.
Qed.

Lemma request_line_fields_three m u p :
  m <> ""%string -> u <> ""%string -> p <> ""%string ->
  no_space m = true -> no_space u = true -> no_space p = true ->
  request_line_fields (m ++ " " ++ u ++ " " ++ p)%string = (m, u, p).
Proof.
  intros Hm Hu Hp Hsm Hsu Hsp. unfold request_line_fields, istringstream_of.
  cbn [append].
  rewrite (extract_string_word_app m " " _ Hm Hsm eq_refl).
  rewrite (extract_string_skip " " _ eq_refl).
  rewrite (extract_string_word_app u " " _ Hu Hsu eq_refl).
  rewrite (extract_string_skip " " _ eq_refl).
  rewrite (extract_string_word_end p Hp Hsp).
  reflexivity.
Qed.

Lemma header_line_entry h k v :
  contains_char ":" k = false ->
  header_line h (k ++ String ":" v)%string
  = StdMap.assign (toLower (trim k)) (trim v) h.
Proof.
  intros Hk. unfold header_line. rewrite (find_char_app _ _ _ Hk).
  unfold Str.substr. rewrite substring_app_head.
  replace (String.length k + 1)%nat
    with (String.length (k ++ ":")%string)
    by (rewrite length_app_string; reflexivity).
  replace (k ++ String ":" v)%string with ((k ++ ":") ++ v)%string
    by (rewrite append_assoc_string; reflexivity).
  rewrite substr_from_app. reflexivity.
Qed.

(** A request text: request line, header lines, blank line, body. *)
Lemma parseRequest_text m u p lines body :
  m <> ""%string -> u <> ""%string -> p <> ""%string ->
  no_space m = true -> no_space u = true -> no_space p = true ->
  Forall (fun l => contains_char HTTP.LF l = false /\ l <> ""%string) lines ->
  parseRequest
    (lines_text
       (((m ++ " " ++ u ++ " " ++ p) ++ String HTTP.CR "")%string
        :: map (fun l => (l ++ String HTTP.CR "")%string) lines)
       (HTTP.CRLF ++ body))
  = Some (mkResult
            (HTTP.mkRequest m u p (fold_left header_line lines []) body "")
            None).
Proof.
  intros Hm Hu Hp Hsm Hsu Hsp Hlines.
  set (first := (m ++ " " ++ u ++ " " ++ p)%string).
  assert (Hfirst : contains_char HTTP.LF (first ++ String HTTP.CR "") = false).
  { unfold first. rewrite !contains_char_app.
    rewrite (no_space_no_LF m Hsm), (no_space_no_LF u Hsu),
      (no_space_no_LF p Hsp). reflexivity. }
  set (lines' := map (fun l => (l ++ String HTTP.CR "")%string) lines).
  unfold parseRequest. cbn [lines_text]. unfold istringstream_of.
  rewrite (getline_line _ _ Hfirst), pop_back_CR_app.
  unfold first at 1. rewrite (request_line_fields_three m u p); try assumption.
  replace (Str.empty m || Str.empty u) with false
    by (destruct m, u; try congruence; reflexivity).
  assert (Hblock : Forall (fun l => contains_char HTTP.LF l = false
                                    /\ pop_back_CR l <> ""%string) lines').
  { unfold lines'. apply Forall_map. apply Forall_impl with (2 := Hlines).
    intros l [Hl Hne]. rewrite pop_back_CR_app, contains_char_app, Hl.
    split; [reflexivity|exact Hne]. }
  assert (Hpop : map pop_back_CR lines' = lines).
  { unfold lines'. rewrite map_map. rewrite <- (map_id lines) at 2.
    apply map_ext. intros l. apply pop_back_CR_app. }
  rewrite (parse_headers_block lines' _ (String HTTP.CR "") body []
             Hblock (or_intror eq_refl)).
  - rewrite Hpop. reflexivity.
  - rewrite length_app_string. cbn [String.length].
    pose proof (lines_text_length lines' (HTTP.CRLF ++ body)). lia.
Qed.

Lemma Get_request_text t :
  Get_request t
  = lines_text
      ((("GET" ++ " " ++ HTTP.path t ++ " " ++ "HTTP/1.1")
          ++ String HTTP.CR "")%string
       :: map (fun l => (l ++ String HTTP.CR "")%string)
            [("Host: " ++ HTTP.address t)%string;
             "Connection: close"%string])
      (HTTP.CRLF ++ "").
Proof.
  unfold Get_request, HTTP.CRLF. cbn [lines_text map append].
  rewrite !append_assoc_string. reflexivity.
Qed.

Lemma Post_request_text t content_type body :
  Post_request t content_type body
  = lines_text
      ((("POST" ++ " " ++ HTTP.path t ++ " " ++ "HTTP/1.1")
          ++ String HTTP.CR "")%string
       :: map (fun l => (l ++ String HTTP.CR "")%string)
            [("Host: " ++ HTTP.address t)%string;
             ("Content-Type: " ++ content_type)%string;
             ("Content-Length: "
                ++ Str.to_string (Z.of_nat (String.length body)))%string;
             "Connection: close"%string])
      (HTTP.CRLF ++ body).
Proof.
  unfold Post_request, HTTP.CRLF. cbn [lines_text map append].
  rewrite !append_assoc_string. reflexivity.
Qed.

Lemma header_line_named h name value :
  contains_char ":" name = false ->
  header_line h (name ++ ": " ++ value)%string
  = StdMap.assign (toLower (trim name)) (trim value) h.
Proof.
  intros Hn. cbn [append]. rewrite (header_line_entry h name _ Hn).
  rewrite (trim_leading_space " " value eq_refl). reflexivity.
Qed.

(** X7. The request [Get] sends is the request the server reads: for every
    URL without white space that [Get] accepts, [parseRequest] accepts the
    text sent and finds the method GET, the path of the URL, the protocol
    HTTP/1.1, an empty body and two headers, the host with its port and
    "connection: close". *)
Theorem Get_request_is_parsed_back url t :
  HTTP.url_target url = Some t ->
  no_space url = true ->
  parseRequest (Get_request t)
  = Some (mkResult
            (HTTP.mkRequest "GET" (HTTP.path t) "HTTP/1.1"
               [("connection", "close"); ("host", HTTP.address t)]%string
               "" "")
            None).
Proof.
  intros Ht Hurl.
  destruct (url_target_no_space url t Ht Hurl) as (Hpne & Hpath & Haddr).
  rewrite Get_request_text.
  rewrite parseRequest_text; try assumption; try discriminate;
    try reflexivity.
  - cbn [fold_left].
    change ("Host: " ++ HTTP.address t)%string
      with ("Host" ++ ": " ++ HTTP.address t)%string.
    rewrite (header_line_named [] "Host" (HTTP.address t) eq_refl).
    rewrite (trim_no_space _ Haddr). reflexivity.
  - repeat constructor; try discriminate.
    rewrite contains_char_app, (no_space_no_LF _ Haddr). reflexivity.
Qed.

Lemma Get_request_is_parsed_back_witness :
  parseRequest
    (Get_request (HTTP.mkTarget false "example.com:80" "/index.html"))
  = Some (mkResult
            (HTTP.mkRequest "GET" "/index.html" "HTTP/1.1"
               [("connection", "close"); ("host", "example.com:80")]%string
               "" "")
            None).
Proof.
  apply (Get_request_is_parsed_back "http://example.com/index.html"%string
           (HTTP.mkTarget false "example.com:80" "/index.html"));
    reflexivity.
Defined.

(** X8. The request [Post] sends is the request the server reads: for every
    URL without white space that [Post] accepts, a content type that is
    trimmed and holds no line feed, and any body, [parseRequest] accepts
    the text sent and finds the method POST, the path, the protocol, the
    body itself, and four headers: the host, the content type, the length
    of the body in decimal and "connection: close". *)
Theorem Post_request_is_parsed_back url t content_type body :
  HTTP.url_target url = Some t ->
  no_space url = true ->
  trim content_type = content_type ->
  contains_char HTTP.LF content_type = false ->
  parseRequest (Post_request t content_type body)
  = Some (mkResult
            (HTTP.mkRequest "POST" (HTTP.path t) "HTTP/1.1"
               [("connection", "close");
                ("content-length",
                 Str.to_string (Z.of_nat (String.length body)));
                ("content-type", content_type);
                ("host", HTTP.address t)]%string
               body "")
            None).
Proof.
  intros Ht Hurl Hct Hlf.
  destruct (url_target_no_space url t Ht Hurl) as (Hpne & Hpath & Haddr).
  rewrite Post_request_text.
  rewrite parseRequest_text; try assumption; try discriminate;
    try reflexivity.
  - cbn [fold_left].
    change ("Host: " ++ HTTP.address t)%string
      with ("Host" ++ ": " ++ HTTP.address t)%string.
    change ("Content-Type: " ++ content_type)%string
      with ("Content-Type" ++ ": " ++ content_type)%string.
    change ("Content-Length: "
              ++ Str.to_string (Z.of_nat (String.length body)))%string
      with ("Content-Length" ++ ": "
              ++ Str.to_string (Z.of_nat (String.length body)))%string.
    rewrite (header_line_named [] "Host" (HTTP.address t) eq_refl).
    rewrite (header_line_named _ "Content-Type" content_type eq_refl).
    rewrite (header_line_named _ "Content-Length" _ eq_refl).
    rewrite (trim_no_space _ Haddr), Hct,
      (trim_no_space _ (no_space_to_string _)).
    reflexivity.
  - repeat constructor; try discriminate.
    + rewrite contains_char_app, (no_space_no_LF _ Haddr). reflexivity.
    + rewrite contains_char_app, Hlf. reflexivity.
    + rewrite contains_char_app,
        (no_space_no_LF _ (no_space_to_string _)). reflexivity.
Qed.

Lemma Post_request_is_parsed_back_witness :
  parseRequest
    (Post_request (HTTP.mkTarget true "example.com:443" "/submit")
       "text/plain" "hello")
  = Some (mkResult
            (HTTP.mkRequest "POST" "/submit" "HTTP/1.1"
               [("connection", "close");
                ("content-length", "5");
                ("content-type", "text/plain");
                ("host", "example.com:443")]%string
               "hello" "")
            None).
Proof.
  apply (Post_request_is_parsed_back "https://example.com/submit"%string
           (HTTP.mkTarget true "example.com:443" "/submit")
           "text/plain"%string "hello"%string);
    reflexivity.
Defined.

(* ------------------------------------------------------------------ *)
(** ** The server's response, read by the client *)

Lemma skip_spaces_uint u rest :
  u <> Decimal.Nil ->
  Str.skip_spaces (NilEmpty.string_of_uint u ++ rest)%string
  = (NilEmpty.string_of_uint u ++ rest)%string.
Proof. destruct u; intros H; [congruence|reflexivity..]. Qed.

Lemma uint_digits_not_nil u : u <> Decimal.Nil -> uint_digits u <> [].
Proof. destruct u; intros H; [congruence|discriminate..]. Qed.

(** The unsigned part of [extract_int]. *)
Lemma extract_int_digits u (neg : bool) r :
  u <> Decimal.Nil ->
  match Str.leading_digits (NilEmpty.string_of_uint u ++ String " " r)%string with
  | [] => (0, mkStream (NilEmpty.string_of_uint u ++ String " " r)%string false)
  | ds =>
      let v := if neg then - Str.digits_value ds else Str.digits_value ds in
      let r' := skip_digits (NilEmpty.string_of_uint u ++ String " " r)%string in
      if Str.INT_MAX <? v then (Str.INT_MAX, mkStream r' false)
      else if v <? Str.INT_MIN then (Str.INT_MIN, mkStream r' false)
      else (v, mkStream r' (negb (Str.empty r')))
  end
  = let v := if neg then - Z.of_N (Pos.of_uint u) else Z.of_N (Pos.of_uint u) in
    if Str.INT_MAX <? v then (Str.INT_MAX, mkStream (String " " r) false)
    else if v <? Str.INT_MIN then (Str.INT_MIN, mkStream (String " " r) false)
    else (v, mkStream (String " " r) true).
Proof.
  intros Hu. rewrite leading_digits_uint, skip_digits_uint.
  change (Str.leading_digits (String " " r)) with (@nil Z).
  rewrite app_nil_r.
  change (skip_digits (String " " r)) with (String " " r).
  pose proof (uint_digits_not_nil u Hu) as Hne.
  rewrite <- digits_value_uint.
  destruct (uint_digits u) as [|d ds]; [congruence|]. reflexivity.
Qed.

Lemma extract_int_to_string code r old :
  Str.INT_MIN <= code <= Str.INT_MAX ->
  extract_int (mkStream (String " " (Str.to_string code ++ String " " r)) true)
              old
  = (code, mkStream (String " " r) true).
Proof.
  intros Hrange. unfold extract_int. cbn [negb good buf].
  cbn [Str.skip_spaces]; change (Str.isspace " ") with true; cbv iota.
  unfold Str.to_string.
  destruct code as [|p|p]; cbn [Z.to_int NilZero.string_of_int].
  - reflexivity.
  - rewrite string_of_uint_pos.
    pose proof (to_uint_not_Nil p) as Hu.
    rewrite (skip_spaces_uint _ _ Hu).
    pose proof (extract_int_digits (Pos.to_uint p) false r Hu) as E.
    rewrite DecimalPos.Unsigned.of_to in E. cbv zeta in E.
    replace (Str.INT_MAX <? Z.of_N (N.pos p)) with false in E
      by (symmetry; apply Z.ltb_ge; simpl; lia).
    replace (Z.of_N (N.pos p) <? Str.INT_MIN) with false in E
      by (symmetry; apply Z.ltb_ge; simpl; unfold Str.INT_MIN; lia).
    destruct (Pos.to_uint p); [congruence|exact E..].
  - rewrite string_of_uint_pos.
    pose proof (to_uint_not_Nil p) as Hu.
    pose proof (extract_int_digits (Pos.to_uint p) true r Hu) as E.
    rewrite DecimalPos.Unsigned.of_to in E. cbv zeta in E.
    replace (Str.INT_MAX <? - Z.of_N (N.pos p)) with false in E
      by (symmetry; apply Z.ltb_ge; simpl; unfold Str.INT_MAX; lia).
    replace (- Z.of_N (N.pos p) <? Str.INT_MIN) with false in E
      by (symmetry; apply Z.ltb_ge; simpl; lia).
    cbn [append Str.skip_spaces]. change (Str.isspace "-") with false.
    cbv iota. exact E.
Qed.

Lemma no_LF_to_string z : contains_char HTTP.LF (Str.to_string z) = false.
Proof. apply no_space_no_LF, no_space_to_string. Qed.

Lemma status_text_plain code :
  contains_char HTTP.LF (HTTP.status_text code) = false
  /\ trim (HTTP.status_text code) = HTTP.status_text code.
Proof.
  unfold HTTP.status_text.
  repeat match goal with
         | |- context [if ?b then _ else _] => destruct b
         end; split; reflexivity.
Qed.

Lemma header_lines_text headers rest :
  (HTTP.header_lines headers ++ rest)%string
  = lines_text
      (map (fun l => (l ++ String HTTP.CR "")%string)
         (map (fun kv => (fst kv ++ ": " ++ snd kv)%string) headers))
      rest.
Proof.
  induction headers as [|[k v] headers IH].
  - reflexivity.
  - rewrite header_lines_cons. cbn [map lines_text fst snd].
    rewrite <- IH. unfold HTTP.CRLF.
    rewrite ?append_assoc_string. cbn [append].
    rewrite ?append_assoc_string. reflexivity.
Qed.

Lemma response_text code headers body :
  (HTTP.response_head code headers ++ body)%string
  = lines_text
      ((("HTTP/1.1" ++ " " ++ Str.to_string code ++ " "
           ++ HTTP.status_text code) ++ String HTTP.CR "")%string
       :: map (fun l => (l ++ String HTTP.CR "")%string)
            (map (fun kv => (fst kv ++ ": " ++ snd kv)%string) headers))
      (HTTP.CRLF ++ body).
Proof.
  unfold HTTP.response_head. cbn [lines_text].
  rewrite <- header_lines_text. unfold HTTP.CRLF.
  rewrite ?append_assoc_string. cbn [append].
  rewrite ?append_assoc_string. reflexivity.
Qed.

Lemma fold_header_lines headers :
  Forall one_line_header headers ->
  forall h,
    fold_left header_line
      (map (fun kv => (fst kv ++ ": " ++ snd kv)%string) headers) h
    = fold_left
        (fun h kv =>
           StdMap.assign (toLower (trim (fst kv))) (trim (snd kv)) h)
        headers h.
Proof.
  induction 1 as [|[k v] headers (Hk & _ & _) _ IH]; intros h.
  - reflexivity.
  - cbn [map fold_left fst snd] in *.
    rewrite (header_line_named h k v Hk). apply IH.
Qed.

(** X9. The response the server writes is the response the client reads.
    For a status code that fits an [int], headers whose names hold no colon
    and which hold no line feed, and any body: the text made of the block
    [WriteHeader] puts on the wire and the body, given to the parser of
    [Get] and [Post], yields the protocol HTTP/1.1, that status code, its
    status text, that body, and the headers with names trimmed and in
    lower case and values trimmed. *)
Theorem response_is_parsed_back code headers body :
  Str.INT_MIN <= code <= Str.INT_MAX ->
  Forall one_line_header headers ->
  parseResponse (HTTP.response_head code headers ++ body)%string
  = Some (mkResult
            (HTTP.mkResponse "HTTP/1.1" code (HTTP.status_text code)
               (received_headers headers) body)
            None).
Proof.
  intros Hcode Hheaders.
  destruct (status_text_plain code) as [Hst_lf Hst_trim].
  rewrite response_text.
  set (first := ("HTTP/1.1" ++ " " ++ Str.to_string code ++ " "
                   ++ HTTP.status_text code)%string).
  set (lines := map (fun kv => (fst kv ++ ": " ++ snd kv)%string) headers).
  set (lines' := map (fun l => (l ++ String HTTP.CR "")%string) lines).
  assert (Hfirst : contains_char HTTP.LF (first ++ String HTTP.CR "") = false).
  { unfold first. rewrite !contains_char_app, no_LF_to_string, Hst_lf.
    reflexivity. }
  unfold parseResponse. cbn [lines_text]. unfold istringstream_of.
  rewrite (getline_line _ _ Hfirst), pop_back_CR_app.
  unfold first at 1. cbn [append].
  pose proof (extract_string_word_app "HTTP/1.1" " "
                (Str.to_string code ++ String " " (HTTP.status_text code))
                ltac:(discriminate) eq_refl eq_refl) as Eproto.
  cbn [append] in Eproto. rewrite Eproto. clear Eproto.
  rewrite (extract_int_to_string code _ 0 Hcode).
  assert (Hstatus : getline (mkStream (String " " (HTTP.status_text code)) true)
                    = (Some (String " " (HTTP.status_text code)),
                       mkStream "" false)).
  { unfold getline. cbn [negb good buf].
    rewrite (read_line_whole (String " " (HTTP.status_text code)));
      [reflexivity|].
    cbn [contains_char]. rewrite Hst_lf. reflexivity. }
  rewrite Hstatus. rewrite (trim_leading_space " " _ eq_refl), Hst_trim.
  assert (Hblock : Forall (fun l => contains_char HTTP.LF l = false
                                    /\ pop_back_CR l <> ""%string) lines').
  { unfold lines', lines. rewrite map_map. apply Forall_map.
    apply Forall_impl with (2 := Hheaders).
    intros [k v] (_ & Hk & Hv). cbn [fst snd] in *.
    rewrite pop_back_CR_app, !contains_char_app, Hk, Hv.
    split; [reflexivity|]. destruct k; discriminate. }
  assert (Hpop : map pop_back_CR lines' = lines).
  { unfold lines'. rewrite map_map. rewrite <- (map_id lines) at 2.
    apply map_ext. intros l. apply pop_back_CR_app. }
  rewrite (parse_headers_block lines' _ (String HTTP.CR "") body []
             Hblock (or_intror eq_refl)).
  - rewrite Hpop. unfold lines. rewrite (fold_header_lines headers Hheaders).
    reflexivity.
  - rewrite length_app_string. cbn [String.length].
    pose proof (lines_text_length lines' (HTTP.CRLF ++ body)). lia.
Qed.

Lemma response_is_parsed_back_witness :
  parseResponse
    (HTTP.response_head 404 [("Content-Type", "text/plain")] ++ "gone")%string
  = Some (mkResult
            (HTTP.mkResponse "HTTP/1.1" 404 "Not Found"
               [("content-type", "text/plain")]%string "gone")
            None).
Proof.
  apply (response_is_parsed_back 404
           [("Content-Type", "text/plain")]%string "gone"%string).
  - unfold Str.INT_MIN, Str.INT_MAX. lia.
  - repeat constructor.
Defined.

(* ------------------------------------------------------------------ *)
(** ** The parser inside [ListenAndServeTLS] *)

(** X10. The request parser written out inside [ListenAndServeTLS] never
    rejects: it yields a request for every input. Method, URL and protocol
    are those [parseRequest] finds; when [parseRequest] accepts the input
    the two requests are the same; when [parseRequest] rejects it, the
    request handed on has an empty method or an empty URL. *)
Theorem inline_parser_never_rejects raw :
  exists req r,
    parseRequest_inline raw = Some req
    /\ parseRequest raw = Some r
    /\ HTTP.method req = HTTP.method (value r)
    /\ HTTP.url req = HTTP.url (value r)
    /\ HTTP.proto req = HTTP.proto (value r)
    /\ (err r = None -> req = value r)
    /\ (err r <> None ->
        HTTP.method req = ""%string \/ HTTP.url req = ""%string).
Proof.
  destruct raw as [|c0 raw0] eqn:Hraw.
  { do 2 eexists. split; [reflexivity|]. split; [reflexivity|].
    cbn. repeat split; try discriminate. auto. }
  rewrite <- Hraw.
  assert (Hne : raw <> ""%string) by (subst; discriminate).
  destruct (getline_first raw Hne) as (line & st & Hg & Hlen).
  unfold parseRequest_inline, parseRequest. rewrite Hg.
  destruct (request_line_fields (pop_back_CR line)) as [[m u] p].
  destruct (parse_headers_returns (S (String.length raw)) st []
              ltac:(lia)) as ([header st'] & Hph).
  rewrite Hph.
  destruct (Str.empty m || Str.empty u) eqn:He.
  - do 2 eexists. split; [reflexivity|]. split; [reflexivity|].
    cbn. repeat split; try discriminate.
    intros _. apply orb_prop in He.
    destruct He as [He|He]; [left; destruct m|right; destruct u];
      (reflexivity || discriminate).
  - do 2 eexists. split; [reflexivity|]. split; [reflexivity|].
    cbn. repeat split; congruence.
Qed.

(* ------------------------------------------------------------------ *)
(** ** [ExpandEnv] *)

Section ExpandEnvFacts.

Variable getenv : string -> option string.

Let step := Env.ExpandEnv_step getenv.
Let loop := Env.ExpandEnv_loop getenv.

Lemma name_end_shift c s gap e :
  Env.name_end (String c s) gap (S e) = S (Env.name_end s gap e).
Proof.
  revert e. induction gap as [|g IH]; intros e; [reflexivity|].
  cbn [Env.name_end]. change (Env.at_ (String c s) (S e)) with (Env.at_ s e).
  destruct (Env.name_char (Env.at_ s e)); [apply IH|reflexivity].
Qed.

Lemma index_shift n pat c s :
  index (S n) pat (String c s)
  = match index n pat s with
    | Some m => Some (S m)
    | None => None
    end.
Proof. reflexivity. Qed.

Lemma step_shift c s i :
  step (String c s) (S i) = (fst (step s i), S (snd (step s i))).
Proof.
  unfold step, Env.ExpandEnv_step.
  change (Env.at_ (String c s) (S i)) with (Env.at_ s i).
  change (Env.at_ (String c s) (S i + 1)) with (Env.at_ s (i + 1)).
  change (S i + 1 <? String.length (String c s))%nat
    with (i + 1 <? String.length s)%nat.
  change (S i + 2)%nat with (S (i + 2)). rewrite index_shift.
  change (String.length (String c s) - (S i + 1))%nat
    with (String.length s - (i + 1))%nat.
  change (S i + 1)%nat with (S (i + 1)). rewrite name_end_shift.
  change (S (i + 1) <? S ?e)%nat with (i + 1 <? e)%nat.
  destruct (Ascii.eqb (Env.at_ s i) "$"); [|reflexivity].
  destruct (i + 1 <? String.length s)%nat; [|reflexivity].
  destruct (Ascii.eqb (Env.at_ s (i + 1)) "{").
  - destruct (index (i + 2) "}" s); reflexivity.
  - match goal with
    | |- context [(i + 1 <? ?e)%nat] => destruct (i + 1 <? e)%nat
    end; reflexivity.
Qed.

Lemma loop_shift c s fuel :
  forall i r, loop fuel (String c s) (S i) r = loop fuel s i r.
Proof.
  induction fuel as [|fuel IH]; intros i r; [reflexivity|].
  unfold loop in *. cbn [Env.ExpandEnv_loop].
  change (S i <? String.length (String c s))%nat
    with (i <? String.length s)%nat.
  destruct (i <? String.length s)%nat; [|reflexivity].
  pose proof (step_shift c s i) as E. unfold step in E. rewrite E.
  destruct (Env.ExpandEnv_step getenv s i) as [piece j]. apply IH.
Qed.

Lemma loop_skip pre s fuel i r :
  loop fuel (pre ++ s)%string (String.length pre + i) r = loop fuel s i r.
Proof.
  induction pre as [|c pre IH]; [reflexivity|].
  cbn [append String.length Nat.add]. rewrite loop_shift. exact IH.
Qed.

Lemma loop_acc fuel s :
  forall i r0 r,
    loop fuel s i (r0 ++ r)%string
    = option_map (append r0) (loop fuel s i r).
Proof.
  induction fuel as [|fuel IH]; intros i r0 r; [reflexivity|].
  unfold loop in *. cbn [Env.ExpandEnv_loop].
  destruct (i <? String.length s)%nat; [|reflexivity].
  destruct (Env.ExpandEnv_step getenv s i) as [piece j].
  rewrite append_assoc_string. apply IH.
Qed.

Lemma name_end_ge s gap e : (e <= Env.name_end s gap e)%nat.
Proof.
  revert e. induction gap as [|g IH]; intros e; simpl; [lia|].
  destruct (Env.name_char (Env.at_ s e)); [|lia].
  specialize (IH (S e)). lia.
Qed.

Lemma index_ge pat s : forall n m, index n pat s = Some m -> (n <= m)%nat.
Proof.
  induction s as [|c s IH]; intros n m.
  - destruct n; simpl; [|discriminate]. destruct pat; [|discriminate].
    intros H; injection H as <-. lia.
  - destruct n as [|n].
    + intros _. lia.
    + rewrite index_shift. destruct (index n pat s) as [k|] eqn:Hk;
        [|discriminate].
      intros H; injection H as <-. specialize (IH n k Hk). lia.
Qed.

Lemma step_forward s i : (i < snd (step s i))%nat.
Proof.
  unfold step, Env.ExpandEnv_step.
  destruct (Ascii.eqb (Env.at_ s i) "$"); [|simpl; lia].
  destruct (i + 1 <? String.length s)%nat; [|simpl; lia].
  destruct (Ascii.eqb (Env.at_ s (i + 1)) "{").
  - destruct (index (i + 2) "}" s) as [e|] eqn:He; [|simpl; lia].
    apply index_ge in He. simpl. lia.
  - match goal with
    | |- context [(i + 1 <? ?e)%nat] => destruct (i + 1 <? e)%nat eqn:Hlt
    end; [|simpl; lia].
    apply Nat.ltb_lt in Hlt. simpl. lia.
Qed.

Lemma loop_fuel f1 :
  forall f2 s i r,
    (String.length s - i < f1)%nat -> (String.length s - i < f2)%nat ->
    loop f1 s i r = loop f2 s i r.
Proof.
  induction f1 as [|f1 IH]; intros f2 s i r H1 H2; [lia|].
  destruct f2 as [|f2]; [lia|].
  unfold loop in *. cbn [Env.ExpandEnv_loop].
  destruct (i <? String.length s)%nat eqn:Hi; [|reflexivity].
  apply Nat.ltb_lt in Hi.
  pose proof (step_forward s i) as Hf. unfold step in Hf.
  destruct (Env.ExpandEnv_step getenv s i) as [piece j]. simpl in Hf.
  apply IH; lia.
Qed.

Lemma loop_returns f :
  forall s i r,
    (String.length s - i < f)%nat -> exists x, loop f s i r = Some x.
Proof.
  induction f as [|f IH]; intros s i r H; [lia|].
  unfold loop in *. cbn [Env.ExpandEnv_loop].
  destruct (i <? String.length s)%nat eqn:Hi; [|eexists; reflexivity].
  apply Nat.ltb_lt in Hi.
  pose proof (step_forward s i) as Hf. unfold step in Hf.
  destruct (Env.ExpandEnv_step getenv s i) as [piece j]. simpl in Hf.
  apply IH. lia.
Qed.

(** One turn at index 0 that consumes [pre], then the rest. *)
Lemma ExpandEnv_unfold pre rest piece :
  pre <> ""%string ->
  step (pre ++ rest)%string 0 = (piece, String.length pre) ->
  Env.ExpandEnv getenv (pre ++ rest)%string
  = option_map (append piece) (Env.ExpandEnv getenv rest).
Proof.
  intros Hne Hstep. unfold Env.ExpandEnv.
  cbn [Env.ExpandEnv_loop].
  replace (0 <? String.length (pre ++ rest))%nat with true
    by (symmetry; apply Nat.ltb_lt; destruct pre; [congruence|simpl; lia]).
  unfold step in Hstep. rewrite Hstep. cbn [append].
  fold loop.
  replace (String.length pre) with (String.length pre + 0)%nat by lia.
  rewrite loop_skip.
  rewrite (loop_fuel _ (S (String.length rest)) rest 0 piece).
  - rewrite <- (append_empty_r piece) at 1. apply loop_acc.
  - rewrite length_app_string. destruct pre; [congruence|simpl; lia].
  - lia.
Qed.

Lemma name_end_name name r :
  all_name_chars name = true -> first_is Env.name_char r = false ->
  Env.name_end (name ++ r)%string (String.length (name ++ r)) 0
  = String.length name.
Proof.
  intros Hname Hr. induction name as [|c name IH].
  - destruct r as [|c r]; [reflexivity|]. simpl in Hr |- *.
    change (Env.at_ (String c r) 0) with c. rewrite Hr. reflexivity.
  - cbn [all_name_chars] in Hname. apply andb_prop in Hname.
    destruct Hname as [Hc Hname].
    cbn [append String.length Env.name_end].
    change (Env.at_ (String c (name ++ r)) 0) with c. rewrite Hc.
    rewrite name_end_shift, (IH Hname). reflexivity.
Qed.

Lemma step_literal c r :
  c <> "$"%char -> step (String c r) 0 = (String c "", 1%nat).
Proof.
  intros Hc. unfold step, Env.ExpandEnv_step.
  change (Env.at_ (String c r) 0) with c.
  destruct (Ascii.eqb c "$") eqn:E; [|reflexivity].
  apply Ascii.eqb_eq in E. congruence.
Qed.

Lemma step_braces var r :
  contains_char "}" var = false ->
  step ("${" ++ var ++ "}" ++ r)%string 0
  = (Env.Getenv getenv var, String.length ("${" ++ var ++ "}")%string).
Proof.
  intros Hvar. unfold step, Env.ExpandEnv_step.
  cbn [append Nat.add]. 
  change (Env.at_ (String "$" ?s) 0) with "$"%char.
  change (Env.at_ (String "$" (String "{" ?s)) 1) with "{"%char.
  cbn [Ascii.eqb Bool.eqb String.length Nat.ltb Nat.leb].
  rewrite !index_shift.
  pose proof (find_char_app "}" var r Hvar) as E. unfold Str.find_char in E.
  rewrite E. unfold Str.substr.
  replace (S (S (String.length var)) - 0 - 2)%nat with (String.length var)
    by lia.
  change (substring 2 ?n (String "$" (String "{" ?s)))
    with (substring 0 n s).
  rewrite substring_app_head, length_app_string. cbn [String.length].
  f_equal. lia.
Qed.

Lemma step_open_brace r :
  contains_char "}" r = false ->
  step ("${" ++ r)%string 0 = ("$"%string, 1%nat).
Proof.
  intros Hr. unfold step, Env.ExpandEnv_step.
  cbn [append Nat.add].
  change (Env.at_ (String "$" ?s) 0) with "$"%char.
  change (Env.at_ (String "$" (String "{" ?s)) 1) with "{"%char.
  cbn [Ascii.eqb Bool.eqb String.length Nat.ltb Nat.leb].
  rewrite !index_shift.
  pose proof (find_char_absent "}" r Hr) as E. unfold Str.find_char in E.
  rewrite E. reflexivity.
Qed.

Lemma name_char_not_brace c : Env.name_char c = true -> Ascii.eqb c "{" = false.
Proof.
  destruct (Ascii.eqb c "{") eqn:E; [|reflexivity].
  apply Ascii.eqb_eq in E. subst c. discriminate.
Qed.

Lemma step_name name r :
  name <> ""%string -> all_name_chars name = true ->
  first_is Env.name_char r = false ->
  step ("$" ++ name ++ r)%string 0
  = (Env.Getenv getenv name, String.length ("$" ++ name)%string).
Proof.
  intros Hne Hname Hr. unfold step, Env.ExpandEnv_step.
  cbn [append Nat.add].
  change (Env.at_ (String "$" ?s) 0) with "$"%char.
  change (Env.at_ (String "$" ?s) 1) with (Env.at_ s 0).
  cbn [Ascii.eqb Bool.eqb String.length].
  change (S (String.length (name ++ r)) - 1)%nat
    with (String.length (name ++ r) - 0)%nat.
  rewrite Nat.sub_0_r, name_end_shift, (name_end_name name r Hname Hr).
  destruct name as [|c name]; [congruence|].
  cbn [all_name_chars] in Hname. apply andb_prop in Hname.
  destruct Hname as [Hc _].
  cbn [append String.length].
  change (Env.at_ (String c ?s) 0) with c.
  rewrite (name_char_not_brace c Hc).
  change (1 <? S (S ?n))%nat with true.
  cbv iota. unfold Str.substr.
  change (substring 1 ?n (String "$" ?s)) with (substring 0 n s).
  replace (S (S (String.length name)) - 1)%nat
    with (String.length (String c name)) by (simpl; lia).
  change (String c (name ++ r)) with (String c name ++ r)%string.
  rewrite substring_app_head. reflexivity.
Qed.

Lemma step_dollar r :
  first_is (fun c => Env.name_char c || Ascii.eqb c "{") r = false ->
  step (String "$" r) 0 = ("$"%string, 1%nat).
Proof.
  intros Hr. unfold step, Env.ExpandEnv_step.
  cbn [Nat.add].
  change (Env.at_ (String "$" ?s) 0) with "$"%char.
  change (Env.at_ (String "$" ?s) 1) with (Env.at_ s 0).
  cbn [Ascii.eqb Bool.eqb String.length].
  destruct r as [|c r]; [reflexivity|].
  cbn [first_is] in Hr. apply orb_false_elim in Hr. destruct Hr as [Hn Hb].
  change (Env.at_ (String c r) 0) with c. rewrite Hb.
  change (S (String.length (String c r)) - 1)%nat
    with (S (String.length r)).
  cbn [Env.name_end].
  change (Env.at_ (String "$" (String c r)) 1) with c. rewrite Hn.
  destruct (1 <? S (String.length (String c r)))%nat; reflexivity.
Qed.

(** X11. [ExpandEnv] answers every input, and scans it from left to right
    by these rules, which cover every input: a character other than a
    dollar sign is copied; "${" up to the next closing brace is replaced by
    the value of the name between the braces; "${" without a closing brace
    after it is copied; a dollar sign followed by letters, digits and
    underscores is replaced by the value of the longest such name; any
    other dollar sign is copied. A value put in is not scanned again, and
    a text without dollar sign is returned as it is. *)
Theorem ExpandEnv_rules :
  let expand := Env.ExpandEnv getenv in
  (forall s, exists r, expand s = Some r)
  /\ expand ""%string = Some ""%string
  /\ (forall c r,
        c <> "$"%char ->
        expand (String c r) = option_map (String c) (expand r))
  /\ (forall var r,
        contains_char "}" var = false ->
        expand ("${" ++ var ++ "}" ++ r)%string
        = option_map (append (Env.Getenv getenv var)) (expand r))
  /\ (forall r,
        contains_char "}" r = false ->
        expand ("${" ++ r)%string = option_map (append "${") (expand r))
  /\ (forall name r,
        name <> ""%string -> all_name_chars name = true ->
        first_is Env.name_char r = false ->
        expand ("$" ++ name ++ r)%string
        = option_map (append (Env.Getenv getenv name)) (expand r))
  /\ (forall r,
        first_is (fun c => Env.name_char c || Ascii.eqb c "{") r = false ->
        expand (String "$" r) = option_map (String "$") (expand r))
  /\ (forall s, contains_char "$" s = false -> expand s = Some s).
Proof.
  cbv zeta.
  assert (Hlit : forall c r,
             c <> "$"%char ->
             Env.ExpandEnv getenv (String c r)
             = option_map (String c) (Env.ExpandEnv getenv r)).
  { intros c r Hc.
    exact (ExpandEnv_unfold (String c "") r (String c "")
             ltac:(discriminate) (step_literal c r Hc)). }
  split; [|split; [reflexivity|split; [exact Hlit|split; [|split; [|split;
    [|split]]]]]].
  - intros s. apply loop_returns. lia.
  - intros var r Hvar.
    pose proof (ExpandEnv_unfold ("${" ++ var ++ "}") r
                  (Env.Getenv getenv var) ltac:(discriminate)) as E.
    rewrite append_assoc_string in E. cbn [append] in E |- *.
    rewrite append_assoc_string in E. apply E.
    exact (step_braces var r Hvar).
  - intros r Hr.
    pose proof (ExpandEnv_unfold "$" (String "{" r) "$"
                  ltac:(discriminate) (step_open_brace r Hr)) as E.
    cbn [append] in E |- *. rewrite E, (Hlit "{"%char r ltac:(discriminate)).
    destruct (Env.ExpandEnv getenv r); reflexivity.
  - intros name r Hne Hname Hr.
    pose proof (ExpandEnv_unfold ("$" ++ name) r
                  (Env.Getenv getenv name) ltac:(discriminate)) as E.
    cbn [append] in E |- *. apply E.
    exact (step_name name r Hne Hname Hr).
  - intros r Hr.
    exact (ExpandEnv_unfold "$" r "$" ltac:(discriminate) (step_dollar r Hr)).
  - induction s as [|c s IH]; intros Hs; [reflexivity|].
    cbn [contains_char] in Hs. apply orb_false_elim in Hs.
    destruct Hs as [Hc Hs]. rewrite Hlit, (IH Hs); [reflexivity|].
    intros ->. discriminate.
Qed.

End ExpandEnvFacts.

(* ------------------------------------------------------------------ *)
(** ** The listening side *)

Local Ltac srun :=
  unfold Listen.sbind, Listen.sret, Listen.scall, Listen.lift,
    Listen.server_ssl_error_text; simpl.

Local Ltac split_ifs :=
  repeat match goal with
         | |- context [if ?b then _ else _] =>
             match type of b with
             | bool => destruct b eqn:?; simpl
             end
         end.


(** X13. [TLSListener::Accept] leaves the listener as it is and, when it
    fails, gives back what it obtained: the accepted socket is closed and
    the session freed. When it succeeds, it has accepted one socket and
    made one session, and it returns a connection that is open on that
    socket with that session and no context of its own; but the socket has
    been closed by then: the connection object of [TCPListener::Accept]
    still owns it when [Accept] returns, and closes it as it dies. *)
Theorem TLSListener_Accept_closes_the_socket os l tr :
  exists d,
    snd (Listen.Accept os l tr) = tr ++ d
    /\ snd (fst (Listen.Accept os l tr)) = l
    /\ let r := fst (fst (Listen.Accept os l tr)) in
       match err r with
       | Some _ =>
           value r = None
           /\ released (plain_part d) = obtained os wants_socket tr d
           /\ ssl_freed (plain_part d) = obtained os wants_ssl tr d
       | None =>
           exists c fd ssl,
             value r = Some c
             /\ obtained os wants_socket tr d = [fd]
             /\ obtained os wants_ssl tr d = [ssl]
             /\ TCP.socket_fd_ (TLS.base c) = fd
             /\ TCP.closed_ (TLS.base c) = false
             /\ TLS.ssl_ c = Some ssl
             /\ TLS.ctx_ c = None
             /\ ssl_freed (plain_part d) = []
             /\ released (plain_part d) = [fd]
       end.
Proof.
  destruct l as [[lfd laddr lclosed] lctx].
  unfold Listen.Accept, Listen.accept_fail, TCP.Accept, TCP.destroy,
    TCP.close. srun.
  destruct lclosed; simpl.
  { exists []. rewrite !app_nil_r. repeat split. }
  unfold mbind, call, mret. simpl. rewrite !app_nil_r.
  destruct (ret (Listen.server_reply os tr (Listen.plain (sys_accept lfd)))
            =? Sys.INVALID_SOCKET) eqn:Hacc; simpl.
  { exists [Listen.plain (sys_accept lfd)]. split; [reflexivity|].
    split; [reflexivity|]. simpl. rewrite Hacc. repeat split. }
  set (fd := ret (Listen.server_reply os tr
                    (Listen.plain (sys_accept lfd)))) in *.
  rewrite ?app_nil_r.
  split_ifs.
  all: rewrite ?app_nil_r; simpl.
  all: set (ctx := match lctx with Some c => c | None => 0 end) in *.
  all: set (ssl := ret (Listen.server_reply os
                          (tr ++ [Listen.plain (sys_accept lfd)])
                          (Listen.plain (SSL_new ctx)))) in *.
  all: eexists; rewrite <- !app_assoc; simpl;
    (split; [reflexivity|]); (split; [reflexivity|]).
  - simpl. fold fd. rewrite Hacc. fold ctx. fold ssl. rewrite Heqb.
    repeat split.
  - simpl. fold fd. rewrite Hacc. fold ctx. fold ssl. rewrite Heqb.
    repeat split.
  - exists (TLS.new_TLSConn fd ssl 0), fd, ssl.
    simpl. fold fd. rewrite Hacc. fold ctx. fold ssl. rewrite Heqb.
    unfold TLS.new_TLSConn. rewrite Heqb. repeat split.
Qed.


Lemma obtained_app os want d1 :
  forall hist d2,
    obtained os want hist (d1 ++ d2)
    = obtained os want hist d1 ++ obtained os want (hist ++ d1) d2.
Proof.
  induction d1 as [|c d1 IH]; intros hist d2; simpl.
  - rewrite app_nil_r. reflexivity.
  - rewrite IH, <- app_assoc. simpl.
    destruct (want c) as [none|]; [|reflexivity].
    destruct (ret _ =? none); reflexivity.
Qed.

Lemma plain_part_app d1 d2 :
  plain_part (d1 ++ d2) = plain_part d1 ++ plain_part d2.
Proof.
  induction d1 as [|c d1 IH]; simpl; [reflexivity|].
  destruct c; simpl; rewrite ?IH; reflexivity.
Qed.

Lemma ListenTLS_accounts os network address config tr r tr' :
  Listen.ListenTLS os network address config tr = (r, tr') ->
  exists d,
    tr' = tr ++ d
    /\ (Str.empty (TLS.cert_file config) || Str.empty (TLS.key_file config)
        = true ->
        d = [] /\ err r <> None)
    /\ match err r with
       | Some _ =>
           value r = None
           /\ released (plain_part d) = obtained os wants_socket tr d
           /\ ctx_freed (plain_part d) = obtained os wants_ctx tr d
       | None =>
           exists l fd ctx,
             value r = Some l
             /\ obtained os wants_socket tr d = [fd]
             /\ obtained os wants_ctx tr d = [ctx]
             /\ TCP.l_socket_fd_ (TLS.l_base l) = fd
             /\ TCP.l_closed_ (TLS.l_base l) = false
             /\ TLS.l_ctx_ l = Some ctx
             /\ In (Listen.SSL_CTX_check_private_key ctx) d
             /\ ctx_freed (plain_part d) = []
             /\ released (plain_part d) = [fd]
       end.
Proof.
  unfold Listen.ListenTLS.
  destruct (Str.empty (TLS.cert_file config)
            || Str.empty (TLS.key_file config)) eqn:Hfiles.
  { intros H; injection H as <- <-. exists []. rewrite app_nil_r.
    repeat split. discriminate. }
  unfold Listen.sbind at 1. unfold Listen.scall at 1.
  set (ctx := ret (Listen.server_reply os tr Listen.SSL_CTX_new_server)).
  destruct (ctx =? 0) eqn:Hctx.
  { srun. intros H; injection H as <- <-. eexists. split; [reflexivity|].
    split; [discriminate|]. simpl. fold ctx. rewrite Hctx. repeat split. }
  set (tr1 := tr ++ [Listen.SSL_CTX_new_server]).
  assert (Hfinish : forall d2 (r : Result (option TLS.TLSListener)) T,
    T = tr1 ++ d2 ->
    match err r with
    | Some _ =>
        value r = None
        /\ released (plain_part d2) = obtained os wants_socket tr1 d2
        /\ ctx_freed (plain_part d2) = ctx :: obtained os wants_ctx tr1 d2
    | None =>
        exists l fd,
          value r = Some l
          /\ obtained os wants_socket tr1 d2 = [fd]
          /\ obtained os wants_ctx tr1 d2 = []
          /\ TCP.l_socket_fd_ (TLS.l_base l) = fd
          /\ TCP.l_closed_ (TLS.l_base l) = false
          /\ TLS.l_ctx_ l = Some ctx
          /\ In (Listen.SSL_CTX_check_private_key ctx) d2
          /\ ctx_freed (plain_part d2) = []
          /\ released (plain_part d2) = [fd]
    end ->
    exists d,
      T = tr ++ d
      /\ (false = true -> d = [] /\ err r <> None)
      /\ match err r with
         | Some _ =>
             value r = None
             /\ released (plain_part d) = obtained os wants_socket tr d
             /\ ctx_freed (plain_part d) = obtained os wants_ctx tr d
         | None =>
             exists l fd ctx,
               value r = Some l
               /\ obtained os wants_socket tr d = [fd]
               /\ obtained os wants_ctx tr d = [ctx]
               /\ TCP.l_socket_fd_ (TLS.l_base l) = fd
               /\ TCP.l_closed_ (TLS.l_base l) = false
               /\ TLS.l_ctx_ l = Some ctx
               /\ In (Listen.SSL_CTX_check_private_key ctx) d
               /\ ctx_freed (plain_part d) = []
               /\ released (plain_part d) = [fd]
         end).
  { intros d2 r0 T -> Hr0. exists ([Listen.SSL_CTX_new_server] ++ d2).
    unfold tr1. rewrite <- app_assoc. split; [reflexivity|].
    split; [discriminate|].
    rewrite !obtained_app, plain_part_app. fold tr1.
    cbn [obtained wants_socket wants_ctx plain_part app].
    fold ctx. rewrite Hctx.
    destruct (err r0).
    - destruct Hr0 as (Hv & Hrel & Hfree). repeat split; assumption.
    - destruct Hr0 as (l & fd & Hv & Hs & Hc & Hfd & Hcl & Hlc & Hin & Hf & Hr).
      exists l, fd, ctx. rewrite Hs, Hc. repeat split; try assumption.
      right. exact Hin. }
  unfold Listen.ListenTCP, Listen.destroy_listener, TCP.Close,
    Listen.TCPListener_of_fd, TCP.new_TCPListener.
  srun. unfold mbind, call, mret. simpl.
  fold ctx. fold tr1.
  destruct (TCP.parseAddress address) as [[host port]|]; simpl;
    split_ifs;
    (match goal with
     | |- (?R, ?T) = _ -> _ =>
         intros H; injection H as <- <-; eapply (Hfinish _ R T)
     end;
       [rewrite <- ?app_assoc; simpl; reflexivity|]);
    clear Hfinish; simpl;
    repeat match goal with
           | H : context [(_ ++ _) ++ _] |- _ =>
               rewrite <- !app_assoc in H; simpl in H
           end;
    rewrite <- ?app_assoc; simpl;
    repeat match goal with
           | H : (_ =? _) = _ |- _ => rewrite H
           end;
    simpl.
  all: try (repeat split; fail).
  all: eexists; eexists; repeat split; simpl; tauto.
Qed.

(** X14. [ListenTLS] asks for a certificate and a key before it does
    anything: with one of them missing it fails without a call. When it
    fails, it gives back what it obtained: the context is freed and the
    socket closed. When it succeeds, it has checked the key against the
    certificate, made one context and one socket, freed no context, and
    returns a listener that is open on that socket with that context; but
    the socket has been closed by then: the listener object of [ListenTCP]
    still owns it when [ListenTLS] returns, and closes it as it dies. *)
Theorem ListenTLS_closes_the_socket os network address config tr :
  exists d,
    snd (Listen.ListenTLS os network address config tr) = tr ++ d
    /\ (Str.empty (TLS.cert_file config) || Str.empty (TLS.key_file config)
        = true ->
        d = []
        /\ err (fst (Listen.ListenTLS os network address config tr)) <> None)
    /\ let r := fst (Listen.ListenTLS os network address config tr) in
       match err r with
       | Some _ =>
           value r = None
           /\ released (plain_part d) = obtained os wants_socket tr d
           /\ ctx_freed (plain_part d) = obtained os wants_ctx tr d
       | None =>
           exists l fd ctx,
             value r = Some l
             /\ obtained os wants_socket tr d = [fd]
             /\ obtained os wants_ctx tr d = [ctx]
             /\ TCP.l_socket_fd_ (TLS.l_base l) = fd
             /\ TCP.l_closed_ (TLS.l_base l) = false
             /\ TLS.l_ctx_ l = Some ctx
             /\ In (Listen.SSL_CTX_check_private_key ctx) d
             /\ ctx_freed (plain_part d) = []
             /\ released (plain_part d) = [fd]
       end.
Proof.
  destruct (Listen.ListenTLS os network address config tr) as [r tr'] eqn:E.
  destruct (ListenTLS_accounts os network address config tr r tr' E)
    as (d & -> & H).
  exists d. split; [reflexivity|exact H].
Qed.


(* ------------------------------------------------------------------ *)
(** ** The copy of the TLS client in [net.cpp] *)





(* ------------------------------------------------------------------ *)
(** ** The two error tables *)

(** X17. The two transports do not map system errors alike. [os.cpp] and
    [net.cpp] each have a [socketErrorToError]; they agree on every error
    code but three: a broken pipe is the Closed error for TCP and a plain
    socket error for UDP, and "address in use" and "address not
    available" have a message of their own for TCP only. Both map a
    time-out to the Timeout error and a reset or missing connection to the
    Closed error. *)
Theorem socketErrorToError_tables_differ os code :
  (code <> Sys.EPIPE -> code <> Sys.EADDRINUSE ->
   code <> Sys.EADDRNOTAVAIL ->
   TCP.socketErrorToError os code = UDP.socketErrorToError os code)
  /\ TCP.socketErrorToError os Sys.EPIPE = ErrClosed
  /\ UDP.socketErrorToError os Sys.EPIPE
     = New ("socket error: " ++ strerror os Sys.EPIPE)%string
  /\ TCP.socketErrorToError os Sys.EADDRINUSE = New "address already in use"
  /\ UDP.socketErrorToError os Sys.EADDRINUSE
     = New ("socket error: " ++ strerror os Sys.EADDRINUSE)%string
  /\ TCP.socketErrorToError os Sys.EADDRNOTAVAIL
     = New "cannot assign requested address"
  /\ UDP.socketErrorToError os Sys.EADDRNOTAVAIL
     = New ("socket error: " ++ strerror os Sys.EADDRNOTAVAIL)%string
  /\ TCP.socketErrorToError os Sys.ETIMEDOUT = ErrTimeout
  /\ UDP.socketErrorToError os Sys.ETIMEDOUT = ErrTimeout
  /\ (code = Sys.ECONNRESET \/ code = Sys.ENOTCONN ->
      TCP.socketErrorToError os code = ErrClosed
      /\ UDP.socketErrorToError os code = ErrClosed).
Proof.
  repeat split; try reflexivity.
  - intros H1 H2 H3. unfold TCP.socketErrorToError, UDP.socketErrorToError.
    destruct (code =? Sys.ETIMEDOUT); [reflexivity|].
    destruct (code =? Sys.ECONNRESET); [reflexivity|].
    destruct (code =? Sys.ENOTCONN); [reflexivity|].
    replace (code =? Sys.EPIPE) with false
      by (symmetry; apply Z.eqb_neq; exact H1).
    replace (code =? Sys.EADDRINUSE) with false
      by (symmetry; apply Z.eqb_neq; exact H2).
    replace (code =? Sys.EADDRNOTAVAIL) with false
      by (symmetry; apply Z.eqb_neq; exact H3).
    reflexivity.
  - destruct H as [-> | ->]; reflexivity.
  - destruct H as [-> | ->]; reflexivity.
Qed.

(* ------------------------------------------------------------------ *)
(** ** Registration of handlers *)

Lemma find_assign_other {V} k q (v : V) m :
  q <> k -> StdMap.find q (StdMap.assign k v m) = StdMap.find q m.
Proof.
  intros Hq. assert (Hqk : String.eqb q k = false)
    by (apply String.eqb_neq; exact Hq).
  induction m as [|[k' v'] m IH]; simpl.
  - rewrite Hqk. reflexivity.
  - destruct (String.compare k k') eqn:Hc; simpl.
    + apply String.compare_eq_iff in Hc. subst k'. rewrite Hqk. reflexivity.
    + rewrite Hqk. reflexivity.
    + rewrite IH. reflexivity.
Qed.

Lemma string_compare_refl k : String.compare k k = Eq.
Proof.
  pose proof (String.compare_antisym k k) as H.
  destruct (String.compare k k); try reflexivity; discriminate.
Qed.

Lemma assign_assign_same {V} k (v0 v : V) m :
  StdMap.assign k v (StdMap.assign k v0 m) = StdMap.assign k v m.
Proof.
  induction m as [|[k' v'] m IH]; simpl.
  - rewrite string_compare_refl. reflexivity.
  - destruct (String.compare k k') eqn:Hc; simpl.
    + rewrite string_compare_refl. reflexivity.
    + rewrite string_compare_refl. reflexivity.
    + rewrite Hc, IH. reflexivity.
Qed.

(** X18. [HandleFunc] registers by assignment into the map: afterwards a
    request for exactly the pattern is served by the handler just given,
    whatever was registered before, also under longer or shorter patterns;
    the handlers found for all other URLs by exact match are the ones
    found before; registering twice under one pattern leaves the mux that
    the second registration alone gives; and the map stays ordered. *)
Theorem HandleFunc_replaces os mux pattern handler :
  (forall w req,
      HTTP.url req = pattern ->
      HTTP.ServeHTTP os (HTTP.HandleFunc mux pattern handler) w req
      = HTTP.invoke handler w req)
  /\ (forall q,
        q <> pattern ->
        StdMap.find q (HTTP.handlers_ (HTTP.HandleFunc mux pattern handler))
        = StdMap.find q (HTTP.handlers_ mux))
  /\ (forall earlier,
        HTTP.HandleFunc (HTTP.HandleFunc mux pattern earlier) pattern handler
        = HTTP.HandleFunc mux pattern handler)
  /\ (mux_wf mux -> mux_wf (HTTP.HandleFunc mux pattern handler)).
Proof.
  split; [|split; [|split]].
  - intros w req Hurl. unfold HTTP.ServeHTTP, HTTP.HandleFunc.
    cbn [HTTP.handlers_]. rewrite Hurl, find_assign_same. reflexivity.
  - intros q Hq. unfold HTTP.HandleFunc. cbn [HTTP.handlers_].
    apply find_assign_other. exact Hq.
  - intros earlier. unfold HTTP.HandleFunc. cbn [HTTP.handlers_].
    rewrite assign_assign_same. reflexivity.
  - apply HandleFunc_wf.
Qed.

(* ------------------------------------------------------------------ *)
(** ** What [parseAddress] lets through *)

Lemma rfind_char_absent c s :
  contains_char c s = false -> Str.rfind_char s c = None.
Proof.
  induction s as [|a s IH]; intros H; [reflexivity|].
  cbn [contains_char] in H. apply orb_false_elim in H. destruct H as [Ha Hs].
  simpl. rewrite (IH Hs), Ha. reflexivity.
Qed.

Lemma no_colon_uint u : contains_char ":" (NilEmpty.string_of_uint u) = false.
Proof. induction u; simpl; try rewrite IHu; reflexivity. Qed.

Lemma leading_digits_none s :
  first_is Str.isdigit s = false -> Str.leading_digits s = [].
Proof.
  destruct s as [|c s]; [reflexivity|]. simpl. intros ->. reflexivity.
Qed.

Lemma stoi_digits_then_text u junk :
  u <> Decimal.Nil ->
  first_is Str.isdigit junk = false ->
  Str.INT_MIN <= Z.of_N (Pos.of_uint u) <= Str.INT_MAX ->
  Str.stoi (NilEmpty.string_of_uint u ++ junk)%string
  = Some (Z.of_N (Pos.of_uint u)).
Proof.
  intros Hu Hjunk Hrange. unfold Str.stoi.
  rewrite (skip_spaces_uint u junk Hu).
  assert (Hsign :
    match (NilEmpty.string_of_uint u ++ junk)%string with
    | String "-"%char r => (true, r)
    | String "+"%char r => (false, r)
    | _ => (false, (NilEmpty.string_of_uint u ++ junk)%string)
    end = (false, (NilEmpty.string_of_uint u ++ junk)%string)).
  { destruct u; [congruence|reflexivity..]. }
  rewrite Hsign.
  rewrite leading_digits_uint, (leading_digits_none junk Hjunk), app_nil_r.
  pose proof (uint_digits_not_nil u Hu) as Hne.
  rewrite <- digits_value_uint in Hrange |- *.
  destruct (uint_digits u) as [|d ds]; [congruence|].
  replace ((Str.INT_MIN <=? Str.digits_value (d :: ds))
           && (Str.digits_value (d :: ds) <=? Str.INT_MAX)) with true;
    [reflexivity|].
  symmetry. apply andb_true_intro. split; apply Z.leb_le; lia.
Qed.

Lemma stoi_number_then_text p junk :
  0 <= p <= Str.INT_MAX ->
  first_is Str.isdigit junk = false ->
  Str.stoi (Str.to_string p ++ junk)%string = Some p.
Proof.
  intros Hp Hjunk. unfold Str.to_string.
  destruct p as [|p|p]; [| |lia]; cbn [Z.to_int NilZero.string_of_int].
  - exact (stoi_digits_then_text (Decimal.D0 Decimal.Nil) junk
             ltac:(discriminate) Hjunk
             ltac:(unfold Str.INT_MIN, Str.INT_MAX; simpl; lia)).
  - rewrite string_of_uint_pos.
    pose proof (stoi_digits_then_text (Pos.to_uint p) junk
                  (to_uint_not_Nil p) Hjunk) as E.
    rewrite DecimalPos.Unsigned.of_to in E. apply E.
    unfold Str.INT_MIN. simpl. lia.
Qed.

Lemma no_colon_to_string p :
  0 <= p -> contains_char ":" (Str.to_string p) = false.
Proof.
  intros Hp. unfold Str.to_string.
  destruct p as [|p|p]; [reflexivity| |lia].
  cbn [Z.to_int NilZero.string_of_int]. rewrite string_of_uint_pos.
  apply no_colon_uint.
Qed.

(** X19. [parseAddress] reads the port with [std::stoi], which stops at
    the first character that is no digit: whatever follows the digits of
    the port is dropped without an error, as long as it holds no colon.
    Both transports do so, and both put "0.0.0.0" for an empty host. *)
Theorem parseAddress_drops_text_after_port host p junk :
  0 <= p <= 65535 ->
  contains_char ":" junk = false ->
  first_is Str.isdigit junk = false ->
  let address := (host ++ ":" ++ Str.to_string p ++ junk)%string in
  let expected :=
    Some (if Str.empty host then "0.0.0.0"%string else host, p) in
  TCP.parseAddress address = expected
  /\ UDP.parseAddress address = expected.
Proof.
  intros Hp Hcolon Hjunk address expected.
  assert (Hgo : TCP.parseAddress address = expected).
  { unfold TCP.parseAddress, address, expected. cbn [append].
    rewrite rfind_char_app.
    2:{ apply rfind_char_absent. rewrite contains_char_app, Hcolon.
        rewrite no_colon_to_string by lia. reflexivity. }
    unfold Str.substr. rewrite substring_app_head.
    replace (String.length host + 1)%nat
      with (String.length (host ++ ":")%string)
      by (rewrite length_app_string; reflexivity).
    replace (host ++ String ":"%char (Str.to_string p ++ junk))%string
      with ((host ++ ":") ++ (Str.to_string p ++ junk))%string
      by (rewrite append_assoc_string; reflexivity).
    rewrite substr_from_app, stoi_number_then_text;
      [|unfold Str.INT_MAX; lia|exact Hjunk].
    replace (p <? 0) with false by (symmetry; apply Z.ltb_ge; lia).
    replace (p >? 65535) with false
      by (symmetry; rewrite Z.gtb_ltb; apply Z.ltb_ge; lia).
    reflexivity. }
  split; [exact Hgo|exact Hgo].
Qed.

Lemma parseAddress_drops_text_after_port_witness :
  TCP.parseAddress "localhost:80/index.html"
  = Some ("localhost"%string, 80)
  /\ UDP.parseAddress ":53 udp" = Some ("0.0.0.0"%string, 53).
Proof.
  split.
  - apply (parseAddress_drops_text_after_port "localhost" 80 "/index.html");
      [lia|reflexivity|reflexivity].
  - apply (parseAddress_drops_text_after_port "" 53 " udp");
      [lia|reflexivity|reflexivity].
Defined.

(* ------------------------------------------------------------------ *)
(** ** The end of a TLS connection *)

Lemma close_times_closed os n :
  forall c tr,
    TLS.ssl_ c = None -> TCP.closed_ (TLS.base c) = true ->
    Teardown.close_times os n c tr = (c, tr).
Proof.
  induction n as [|n IH]; intros c tr Hssl Hcl; [reflexivity|].
  destruct c as [b ssl ctx]. simpl in Hssl, Hcl. subst ssl.
  cbn [Teardown.close_times]. unfold mbind, TLS.close, TCP.close.
  cbn [TLS.ssl_ TLS.base TLS.ctx_]. rewrite Hcl. run.
  rewrite IH; [|reflexivity|exact Hcl].
  destruct b; simpl in Hcl; subst; reflexivity.
Qed.

(** X20. A TLS connection gives back each of its handles exactly once,
    however often [close] is called before the object dies: over any
    number of [close] calls followed by the destructors, the session is
    shut down and freed once, the context is freed once, and the socket
    of a connection that was open is closed once. [close] itself never
    frees the context: with at least one [close] before, the destructors
    have only the context left to free. *)
Theorem TLSConn_releases_each_handle_once os c n tr :
  exists d,
    snd (mbind (Teardown.close_times os n c)
               (Teardown.destroy_TLSConn os) tr) = tr ++ d
    /\ ssl_freed d = handle_of (TLS.ssl_ c)
    /\ ctx_freed d = handle_of (TLS.ctx_ c)
    /\ released d
       = (if TCP.closed_ (TLS.base c) then []
          else [TCP.socket_fd_ (TLS.base c)])
    /\ (forall ssl,
          TLS.ssl_ c = Some ssl ->
          exists d1 d2,
            d = d1 ++ SSL_shutdown ssl :: SSL_free ssl :: d2
            /\ released d1 = [])
    /\ (forall hist, opened os hist d = [])
    /\ ((0 < n)%nat ->
        exists d1,
          snd (Teardown.close_times os n c tr) = tr ++ d1
          /\ ctx_freed d1 = []
          /\ d = d1 ++ map SSL_CTX_free (handle_of (TLS.ctx_ c))).
Proof.
  destruct c as [[fd la ra closed rd wr] ssl ctx].
  destruct n as [|n].
  - unfold mbind, Teardown.destroy_TLSConn, TCP.destroy, TCP.close.
    cbn [Teardown.close_times TLS.ssl_ TLS.ctx_ TLS.base TCP.closed_
         TCP.socket_fd_].
    run.
    destruct ssl as [ssl|], ctx as [ctx|], closed; simpl;
      rewrite <- ?app_assoc; simpl; eexists;
      (split; [try reflexivity; rewrite app_nil_r; reflexivity|]);
      repeat split; try reflexivity; try (intros; lia);
      try (intros ? H; discriminate H);
      try (intros ? H; injection H as <-; exists []; eexists;
           split; reflexivity).
  - cbn [Teardown.close_times]. unfold mbind at 1 2.
    unfold TLS.close at 1, TCP.close.
    cbn [TLS.ssl_ TLS.ctx_ TLS.base TCP.closed_ TCP.socket_fd_].
    destruct ssl as [ssl|], closed; run;
      (rewrite close_times_closed; [|reflexivity|reflexivity]);
      unfold Teardown.destroy_TLSConn, TCP.destroy; run;
      destruct ctx as [ctx|]; simpl;
      rewrite <- ?app_assoc; simpl; eexists;
      (split; [try reflexivity; rewrite app_nil_r; reflexivity|]);
      repeat split; try reflexivity;
      try (intros ? H; discriminate H);
      try (intros ? H; injection H as <-; exists []; eexists;
           split; reflexivity);
      try (intros _; eexists;
           (split; [try reflexivity; rewrite app_nil_r; reflexivity|]);
           split; reflexivity).
Qed.

(* ------------------------------------------------------------------ *)
(** ** The server: one connection *)






(* ------------------------------------------------------------------ *)
(** ** The client: one exchange *)

Lemma parseResponse_returns raw : exists r, parseResponse raw = Some r.
Proof.
  destruct raw as [|c0 raw0] eqn:Hraw; [eexists; reflexivity|].
  rewrite <- Hraw.
  assert (Hne : raw <> ""%string) by (subst; discriminate).
  destruct (getline_first raw Hne) as (line & st & Hg & Hlen).
  unfold parseResponse. rewrite Hg.
  destruct (extract_string (istringstream_of (pop_back_CR line)))
    as [proto s1].
  destruct (extract_int s1 0) as [code s2].
  destruct (parse_headers_returns (S (String.length raw)) st []
              ltac:(lia)) as ([header st'] & Hph).
  rewrite Hph. eexists; reflexivity.
Qed.

Lemma read_response_delivers os buffer_bytes t chunks :
  TCP.closed_ t = false ->
  forall fuel raw tr,
    delivers os buffer_bytes (TCP.socket_fd_ t) tr chunks ->
    (List.length chunks < fuel)%nat ->
    Client.read_response os buffer_bytes fuel (HTTP.PlainConn t) raw tr
    = (Some (raw ++ String.concat "" chunks)%string,
       tr ++ repeat (sys_recv (TCP.socket_fd_ t) Serve.BUFFER_SIZE)
               (S (List.length chunks))).
Proof.
  intros Hopen. induction chunks as [|chunk rest IH]; intros fuel raw tr Hd Hf.
  - destruct fuel as [|fuel]; [simpl in Hf; lia|].
    cbn [delivers] in Hd. cbn [Client.read_response].
    unfold Client.conn_Read, TCP.Read. rewrite Hopen. run.
    set (c := sys_recv (TCP.socket_fd_ t) Serve.BUFFER_SIZE) in *.
    rewrite append_empty_r.
    destruct (ret (reply os tr c) <? 0) eqn:Hneg; simpl; [reflexivity|].
    apply Z.ltb_ge in Hneg.
    replace (ret (reply os tr c) =? 0) with true
      by (symmetry; apply Z.eqb_eq; lia).
    reflexivity.
  - destruct fuel as [|fuel]; [simpl in Hf; lia|].
    cbn [delivers] in Hd. destruct Hd as (Hn & Hne & Hbytes & Hrest).
    assert (Hcat : String.concat "" (chunk :: rest)
                   = (chunk ++ String.concat "" rest)%string).
    { destruct rest; [simpl; rewrite append_empty_r|]; reflexivity. }
    rewrite Hcat. clear Hcat.
    change (S (List.length (chunk :: rest)))
      with (S (S (List.length rest))).
    cbn [Client.read_response].
    unfold Client.conn_Read, TCP.Read. rewrite Hopen.
    unfold mbind, call, mret. cbn [fst snd].
    set (c := sys_recv (TCP.socket_fd_ t) Serve.BUFFER_SIZE) in *.
    assert (Hpos : 0 < ret (reply os tr c)).
    { rewrite Hn. destruct chunk; [congruence|]. simpl. lia. }
    destruct (ret (reply os tr c) <? 0) eqn:Hneg;
      [apply Z.ltb_lt in Hneg; lia|].
    assert (Hz : (ret (reply os tr c) =? 0) = false)
      by (apply Z.eqb_neq; lia).
    rewrite Hz.
    cbv beta iota delta [fst snd value err negb orb Failed Ok].
    rewrite Hz. rewrite Hbytes.
    rewrite (IH fuel (raw ++ chunk)%string (tr ++ [c]) Hrest
               ltac:(simpl in Hf; lia)).
    rewrite <- app_assoc, append_assoc_string. reflexivity.
Qed.

(** X22. One exchange of [Get] and [Post] over an open plain connection.
    The request goes out in one [send], never repeated. When the send
    fails, its error is returned with an empty response and the socket is
    closed. When it does not fail (also when it took fewer bytes than the
    request has), the client receives until a receive fails or gives
    nothing: for a peer that delivers the pieces [chunks] one after the
    other, it makes one receive more than there are pieces, closes the
    socket once, and returns what the response parser makes of the pieces
    put together, however the text was cut into pieces; the failure of the
    last receive is not reported. *)
Theorem exchange_reads_to_the_end os buffer_bytes t req fuel tr :
  TCP.closed_ t = false ->
  let fd := TCP.socket_fd_ t in
  let s := sys_send fd req Sys.MSG_NOSIGNAL in
  let r := reply os tr s in
  let run := Client.exchange os buffer_bytes fuel req (HTTP.PlainConn t) tr in
  (ret r < 0 ->
   run = (Some (mkResult HTTP.new_Response
                  (Some (TCP.socketErrorToError os (errno r)))),
          tr ++ [s; sys_close fd]))
  /\ (0 <= ret r ->
      forall chunks,
        delivers os buffer_bytes fd (tr ++ [s]) chunks ->
        (List.length chunks < fuel)%nat ->
        exists result,
          parseResponse (String.concat "" chunks) = Some result
          /\ run = (Some result,
                    tr ++ [s]
                       ++ repeat (sys_recv fd Serve.BUFFER_SIZE)
                            (S (List.length chunks))
                       ++ [sys_close fd])).
Proof.
  intros Hopen. cbv zeta.
  set (fd := TCP.socket_fd_ t).
  set (s := sys_send fd req Sys.MSG_NOSIGNAL).
  set (r := reply os tr s).
  unfold Client.exchange, HTTP.conn_Write, TCP.Write. rewrite Hopen.
  fold fd. fold s.
  split.
  - intros Hneg. apply Z.ltb_lt in Hneg.
    unfold mbind at 1 2 3. unfold call at 1. fold r. rewrite Hneg.
    unfold mret at 1 2. cbn [fst snd err].
    unfold Client.conn_destroy, TCP.destroy, TCP.close. rewrite Hopen.
    unfold mbind, call, mret. cbn [negb]. rewrite <- app_assoc. reflexivity.
  - intros Hpos chunks Hd Hf.
    apply Z.ltb_ge in Hpos.
    destruct (parseResponse_returns (String.concat "" chunks))
      as [result Hparse].
    exists result. split; [exact Hparse|].
    unfold mbind at 1 2 3. unfold call at 1. fold r. rewrite Hpos.
    unfold mret at 1 2. cbn [fst snd err].
    unfold mbind at 1.
    rewrite (read_response_delivers os buffer_bytes t chunks Hopen
               fuel "" (tr ++ [s]) Hd Hf).
    cbn [append]. unfold Client.conn_close, TCP.close. rewrite Hopen.
    cbn [negb]. unfold mbind at 1 2 3. unfold call at 1. unfold mret at 1 2.
    rewrite Hparse.
    unfold Client.conn_destroy, TCP.destroy. cbn [TCP.set_closed TCP.closed_ negb].
    unfold mbind, mret. rewrite <- !app_assoc. reflexivity.
Qed.

Lemma exchange_reads_to_the_end_witness :
  let text := (HTTP.response_head 200 [] ++ "hi")%string in
  let t := TCP.new_TCPConn 7 None None in
  exists result,
    parseResponse (String.concat "" [text]) = Some result
    /\ Client.exchange (os_serving text) (fun _ _ => text) 3
         "GET / HTTP/1.1" (HTTP.PlainConn t) []
       = (Some result,
          [] ++ [sys_send 7 "GET / HTTP/1.1" Sys.MSG_NOSIGNAL]
             ++ repeat (sys_recv 7 Serve.BUFFER_SIZE) 2
             ++ [sys_close 7]).
Proof.
  intros text t.
  apply (proj2 (exchange_reads_to_the_end (os_serving text)
                  (fun _ _ => text) t "GET / HTTP/1.1" 3 [] eq_refl)).
  - simpl. lia.
  - cbn [delivers]. repeat split; try reflexivity; try discriminate.
  - simpl. lia.
Defined.
